(** * AWS instance inventory: region collector and record normalizer

    A shallow embedding of [modules.py] (the record normalizer) and
    [main.py] (the region collector), followed by the properties of the
    embedded functions.

    Raw provider data is a loosely typed Python value; it is embedded as
    the inductive type [value].  Exceptions and log records are explicit:
    a computation is a pair of the events it emitted and either a result or
    the exception it raised.  The remote listing API is a script of
    responses, the client factory a function of the region name.

    The normalizer is embedded a second time over a store of mutable
    objects (module [Heap]), where appending to a list and assigning an
    attribute are writes; that embedding settles what the normalizer does
    to its input, and is shown to compute what the first one does. *)

From stdpp Require Import base option list strings gmap fin_maps.
From Stdlib Require Import ZArith Lia Ascii.

#[local] Set Warnings "-register-all".

Local Open Scope Z_scope.
Local Open Scope string_scope.

(** ** Python's [ipaddress] module

    [ipaddress.ip_address] belongs to the Python standard library, not to
    the repository; it is modelled after CPython 3.11's [ipaddress.py] for
    the argument types a raw record can hold. *)

Module ipaddress.

(** An [IPv4Address] holds a 32-bit integer, an [IPv6Address] a 128-bit
    integer and an optional scope id. *)
Inductive ip : Type :=
| IPv4Address (n : Z)
| IPv6Address (n : Z) (scope_id : option string).

Definition IPV4_ALL_ONES : Z := 2 ^ 32 - 1.
Definition IPV6_ALL_ONES : Z := 2 ^ 128 - 1.
Definition HEXTET_COUNT : nat := 8.

(** [s.split(sep)] for a one-character separator. *)
Fixpoint split (sep : ascii) (s : string) : list string :=
  match s with
  | EmptyString => [EmptyString]
  | String c s' =>
      if Ascii.eqb c sep then EmptyString :: split sep s'
      else match split sep s' with
           | [] => [String c EmptyString]
           | p :: ps => String c p :: ps
           end
  end.

(** [sep in s] for a one-character [sep]. *)
Fixpoint contains_char (sep : ascii) (s : string) : bool :=
  match s with
  | EmptyString => false
  | String c s' => Ascii.eqb c sep || contains_char sep s'
  end.

Definition is_digit (c : ascii) : bool :=
  let n := nat_of_ascii c in (48 <=? n)%nat && (n <=? 57)%nat.

Definition digit_value (c : ascii) : Z := Z.of_nat (nat_of_ascii c) - 48.

(** Value of a hexadecimal digit, [None] outside [_HEX_DIGITS]. *)
Definition hex_value (c : ascii) : option Z :=
  let n := nat_of_ascii c in
  if (48 <=? n)%nat && (n <=? 57)%nat then Some (Z.of_nat n - 48)
  else if (65 <=? n)%nat && (n <=? 70)%nat then Some (Z.of_nat n - 55)
  else if (97 <=? n)%nat && (n <=? 102)%nat then Some (Z.of_nat n - 87)
  else None.

Fixpoint all_chars (p : ascii → bool) (s : string) : bool :=
  match s with
  | EmptyString => true
  | String c s' => p c && all_chars p s'
  end.

(** [int(s, 10)] on a string of decimal digits, most significant first. *)
Fixpoint int_of_digits (acc : Z) (s : string) : Z :=
  match s with
  | EmptyString => acc
  | String c s' => int_of_digits (10 * acc + digit_value c) s'
  end.

(** [int(s, 16)] on a string of hexadecimal digits. *)
Fixpoint int_of_hex (acc : Z) (s : string) : option Z :=
  match s with
  | EmptyString => Some acc
  | String c s' =>
      match hex_value c with
      | Some d => int_of_hex (16 * acc + d) s'
      | None => None
      end
  end.

(** [_BaseV4._parse_octet]: [None] stands for the [ValueError]. *)
Definition parse_octet (octet_str : string) : option Z :=
  match octet_str with
  | EmptyString => None
  | String c0 _ =>
      if negb (all_chars is_digit octet_str) then None
      else if (3 <? String.length octet_str)%nat then None
      else if negb (String.eqb octet_str "0") && Ascii.eqb c0 "0" then None
      else
        let octet_int := int_of_digits 0 octet_str in
        if (255 <? octet_int)%Z then None else Some octet_int
  end.

(** [int.from_bytes(octets, 'big')]. *)
Definition from_bytes_big (octets : list Z) : Z :=
  fold_left (λ acc o, Z.lor (Z.shiftl acc 8) o) octets 0.

(** [_BaseV4._ip_int_from_string]: [None] stands for the
    [AddressValueError]. *)
Definition v4_int_from_string (ip_str : string) : option Z :=
  match ip_str with
  | EmptyString => None
  | _ =>
      let octets := split "." ip_str in
      if negb (length octets =? 4)%nat then None
      else from_bytes_big <$> mapM parse_octet octets
  end.

(** [IPv4Address(address)] for a string argument. *)
Definition IPv4Address_of_string (addr_str : string) : option Z :=
  if contains_char "/" addr_str then None
  else v4_int_from_string addr_str.

(** [_BaseV6._parse_hextet]. *)
Definition parse_hextet (hextet_str : string) : option Z :=
  if negb (all_chars (λ c, bool_decide (is_Some (hex_value c))) hextet_str)
  then None
  else if (4 <? String.length hextet_str)%nat then None
  else match hextet_str with
       | EmptyString => None
       | _ => int_of_hex 0 hextet_str
       end.

(** ['%x' % n] for [0 <= n < 2^16]. *)
Definition hex_digit (d : Z) : ascii :=
  ascii_of_nat (Z.to_nat (if (d <? 10)%Z then d + 48 else d + 87)).

Definition hex_string (n : Z) : string :=
  let d3 := Z.land (Z.shiftr n 12) 15 in
  let d2 := Z.land (Z.shiftr n 8) 15 in
  let d1 := Z.land (Z.shiftr n 4) 15 in
  let d0 := Z.land n 15 in
  if (0 <? d3)%Z then String (hex_digit d3) (String (hex_digit d2)
                   (String (hex_digit d1) (String (hex_digit d0) "")))
  else if (0 <? d2)%Z then String (hex_digit d2)
                   (String (hex_digit d1) (String (hex_digit d0) ""))
  else if (0 <? d1)%Z then String (hex_digit d1) (String (hex_digit d0) "")
  else String (hex_digit d0) "".

(** The loop that looks for a ['::'] strictly inside [parts]: the index of
    the single empty inner part, [Some None] when there is none, [None]
    when there are two. *)
Fixpoint find_skip (inner : list string) (i : nat) (skip_index : option nat)
  : option (option nat) :=
  match inner with
  | [] => Some skip_index
  | p :: inner' =>
      if String.eqb p "" then
        match skip_index with
        | Some _ => None
        | None => find_skip inner' (S i) (Some i)
        end
      else find_skip inner' (S i) skip_index
  end.

(** The two accumulation loops over hextets. *)
Fixpoint accumulate_hextets (ip_int : Z) (hextets : list string) : option Z :=
  match hextets with
  | [] => Some ip_int
  | h :: hextets' =>
      match parse_hextet h with
      | Some v => accumulate_hextets (Z.lor (Z.shiftl ip_int 16) v) hextets'
      | None => None
      end
  end.

Definition is_empty (s : string) : bool := String.eqb s "".

(** [_BaseV6._ip_int_from_string]. *)
Definition v6_int_from_string (ip_str : string) : option Z :=
  if is_empty ip_str then None
  else
    let parts := split ":" ip_str in
    if (length parts <? 3)%nat then None
    else
      (* an IPv4-style suffix is converted to two hextets *)
      parts ←
        (if contains_char "." (List.last parts "") then
           ipv4_int ← IPv4Address_of_string (List.last parts "");
           Some (removelast parts ++
                 [hex_string (Z.land (Z.shiftr ipv4_int 16) 65535);
                  hex_string (Z.land ipv4_int 65535)])%list
         else Some parts);
      if (HEXTET_COUNT + 1 <? length parts)%nat then None
      else
        skip_index ← find_skip (removelast (tail parts)) 1 None;
        let first_empty := is_empty (List.hd "" parts) in
        let last_empty := is_empty (List.last parts "") in
        '(parts_hi, parts_lo, parts_skipped) ←
          match skip_index with
          | Some skip_index =>
              let parts_hi := skip_index in
              let parts_lo := (length parts - skip_index - 1)%nat in
              parts_hi ←
                (if first_empty then
                   if (0 <? parts_hi - 1)%nat then None
                   else Some (parts_hi - 1)%nat
                 else Some parts_hi);
              parts_lo ←
                (if last_empty then
                   if (0 <? parts_lo - 1)%nat then None
                   else Some (parts_lo - 1)%nat
                 else Some parts_lo);
              if (HEXTET_COUNT <? parts_hi + parts_lo + 1)%nat then None
              else Some (parts_hi, parts_lo,
                         (HEXTET_COUNT - (parts_hi + parts_lo))%nat)
          | None =>
              if negb (length parts =? HEXTET_COUNT)%nat then None
              else if first_empty then None
              else if last_empty then None
              else Some (length parts, 0%nat, 0%nat)
          end;
        ip_int ← accumulate_hextets 0 (take parts_hi parts);
        accumulate_hextets (Z.shiftl ip_int (16 * Z.of_nat parts_skipped))
          (drop (length parts - parts_lo) parts).

(** [ip_str.partition('%')]: the text before the first ['%'] and, when
    there is one, the text after it. *)
Fixpoint partition_percent (s : string) : string * option string :=
  match s with
  | EmptyString => (EmptyString, None)
  | String c s' =>
      if Ascii.eqb c "%" then (EmptyString, Some s')
      else let '(a, r) := partition_percent s' in (String c a, r)
  end.

(** [IPv6Address._split_scope_id]. *)
Definition split_scope_id (ip_str : string) : option (string * option string) :=
  match partition_percent ip_str with
  | (addr, None) => Some (addr, None)
  | (addr, Some scope_id) =>
      if is_empty scope_id || contains_char "%" scope_id then None
      else Some (addr, Some scope_id)
  end.

(** [IPv6Address(address)] for a string argument. *)
Definition IPv6Address_of_string (addr_str : string) : option ip :=
  if contains_char "/" addr_str then None
  else
    '(addr_str, scope_id) ← split_scope_id addr_str;
    n ← v6_int_from_string addr_str;
    Some (IPv6Address n scope_id).

(** [ip_address(address)] for a string: IPv4 is tried first. *)
Definition ip_address_of_string (address : string) : option ip :=
  match IPv4Address_of_string address with
  | Some n => Some (IPv4Address n)
  | None => IPv6Address_of_string address
  end.

(** [ip_address(address)] for an integer: [_check_int_address] against the
    IPv4 range, then against the IPv6 range. *)
Definition ip_address_of_int (address : Z) : option ip :=
  if (0 <=? address)%Z && (address <=? IPV4_ALL_ONES)%Z
  then Some (IPv4Address address)
  else if (0 <=? address)%Z && (address <=? IPV6_ALL_ONES)%Z
  then Some (IPv6Address address None)
  else None.

End ipaddress.

(** ** Python values, exceptions and diagnostics *)

(** A loosely typed Python value, as found in a raw provider response.  A
    [dict] with string keys is an association list in insertion order; a
    lookup returns the first binding of the key.  A [datetime], such as
    the provider's [LaunchTime], is held as its timestamp. *)
Inductive value : Type :=
| VNone
| VBool (b : bool)
| VInt (z : Z)
| VStr (s : string)
| VDatetime (timestamp : Z)
| VAddr (a : ipaddress.ip)
| VList (l : list value)
| VDict (d : list (string * value)).

(** The exceptions of the model; all of them derive from [Exception].
    [OtherException] is any other class, by name, such as the errors
    botocore raises. *)
Inductive exn : Type :=
| KeyError (key : string)
| TypeError
| ValueError
| StopIteration
| OtherException (name : string).

Inductive level : Type := DEBUG | INFO | ERROR.

(** What a run makes observable besides its result: a log record
    [logging.<lv>(f"{text}{arg}")], the creation of a regional client and a
    call of its [describe_instances]. *)
Inductive event : Type :=
| Log (lv : level) (text : string) (arg : option value)
| Client (region_name : string)
| DescribeInstances (NextToken : option value).

Inductive result (A : Type) : Type :=
| Ok (a : A)
| Raise (e : exn).
Arguments Ok {A} a.
Arguments Raise {A} e.

(** A computation: the events it emitted, then its result or the exception
    that ended it. *)
Definition M (A : Type) : Type := list event * result A.

#[global] Instance M_ret : MRet M := λ A a, ([], Ok a).

#[global] Instance M_bind : MBind M := λ A B f m,
  match m with
  | (t, Ok a) => let '(t', r) := f a in ((t ++ t')%list, r)
  | (t, Raise e) => (t, Raise e)
  end.

Definition raise {A : Type} (e : exn) : M A := ([], Raise e).

Definition emit (ev : event) : M unit := ([ev], Ok tt).

(** [try: body  except Exception: handler e]. *)
Definition try_except {A : Type} (body : M A) (handler : exn → M A) : M A :=
  match body with
  | (t, Ok a) => (t, Ok a)
  | (t, Raise e) => let '(t', r) := handler e in ((t ++ t')%list, r)
  end.

Definition logging (lv : level) (text : string) (arg : option value) : M unit :=
  emit (Log lv text arg).

Fixpoint dict_get (d : list (string * value)) (k : string) : option value :=
  match d with
  | [] => None
  | (k', v) :: d' => if String.eqb k' k then Some v else dict_get d' k
  end.

(** [v[k]] for a string key [k]. *)
Definition getitem (v : value) (k : string) : M value :=
  match v with
  | VDict d =>
      match dict_get d k with
      | Some x => mret x
      | None => raise (KeyError k)
      end
  | _ => raise TypeError
  end.

(** [k in s] for two strings: [k] occurs in [s]. *)
Fixpoint substring_of (k s : string) : bool :=
  String.prefix k s ||
  match s with
  | EmptyString => false
  | String _ s' => substring_of k s'
  end.

(** [k in v] for a string [k]. *)
Definition contains (k : string) (v : value) : M bool :=
  match v with
  | VDict d => mret (bool_decide (is_Some (dict_get d k)))
  | VList l =>
      mret (existsb (λ x, match x with VStr s => String.eqb s k | _ => false end) l)
  | VStr s => mret (substring_of k s)
  | _ => raise TypeError
  end.

Fixpoint chars (s : string) : list value :=
  match s with
  | EmptyString => []
  | String c s' => VStr (String c EmptyString) :: chars s'
  end.

(** The elements [for x in v] visits. *)
Definition py_iter (v : value) : M (list value) :=
  match v with
  | VList l => mret l
  | VDict d => mret (map (λ kv, VStr (fst kv)) d)
  | VStr s => mret (chars s)
  | _ => raise TypeError
  end.

(** [bool(v)]; address objects define neither [__bool__] nor [__len__],
    and neither does [datetime]. *)
Definition truthy (v : value) : bool :=
  match v with
  | VNone => false
  | VBool b => b
  | VInt z => negb (z =? 0)%Z
  | VStr s => negb (ipaddress.is_empty s)
  | VDatetime _ => true
  | VAddr _ => true
  | VList l => negb (bool_decide (l = []))
  | VDict d => negb (bool_decide (d = []))
  end.

(** [ip_address(address)]; [None] stands for the [ValueError].  A [bool] is
    an [int]; an address object is converted with [str] and parsed back to
    the same address; [str] of [None], of a [datetime], of a list and of a
    dict is never an address. *)
Definition ip_address (address : value) : option ipaddress.ip :=
  match address with
  | VInt z => ipaddress.ip_address_of_int z
  | VBool b => ipaddress.ip_address_of_int (if b then 1 else 0)
  | VStr s => ipaddress.ip_address_of_string s
  | VAddr a => Some a
  | VNone | VDatetime _ | VList _ | VDict _ => None
  end.

(** ** modules.py: the record normalizer *)

Record NetworkInterface : Type := {
  ip_owner_id : value;
  public_dns_name : value;
  mac_address : value;
  network_interface_id : value;
  owner_id : value;
  private_dns_name : value;
  subnet_id : value;
  status : value;
  public_ip_address : option ipaddress.ip;
  ipv6_address : option ipaddress.ip;
  private_ip_address : option ipaddress.ip
}.

Definition set_public_ip_address (a : ipaddress.ip) (n : NetworkInterface) :=
  {| ip_owner_id := ip_owner_id n; public_dns_name := public_dns_name n;
     mac_address := mac_address n;
     network_interface_id := network_interface_id n;
     owner_id := owner_id n; private_dns_name := private_dns_name n;
     subnet_id := subnet_id n; status := status n;
     public_ip_address := Some a; ipv6_address := ipv6_address n;
     private_ip_address := private_ip_address n |}.

Definition set_ipv6_address (a : ipaddress.ip) (n : NetworkInterface) :=
  {| ip_owner_id := ip_owner_id n; public_dns_name := public_dns_name n;
     mac_address := mac_address n;
     network_interface_id := network_interface_id n;
     owner_id := owner_id n; private_dns_name := private_dns_name n;
     subnet_id := subnet_id n; status := status n;
     public_ip_address := public_ip_address n; ipv6_address := Some a;
     private_ip_address := private_ip_address n |}.

Definition set_private_ip_address (a : ipaddress.ip) (n : NetworkInterface) :=
  {| ip_owner_id := ip_owner_id n; public_dns_name := public_dns_name n;
     mac_address := mac_address n;
     network_interface_id := network_interface_id n;
     owner_id := owner_id n; private_dns_name := private_dns_name n;
     subnet_id := subnet_id n; status := status n;
     public_ip_address := public_ip_address n;
     ipv6_address := ipv6_address n; private_ip_address := Some a |}.

(** The three diagnostics of [from_raw_data_to_network_interface]; each is
    completed by the interface id. *)
Definition ipv6_invalid : string :=
  "ipv6 address is not valid in network interface with the id ".
Definition public_ip_invalid : string :=
  "public_ip address is not valid in network interface with the id ".
Definition private_ip_invalid : string :=
  "private_ip_address address is not valid in network interface with the id ".

(** [try: parsed_interface.<field> = ip_address(v)
     except ValueError: logging.<lv>(f"{text}{network_interface_id}")]. *)
Definition assign_address (set : ipaddress.ip → NetworkInterface → NetworkInterface)
    (v : value) (lv : level) (text : string)
    (parsed_interface : NetworkInterface) : M NetworkInterface :=
  match ip_address v with
  | Some a => mret (set a parsed_interface)
  | None =>
      logging lv text (Some (network_interface_id parsed_interface));;
      mret parsed_interface
  end.

Definition from_raw_data_to_network_interface (raw_data : value)
  : M NetworkInterface :=
  association ← getitem raw_data "Association";
  ip_owner_id ← getitem association "IpOwnerId";
  public_dns_name ← getitem association "PublicDnsName";
  mac_address ← getitem raw_data "MacAddress";
  network_interface_id ← getitem raw_data "NetworkInterfaceId";
  owner_id ← getitem raw_data "OwnerId";
  private_dns_name ← getitem raw_data "PrivateDnsName";
  subnet_id ← getitem raw_data "SubnetId";
  status ← getitem raw_data "Status";
  let parsed_interface :=
    {| ip_owner_id := ip_owner_id; public_dns_name := public_dns_name;
       mac_address := mac_address;
       network_interface_id := network_interface_id;
       owner_id := owner_id; private_dns_name := private_dns_name;
       subnet_id := subnet_id; status := status;
       public_ip_address := None; ipv6_address := None;
       private_ip_address := None |} in
  ipv6_address ← getitem raw_data "Ipv6Addresses";
  PublicIp ← getitem association "PublicIp";
  (* line 103: this call of ip_address is outside every try block *)
  public_ip ← match ip_address PublicIp with
              | Some a => mret (VAddr a)
              | None => raise ValueError
              end;
  private_ip_address ← getitem raw_data "PrivateIpAddress";
  parsed_interface ←
    (if truthy ipv6_address
     then assign_address set_ipv6_address ipv6_address ERROR ipv6_invalid
            parsed_interface
     else mret parsed_interface);
  parsed_interface ←
    (if truthy public_ip
     then assign_address set_public_ip_address public_ip DEBUG
            public_ip_invalid parsed_interface
     else mret parsed_interface);
  parsed_interface ←
    (if truthy private_ip_address
     then assign_address set_private_ip_address private_ip_address ERROR
            private_ip_invalid parsed_interface
     else mret parsed_interface);
  mret parsed_interface.

Record Instance : Type := {
  image_id : value;
  instance_id : value;
  network_interfaces : list NetworkInterface;
  state : value;
  launch_time : value;
  tags : value;
  cpu_details : value;
  instance_type : value;
  security_groups : value;
  client_token : value;
  state_transition_reason : value;
  root_device_name : value;
  ram_disk_id : value;
  platform : value;
  kernel_id : value;
  Host_id : value
}.

Definition set_ram_disk_id (v : value) (i : Instance) : Instance :=
  {| image_id := image_id i; instance_id := instance_id i;
     network_interfaces := network_interfaces i; state := state i;
     launch_time := launch_time i; tags := tags i;
     cpu_details := cpu_details i; instance_type := instance_type i;
     security_groups := security_groups i; client_token := client_token i;
     state_transition_reason := state_transition_reason i;
     root_device_name := root_device_name i;
     ram_disk_id := v; platform := platform i; kernel_id := kernel_id i;
     Host_id := Host_id i |}.

Definition set_platform (v : value) (i : Instance) : Instance :=
  {| image_id := image_id i; instance_id := instance_id i;
     network_interfaces := network_interfaces i; state := state i;
     launch_time := launch_time i; tags := tags i;
     cpu_details := cpu_details i; instance_type := instance_type i;
     security_groups := security_groups i; client_token := client_token i;
     state_transition_reason := state_transition_reason i;
     root_device_name := root_device_name i;
     ram_disk_id := ram_disk_id i; platform := v; kernel_id := kernel_id i;
     Host_id := Host_id i |}.

Definition set_kernel_id (v : value) (i : Instance) : Instance :=
  {| image_id := image_id i; instance_id := instance_id i;
     network_interfaces := network_interfaces i; state := state i;
     launch_time := launch_time i; tags := tags i;
     cpu_details := cpu_details i; instance_type := instance_type i;
     security_groups := security_groups i; client_token := client_token i;
     state_transition_reason := state_transition_reason i;
     root_device_name := root_device_name i;
     ram_disk_id := ram_disk_id i; platform := platform i; kernel_id := v;
     Host_id := Host_id i |}.

Definition set_Host_id (v : value) (i : Instance) : Instance :=
  {| image_id := image_id i; instance_id := instance_id i;
     network_interfaces := network_interfaces i; state := state i;
     launch_time := launch_time i; tags := tags i;
     cpu_details := cpu_details i; instance_type := instance_type i;
     security_groups := security_groups i; client_token := client_token i;
     state_transition_reason := state_transition_reason i;
     root_device_name := root_device_name i;
     ram_disk_id := ram_disk_id i; platform := platform i;
     kernel_id := kernel_id i; Host_id := v |}.

(** [if key in raw_data: parsed_instance.<field> = raw_data[key]]. *)
Definition assign_if_present (key : string) (set : value → Instance → Instance)
    (raw_data : value) (parsed_instance : Instance) : M Instance :=
  present ← contains key raw_data;
  if present : bool
  then v ← getitem raw_data key; mret (set v parsed_instance)
  else mret parsed_instance.

Definition from_raw_data_to_instance (raw_data : value) : M Instance :=
  interfaces ← getitem raw_data "NetworkInterfaces";
  interfaces ← py_iter interfaces;
  parsed_interfaces ← mapM from_raw_data_to_network_interface interfaces;
  image_id ← getitem raw_data "ImageId";
  instance_id ← getitem raw_data "InstanceId";
  state ← getitem raw_data "State";
  launch_time ← getitem raw_data "LaunchTime";
  tags ← getitem raw_data "Tags";
  cpu_details ← getitem raw_data "CpuOptions";
  instance_type ← getitem raw_data "InstanceType";
  security_groups ← getitem raw_data "SecurityGroups";
  client_token ← getitem raw_data "ClientToken";
  state_transition_reason ← getitem raw_data "StateTransitionReason";
  root_device_name ← getitem raw_data "RootDeviceName";
  let parsed_instance :=
    {| image_id := image_id; instance_id := instance_id;
       network_interfaces := parsed_interfaces; state := state;
       launch_time := launch_time; tags := tags;
       cpu_details := cpu_details; instance_type := instance_type;
       security_groups := security_groups; client_token := client_token;
       state_transition_reason := state_transition_reason;
       root_device_name := root_device_name;
       ram_disk_id := VStr ""; platform := VStr ""; kernel_id := VStr "";
       Host_id := VStr "" |} in
  parsed_instance ← assign_if_present "RamdiskId" set_ram_disk_id raw_data parsed_instance;
  parsed_instance ← assign_if_present "PlatformDetails" set_platform raw_data parsed_instance;
  parsed_instance ← assign_if_present "KernelId" set_kernel_id raw_data parsed_instance;
  parsed_instance ← assign_if_present "HostId" set_Host_id raw_data parsed_instance;
  mret parsed_instance.

(** ** main.py: the region collector *)

(** A regional EC2 client is modelled by the outcomes of its successive
    [describe_instances] calls, each a response or an exception: every run
    that ends consumes a finite number of them.  A call after the last
    scripted outcome raises [StopIteration]. *)
Definition client : Type := list (result value).

(** [client.describe_instances(NextToken=...)]: the call is observable, the
    next outcome is consumed. *)
Definition describe_instances (c : client) (NextToken : option value)
  : M (value * client) :=
  emit (DescribeInstances NextToken);;
  match c with
  | [] => raise StopIteration
  | Ok response :: c' => mret (response, c')
  | Raise e :: _ => raise e
  end.

(** [for reservation in response["Reservations"]:
        instances.extend(reservation['Instances'])]:
    the records one response adds to [instances]. *)
Definition extend_from_response (response : value) : M (list value) :=
  reservations ← getitem response "Reservations";
  reservations ← py_iter reservations;
  extensions ← mapM (λ reservation,
                       Instances ← getitem reservation "Instances";
                       py_iter Instances) reservations;
  mret (concat extensions).

(** The [while "NextToken" in response] loop. *)
Fixpoint paginate (c : client) (response : value) (instances : list value)
  : M (list value) :=
  has_next ← contains "NextToken" response;
  if has_next : bool then
    NextToken ← getitem response "NextToken";
    emit (DescribeInstances (Some NextToken));;
    match c with
    | [] => raise StopIteration
    | Raise e :: _ => raise e
    | Ok response' :: c' =>
        more ← extend_from_response response';
        paginate c' response' (instances ++ more)%list
    end
  else mret instances.

Definition describe_instances_paginated (c : client) : M (list value) :=
  '(response, c) ← describe_instances c None;
  instances ← extend_from_response response;
  paginate c response instances.

Definition all_aws_regions : list string :=
  ["us-east-2"; "us-east-1"; "us-west-1"; "us-west-2"; "af-south-1";
   "ap-east-1"; "ap-south-1"; "ap-northeast-3"; "ap-northeast-2";
   "ap-southeast-1"; "ap-southeast-2"; "ap-northeast-1"; "ca-central-1";
   "eu-central-1"; "eu-west-1"; "eu-west-2"; "eu-south-1"; "eu-west-3";
   "eu-north-1"; "me-south-1"; "sa-east-1"].

(** Lines 42-45: [specific_regions] is [None] or a list of region names,
    and is used when it is truthy. *)
Definition select_regions (specific_regions : option (list string))
  : list string :=
  match specific_regions with
  | Some (region :: regions) => region :: regions
  | Some [] | None => all_aws_regions
  end.

Definition pulled : string := "pulled instances from region ".
Definition could_not_pull : string := "Could not pull instances from region ".

(** The environment: [boto3.client('ec2', region_name=region)] returns a
    client or raises. *)
Definition boto3 : Type := string → result client.

Definition boto3_client (boto3 : boto3) (region_name : string) : M client :=
  emit (Client region_name);;
  match boto3 region_name with
  | Ok c => mret c
  | Raise e => raise e
  end.

(** The [for region in regions] loop; the client is created before the
    [try], the listing runs inside it. *)
Fixpoint pull_regions (boto3 : boto3) (regions : list string)
    (all_aws_instances : list value) : M (list value) :=
  match regions with
  | [] => mret all_aws_instances
  | region :: regions' =>
      ec2 ← boto3_client boto3 region;
      all_aws_instances ←
        try_except
          (regions_instances ← describe_instances_paginated ec2;
           logging DEBUG pulled (Some (VStr region));;
           mret (all_aws_instances ++ regions_instances)%list)
          (λ _, logging ERROR could_not_pull (Some (VStr region));;
                mret all_aws_instances);
      pull_regions boto3 regions' all_aws_instances
  end.

Definition get_all_aws_instances (boto3 : boto3)
    (specific_regions : option (list string)) : M (list Instance) :=
  let regions := select_regions specific_regions in
  logging INFO "started pulling instances" None;;
  all_aws_instances ← pull_regions boto3 regions [];
  logging INFO "finished successfully pulling instances" None;;
  logging INFO "processing raw data into objects" None;;
  parsed_instances ← mapM from_raw_data_to_instance all_aws_instances;
  logging INFO "finished processing the raw data" None;;
  mret parsed_instances.

(** ** Sample records

    The end-to-end example of the specification, with the address fields
    of its interface record and the unspecified [State], [LaunchTime] and
    [CpuOptions] values left as parameters. *)

Definition example_association (PublicIp : value) : value :=
  VDict [("IpOwnerId", VStr "o"); ("PublicDnsName", VStr "");
         ("PublicIp", PublicIp)].

Definition example_interface (PublicIp Ipv6Addresses PrivateIpAddress : value)
  : value :=
  VDict [("Association", example_association PublicIp);
         ("MacAddress", VStr "00:00"); ("NetworkInterfaceId", VStr "eni-1");
         ("OwnerId", VStr "o"); ("PrivateDnsName", VStr "");
         ("SubnetId", VStr "s-1"); ("Status", VStr "in-use");
         ("Ipv6Addresses", Ipv6Addresses);
         ("PrivateIpAddress", PrivateIpAddress)].

(** The bindings of the example record after [ImageId]. *)
Definition example_fields (interfaces : list value)
    (State LaunchTime CpuOptions : value) : list (string * value) :=
  [("InstanceId", VStr "i-1"); ("NetworkInterfaces", VList interfaces);
   ("State", State); ("LaunchTime", LaunchTime); ("Tags", VList []);
   ("CpuOptions", CpuOptions); ("InstanceType", VStr "t2.micro");
   ("SecurityGroups", VList []); ("ClientToken", VStr "");
   ("StateTransitionReason", VStr ""); ("RootDeviceName", VStr "/dev/sda1")].

Definition example_record (interfaces : list value)
    (State LaunchTime CpuOptions : value) : value :=
  VDict (("ImageId", VStr "ami-1")
         :: example_fields interfaces State LaunchTime CpuOptions).

(** One page of a listing: reservation groupings of records and, when
    more pages follow, the continuation token. *)
Definition example_page (reservations : list (list value))
    (NextToken : option value) : value :=
  VDict (("Reservations",
          VList (map (λ records, VDict [("Instances", VList records)])
                   reservations))
         :: match NextToken with
            | Some token => [("NextToken", token)]
            | None => []
            end).

(** A record that normalizes, and the record without its [ImageId]. *)
Definition good_record : value :=
  example_record
    [example_interface (VStr "198.51.100.5") (VStr "") (VStr "10.0.0.5")]
    (VDict []) (VDatetime 1609459200) (VDict []).

Definition record_without_ImageId : value :=
  VDict (example_fields [] (VDict []) (VDatetime 1609459200) (VDict [])).

(** Region [A] lists one page holding [records]; the listing of every
    other region is refused. *)
Definition listing_refused_outside_A (records : list value) : boto3 :=
  λ region,
    if String.eqb region "A"
    then Ok [Ok (example_page [records] None)]
    else Ok [Raise (OtherException "UnauthorizedOperation")].

(** Region [A] lists one page holding [good_record]; no client can be
    created for another region. *)
Definition no_client_outside_A : boto3 :=
  λ region,
    if String.eqb region "A"
    then Ok [Ok (example_page [[good_record]] None)]
    else Raise (OtherException "InvalidRegionError").

(** ** The normalizer over a store of mutable objects

    Whether the normalizer mutates its input cannot be read off functions
    on [value]s.  In this second embedding of [modules.py] a dict, a list
    and a dataclass instance are objects in a store, reached through
    references, and every statement that reads or writes an object does so
    in the store: [parsed_interfaces.append(...)] and
    [parsed_instance.ram_disk_id = ...] are writes. *)

Module Heap.

Definition loc : Type := positive.

(** Immutable values are held directly, mutable objects by reference. *)
Inductive hval : Type :=
| HNone
| HBool (b : bool)
| HInt (z : Z)
| HStr (s : string)
| HDatetime (timestamp : Z)
| HAddr (a : ipaddress.ip)
| HRef (l : loc).

(** A dict with string keys, a list, or a dataclass instance with its
    attributes. *)
Inductive obj : Type :=
| ODict (d : list (string * hval))
| OList (l : list hval)
| OObject (class : string) (attrs : list (string * hval)).

Abbreviation store := (gmap loc obj).

Inductive event : Type :=
| Log (lv : level) (text : string) (arg : option hval).

(** A computation reads and writes the store, emits events and returns a
    result or raises. *)
Definition H (A : Type) : Type := store → list event * store * result A.

#[global] Instance H_ret : MRet H := λ A a s, ([], s, Ok a).

#[global] Instance H_bind : MBind H := λ A B f m s,
  match m s with
  | (t, s', Ok a) => let '(t', s'', r) := f a s' in ((t ++ t')%list, s'', r)
  | (t, s', Raise e) => (t, s', Raise e)
  end.

Definition raise {A : Type} (e : exn) : H A := λ s, ([], s, Raise e).

Definition logging (lv : level) (text : string) (arg : option hval) : H unit :=
  λ s, ([Log lv text arg], s, Ok tt).

(** Reading the object behind a value. *)
Definition deref (s : store) (v : hval) : option obj :=
  match v with
  | HRef l => s !! l
  | _ => None
  end.

Fixpoint alist_get (d : list (string * hval)) (k : string) : option hval :=
  match d with
  | [] => None
  | (k', v) :: d' => if String.eqb k' k then Some v else alist_get d' k
  end.

Fixpoint alist_set (k : string) (v : hval) (d : list (string * hval))
  : list (string * hval) :=
  match d with
  | [] => [(k, v)]
  | (k', x) :: d' =>
      if String.eqb k' k then (k', v) :: d' else (k', x) :: alist_set k v d'
  end.

(** [v[k]] for a string key. *)
Definition getitem (v : hval) (k : string) : H hval := λ s,
  match deref s v with
  | Some (ODict d) =>
      match alist_get d k with
      | Some x => ([], s, Ok x)
      | None => ([], s, Raise (KeyError k))
      end
  | _ => ([], s, Raise TypeError)
  end.

(** [k in v] for a string [k]. *)
Definition contains (k : string) (v : hval) : H bool := λ s,
  match v, deref s v with
  | _, Some (ODict d) => ([], s, Ok (bool_decide (is_Some (alist_get d k))))
  | _, Some (OList l) =>
      ([], s, Ok (existsb (λ x, match x with
                                | HStr s => String.eqb s k
                                | _ => false
                                end) l))
  | HStr str, _ => ([], s, Ok (substring_of k str))
  | _, _ => ([], s, Raise TypeError)
  end.

Fixpoint chars (s : string) : list hval :=
  match s with
  | EmptyString => []
  | String c s' => HStr (String c EmptyString) :: chars s'
  end.

(** The elements [for x in v] visits.  The loops of the normalizer never
    write to the object they iterate over, so the elements are read once. *)
Definition py_iter (v : hval) : H (list hval) := λ s,
  match v, deref s v with
  | _, Some (OList l) => ([], s, Ok l)
  | _, Some (ODict d) => ([], s, Ok (map (λ kv, HStr (fst kv)) d))
  | HStr str, _ => ([], s, Ok (chars str))
  | _, _ => ([], s, Raise TypeError)
  end.

(** [bool(v)]. *)
Definition truthy (v : hval) : H bool := λ s,
  ([], s,
   Ok match v with
      | HNone => false
      | HBool b => b
      | HInt z => negb (z =? 0)%Z
      | HStr str => negb (ipaddress.is_empty str)
      | HDatetime _ => true
      | HAddr _ => true
      | HRef l =>
          match s !! l with
          | Some (OList l) => negb (bool_decide (l = []))
          | Some (ODict d) => negb (bool_decide (d = []))
          | _ => true
          end
      end).

(** [ip_address(address)]: [str] of a dict, a list or a dataclass instance
    is never an address. *)
Definition ip_address (address : hval) : option ipaddress.ip :=
  match address with
  | HInt z => ipaddress.ip_address_of_int z
  | HBool b => ipaddress.ip_address_of_int (if b then 1 else 0)
  | HStr s => ipaddress.ip_address_of_string s
  | HAddr a => Some a
  | HNone | HDatetime _ | HRef _ => None
  end.

(** A new object, at a location the store does not use. *)
Definition alloc (o : obj) : H loc := λ s,
  let l := fresh (dom s) in ([], <[l := o]> s, Ok l).

(** [obj.name = v] on the dataclass instance at [l]. *)
Definition setattr (l : loc) (name : string) (v : hval) : H unit := λ s,
  match s !! l with
  | Some (OObject class attrs) =>
      ([], <[l := OObject class (alist_set name v attrs)]> s, Ok tt)
  | _ => ([], s, Raise TypeError)
  end.

(** [obj.name] on the dataclass instance at [l]. *)
Definition getattr (l : loc) (name : string) : H hval := λ s,
  match s !! l with
  | Some (OObject _ attrs) =>
      match alist_get attrs name with
      | Some v => ([], s, Ok v)
      | None => ([], s, Raise TypeError)
      end
  | _ => ([], s, Raise TypeError)
  end.

(** [lst.append(v)] on the list at [l]. *)
Definition append (l : loc) (v : hval) : H unit := λ s,
  match s !! l with
  | Some (OList xs) => ([], <[l := OList (xs ++ [v])%list]> s, Ok tt)
  | _ => ([], s, Raise TypeError)
  end.

(** [for x in xs: body x]. *)
Fixpoint for_each (xs : list hval) (body : hval → H unit) : H unit :=
  match xs with
  | [] => mret tt
  | x :: xs' => body x;; for_each xs' body
  end.

(** [try: parsed_interface.<field> = ip_address(v)
     except ValueError: logging.<lv>(f"{text}{network_interface_id}")]. *)
Definition assign_address (field : string) (v : hval) (lv : level)
    (text : string) (parsed_interface : loc) : H unit :=
  match ip_address v with
  | Some a => setattr parsed_interface field (HAddr a)
  | None =>
      nid ← getattr parsed_interface "network_interface_id";
      logging lv text (Some nid)
  end.

Definition from_raw_data_to_network_interface (raw_data : hval) : H hval :=
  association ← getitem raw_data "Association";
  ip_owner_id ← getitem association "IpOwnerId";
  public_dns_name ← getitem association "PublicDnsName";
  mac_address ← getitem raw_data "MacAddress";
  network_interface_id ← getitem raw_data "NetworkInterfaceId";
  owner_id ← getitem raw_data "OwnerId";
  private_dns_name ← getitem raw_data "PrivateDnsName";
  subnet_id ← getitem raw_data "SubnetId";
  status ← getitem raw_data "Status";
  parsed_interface ←
    alloc (OObject "NetworkInterface"
             [("ip_owner_id", ip_owner_id);
              ("public_dns_name", public_dns_name);
              ("mac_address", mac_address);
              ("network_interface_id", network_interface_id);
              ("owner_id", owner_id);
              ("private_dns_name", private_dns_name);
              ("subnet_id", subnet_id); ("status", status);
              ("public_ip_address", HNone); ("ipv6_address", HNone);
              ("private_ip_address", HNone)]);
  ipv6_address ← getitem raw_data "Ipv6Addresses";
  PublicIp ← getitem association "PublicIp";
  public_ip ← match ip_address PublicIp with
              | Some a => mret (HAddr a)
              | None => raise ValueError
              end;
  private_ip_address ← getitem raw_data "PrivateIpAddress";
  b ← truthy ipv6_address;
  (if b : bool
   then assign_address "ipv6_address" ipv6_address ERROR ipv6_invalid
          parsed_interface
   else mret tt);;
  b ← truthy public_ip;
  (if b : bool
   then assign_address "public_ip_address" public_ip DEBUG public_ip_invalid
          parsed_interface
   else mret tt);;
  b ← truthy private_ip_address;
  (if b : bool
   then assign_address "private_ip_address" private_ip_address ERROR
          private_ip_invalid parsed_interface
   else mret tt);;
  mret (HRef parsed_interface).

(** [if key in raw_data: parsed_instance.<field> = raw_data[key]]. *)
Definition assign_if_present (key field : string) (raw_data : hval)
    (parsed_instance : loc) : H unit :=
  present ← contains key raw_data;
  if present : bool
  then v ← getitem raw_data key; setattr parsed_instance field v
  else mret tt.

Definition from_raw_data_to_instance (raw_data : hval) : H hval :=
  parsed_interfaces ← alloc (OList []);
  interfaces ← getitem raw_data "NetworkInterfaces";
  interfaces ← py_iter interfaces;
  for_each interfaces (λ interface,
    parsed_interface ← from_raw_data_to_network_interface interface;
    append parsed_interfaces parsed_interface);;
  image_id ← getitem raw_data "ImageId";
  instance_id ← getitem raw_data "InstanceId";
  state ← getitem raw_data "State";
  launch_time ← getitem raw_data "LaunchTime";
  tags ← getitem raw_data "Tags";
  cpu_details ← getitem raw_data "CpuOptions";
  instance_type ← getitem raw_data "InstanceType";
  security_groups ← getitem raw_data "SecurityGroups";
  client_token ← getitem raw_data "ClientToken";
  state_transition_reason ← getitem raw_data "StateTransitionReason";
  root_device_name ← getitem raw_data "RootDeviceName";
  parsed_instance ←
    alloc (OObject "Instance"
             [("image_id", image_id); ("instance_id", instance_id);
              ("network_interfaces", HRef parsed_interfaces);
              ("state", state); ("launch_time", launch_time);
              ("tags", tags); ("cpu_details", cpu_details);
              ("instance_type", instance_type);
              ("security_groups", security_groups);
              ("client_token", client_token);
              ("state_transition_reason", state_transition_reason);
              ("root_device_name", root_device_name);
              ("ram_disk_id", HStr ""); ("platform", HStr "");
              ("kernel_id", HStr ""); ("Host_id", HStr "")]);
  assign_if_present "RamdiskId" "ram_disk_id" raw_data parsed_instance;;
  assign_if_present "PlatformDetails" "platform" raw_data parsed_instance;;
  assign_if_present "KernelId" "kernel_id" raw_data parsed_instance;;
  assign_if_present "HostId" "Host_id" raw_data parsed_instance;;
  mret (HRef parsed_instance).

(** [m], run from any store that extends [s0], leaves every object of
    [s0] as it is, and its result satisfies [Q]. *)
Definition frames {A : Type} (s0 : store) (m : H A) (Q : A → Prop) : Prop :=
  ∀ s, s0 ⊆ s →
    s0 ⊆ (m s).1.2 ∧ ∀ a, (m s).2 = Ok a → Q a.

(** The example record in a store: the association block at 1, the
    interface record at 2, the list of interface records at 3, the record
    itself at 4, its empty [Tags] and [SecurityGroups] lists at 5 and 6. *)
Definition example_store (PublicIp : hval) : store :=
  <[1%positive :=
      ODict [("IpOwnerId", HStr "o"); ("PublicDnsName", HStr "");
             ("PublicIp", PublicIp)]]>
  (<[2%positive :=
       ODict [("Association", HRef 1%positive); ("MacAddress", HStr "00:00");
              ("NetworkInterfaceId", HStr "eni-1"); ("OwnerId", HStr "o");
              ("PrivateDnsName", HStr ""); ("SubnetId", HStr "s-1");
              ("Status", HStr "in-use"); ("Ipv6Addresses", HStr "");
              ("PrivateIpAddress", HStr "10.0.0.5")]]>
   (<[3%positive := OList [HRef 2%positive]]>
    (<[4%positive :=
         ODict [("ImageId", HStr "ami-1"); ("InstanceId", HStr "i-1");
                ("NetworkInterfaces", HRef 3%positive); ("State", HNone);
                ("LaunchTime", HDatetime 1609459200);
                ("Tags", HRef 5%positive); ("CpuOptions", HNone);
                ("InstanceType", HStr "t2.micro");
                ("SecurityGroups", HRef 6%positive);
                ("ClientToken", HStr "");
                ("StateTransitionReason", HStr "");
                ("RootDeviceName", HStr "/dev/sda1")]]>
     (<[5%positive := OList []]> (<[6%positive := OList []]> ∅))))).

End Heap.

(** ** Vocabulary of the statements *)

(** The diagnostic an address field [v] leaves behind: one record when the
    value is truthy and does not parse. *)
Definition diagnostic (lv : level) (text : string) (v nid : value)
  : list event :=
  if truthy v
  then match ip_address v with
       | Some _ => []
       | None => [Log lv text (Some nid)]
       end
  else [].

(** What [parsed_interface.<field>] holds for the address value [v] of a
    field parsed inside a [try]. *)
Definition parsed_address (v : value) : option ipaddress.ip :=
  if truthy v then ip_address v else None.

(** The keys [from_raw_data_to_network_interface] reads, with the values
    found under them. *)
Record interface_keys (d da : list (string * value))
    (owner dns mac nid own pdns subnet st v6 pub priv : value) : Prop := {
  key_Association : dict_get d "Association" = Some (VDict da);
  key_IpOwnerId : dict_get da "IpOwnerId" = Some owner;
  key_PublicDnsName : dict_get da "PublicDnsName" = Some dns;
  key_MacAddress : dict_get d "MacAddress" = Some mac;
  key_NetworkInterfaceId : dict_get d "NetworkInterfaceId" = Some nid;
  key_OwnerId : dict_get d "OwnerId" = Some own;
  key_PrivateDnsName : dict_get d "PrivateDnsName" = Some pdns;
  key_SubnetId : dict_get d "SubnetId" = Some subnet;
  key_Status : dict_get d "Status" = Some st;
  key_Ipv6Addresses : dict_get d "Ipv6Addresses" = Some v6;
  key_PublicIp : dict_get da "PublicIp" = Some pub;
  key_PrivateIpAddress : dict_get d "PrivateIpAddress" = Some priv
}.

(** The required keys [from_raw_data_to_instance] reads, with the values
    found under them. *)
Record instance_keys (d : list (string * value))
    (interfaces image inst st lt tg cpu ty sg ct str rdn : value) : Prop := {
  key_NetworkInterfaces : dict_get d "NetworkInterfaces" = Some interfaces;
  key_ImageId : dict_get d "ImageId" = Some image;
  key_InstanceId : dict_get d "InstanceId" = Some inst;
  key_State : dict_get d "State" = Some st;
  key_LaunchTime : dict_get d "LaunchTime" = Some lt;
  key_Tags : dict_get d "Tags" = Some tg;
  key_CpuOptions : dict_get d "CpuOptions" = Some cpu;
  key_InstanceType : dict_get d "InstanceType" = Some ty;
  key_SecurityGroups : dict_get d "SecurityGroups" = Some sg;
  key_ClientToken : dict_get d "ClientToken" = Some ct;
  key_StateTransitionReason : dict_get d "StateTransitionReason" = Some str;
  key_RootDeviceName : dict_get d "RootDeviceName" = Some rdn
}.

(** The value of an optional field: the raw value under [key] when the
    key is present, the empty string otherwise. *)
Definition optional_field (d : list (string * value)) (key : string) : value :=
  default (VStr "") (dict_get d key).

(** [response] is a well-formed page: a mapping whose [Reservations] is a
    list of mappings, each with a list of records under [Instances];
    [records] are those records in order, [NextToken] the continuation
    token when the page carries one. *)
Definition is_page (response : value) (records : list value)
    (NextToken : option value) : Prop :=
  ∃ d reservations groups,
    response = VDict d ∧
    dict_get d "Reservations" = Some (VList reservations) ∧
    Forall2 (λ reservation group,
               ∃ rd, reservation = VDict rd ∧
                     dict_get rd "Instances" = Some (VList group))
      reservations groups ∧
    records = concat groups ∧
    dict_get d "NextToken" = NextToken.

(** A sequence of pages of which all but the last carry a token:
    [page_sequence responses tokens records] lists the responses, the
    tokens of all but the last, and the records of each. *)
Inductive page_sequence
  : list value → list value → list (list value) → Prop :=
| last_page response records :
    is_page response records None →
    page_sequence [response] [] [records]
| next_page response token records responses tokens recordss :
    is_page response records (Some token) →
    page_sequence responses tokens recordss →
    page_sequence (response :: responses) (token :: tokens)
      (records :: recordss).

(** The outcome of listing [region] with the client [boto3] hands out. *)
Definition listing (boto3 : boto3) (region : string) : result (list value) :=
  match boto3 region with
  | Ok c => (describe_instances_paginated c).2
  | Raise e => Raise e
  end.

(** The records a region contributes: those of its listing when it
    succeeds, none when it fails. *)
Definition listed (boto3 : boto3) (region : string) : list value :=
  match listing boto3 region with
  | Ok records => records
  | Raise _ => []
  end.

Definition listing_failed (boto3 : boto3) (region : string) : bool :=
  match listing boto3 region with
  | Ok _ => false
  | Raise _ => true
  end.

(** Every region of the list gets its client. *)
Definition clients_acquired (boto3 : boto3) (regions : list string) : Prop :=
  ∀ region, region ∈ regions → ∃ c, boto3 region = Ok c.

(** The region named by an event, when the event is the error diagnostic
    of the region loop. *)
Definition region_error (ev : event) : option string :=
  match ev with
  | Log ERROR text (Some (VStr region)) =>
      if String.eqb text could_not_pull then Some region else None
  | _ => None
  end.

(** The region of an event that is the creation of a client. *)
Definition client_created (ev : event) : option string :=
  match ev with
  | Client region => Some region
  | _ => None
  end.

(** The events of one turn of the region loop when the client is
    acquired. *)
Definition region_events (boto3 : boto3) (region : string) : list event :=
  Client region ::
  match boto3 region with
  | Ok c =>
      match describe_instances_paginated c with
      | (t, Ok _) => t ++ [Log DEBUG pulled (Some (VStr region))]
      | (t, Raise _) => t ++ [Log ERROR could_not_pull (Some (VStr region))]
      end
  | Raise _ => []
  end%list.

(** A computation all of whose events satisfy [P]. *)
Definition emits {A : Type} (P : event → Prop) (m : M A) : Prop :=
  Forall P m.1.

(** The mapping without the key [k]. *)
Definition dict_delete (k : string) (d : list (string * value))
  : list (string * value) :=
  List.filter (λ kv, negb (String.eqb kv.1 k)) d.

(** ** Relating the two embeddings *)

(** [repr s h v]: in the store [s] the store-level value [h] stands for
    the value [v]; a reference stands for the list or the dict found
    behind it. *)
Inductive repr (s : gmap Heap.loc Heap.obj) : Heap.hval → value → Prop :=
| repr_None : repr s Heap.HNone VNone
| repr_Bool b : repr s (Heap.HBool b) (VBool b)
| repr_Int z : repr s (Heap.HInt z) (VInt z)
| repr_Str x : repr s (Heap.HStr x) (VStr x)
| repr_Datetime t : repr s (Heap.HDatetime t) (VDatetime t)
| repr_Addr a : repr s (Heap.HAddr a) (VAddr a)
| repr_List l hs vs :
    s !! l = Some (Heap.OList hs) →
    Forall2 (repr s) hs vs →
    repr s (Heap.HRef l) (VList vs)
| repr_Dict l hd d :
    s !! l = Some (Heap.ODict hd) →
    Forall2 (λ hkv kv, hkv.1 = kv.1 ∧ repr s hkv.2 kv.2) hd d →
    repr s (Heap.HRef l) (VDict d).

(** Bindings with the same keys and values that stand for each other. *)
Definition repr_fields (s : gmap Heap.loc Heap.obj)
    (hd : list (string * Heap.hval)) (d : list (string * value)) : Prop :=
  Forall2 (λ hkv kv, hkv.1 = kv.1 ∧ repr s hkv.2 kv.2) hd d.

(** An address field as a value: the address or [None]. *)
Definition address_value (a : option ipaddress.ip) : value :=
  match a with
  | Some a => VAddr a
  | None => VNone
  end.

(** The attributes of a [NetworkInterface], in declaration order. *)
Definition interface_fields (n : NetworkInterface) : list (string * value) :=
  [("ip_owner_id", ip_owner_id n); ("public_dns_name", public_dns_name n);
   ("mac_address", mac_address n);
   ("network_interface_id", network_interface_id n);
   ("owner_id", owner_id n); ("private_dns_name", private_dns_name n);
   ("subnet_id", subnet_id n); ("status", status n);
   ("public_ip_address", address_value (public_ip_address n));
   ("ipv6_address", address_value (ipv6_address n));
   ("private_ip_address", address_value (private_ip_address n))].

(** The attributes of an [Instance] before and after
    [network_interfaces], in the order the object is built with. *)
Definition instance_fields_before (i : Instance) : list (string * value) :=
  [("image_id", image_id i); ("instance_id", instance_id i)].

Definition instance_fields_after (i : Instance) : list (string * value) :=
  [("state", state i); ("launch_time", launch_time i); ("tags", tags i);
   ("cpu_details", cpu_details i); ("instance_type", instance_type i);
   ("security_groups", security_groups i);
   ("client_token", client_token i);
   ("state_transition_reason", state_transition_reason i);
   ("root_device_name", root_device_name i);
   ("ram_disk_id", ram_disk_id i); ("platform", platform i);
   ("kernel_id", kernel_id i); ("Host_id", Host_id i)].

(** In the store [s] the value [h] is a [NetworkInterface] object whose
    attributes stand, in the input store [s0], for the fields of [n]. *)
Definition repr_interface (s0 s : gmap Heap.loc Heap.obj)
    (h : Heap.hval) (n : NetworkInterface) : Prop :=
  ∃ l attrs,
    h = Heap.HRef l ∧
    s !! l = Some (Heap.OObject "NetworkInterface" attrs) ∧
    repr_fields s0 attrs (interface_fields n).

(** In the store [s] the value [h] is an [Instance] object that stands
    for [i]: its attributes stand for the fields of [i], and its
    [network_interfaces] is a reference to a list of objects that stand
    for the interfaces of [i]. *)
Definition repr_instance (s0 s : gmap Heap.loc Heap.obj)
    (h : Heap.hval) (i : Instance) : Prop :=
  ∃ l before after lp hs,
    h = Heap.HRef l ∧
    s !! l = Some (Heap.OObject "Instance"
                     (before ++ ("network_interfaces", Heap.HRef lp) :: after)) ∧
    repr_fields s0 before (instance_fields_before i) ∧
    repr_fields s0 after (instance_fields_after i) ∧
    s !! lp = Some (Heap.OList hs) ∧
    Forall2 (repr_interface s0 s) hs (network_interfaces i).

(** A store-level diagnostic and the diagnostic it stands for. *)
Definition repr_event (s0 : gmap Heap.loc Heap.obj)
    (hev : Heap.event) (ev : event) : Prop :=
  match hev, ev with
  | Heap.Log hlv htext harg, Log lv text arg =>
      hlv = lv ∧ htext = text ∧ option_Forall2 (repr s0) harg arg
  | _, _ => False
  end.

(** From the store [sc] the store-level computation [hm] and the
    computation [m] emit diagnostics that stand for each other, and
    either raise the same exception or return results related by [R] in
    the store [hm] ends with. *)
Definition sim {A B : Type} (s0 sc : gmap Heap.loc Heap.obj)
    (hm : Heap.H A) (m : M B)
    (R : A → B → gmap Heap.loc Heap.obj → Prop) : Prop :=
  Forall2 (repr_event s0) (hm sc).1.1 m.1 ∧
  match (hm sc).2, m.2 with
  | Ok a, Ok b => R a b (hm sc).1.2
  | Raise e, Raise e' => e = e'
  | _, _ => False
  end.

(** [d[k] = v] on an association list: the binding of [k] is replaced
    where it stands, or added at the end. *)
Fixpoint dict_set (k : string) (v : value) (d : list (string * value))
  : list (string * value) :=
  match d with
  | [] => [(k, v)]
  | (k', x) :: d' =>
      if String.eqb k' k then (k', v) :: d' else (k', x) :: dict_set k v d'
  end.

(** The state of the run while it fills the new [NetworkInterface]
    object at [l]: the store is the store [sc] of the call with that one
    object added, and the object stands for [n]. *)
Definition filling (s0 sc : gmap Heap.loc Heap.obj) (l : Heap.loc)
    (n : NetworkInterface) (sc' : gmap Heap.loc Heap.obj) : Prop :=
  ∃ attrs,
    sc' = <[l := Heap.OObject "NetworkInterface" attrs]> sc ∧
    repr_fields s0 attrs (interface_fields n).

(** The state of the interface loop: the list at [lp] holds objects that
    stand for the interfaces parsed so far, and no object of the input
    store [s0] has changed. *)
Definition interfaces_at (s0 : gmap Heap.loc Heap.obj) (lp : Heap.loc)
    (parsed : list NetworkInterface) (sc : gmap Heap.loc Heap.obj) : Prop :=
  s0 ⊆ sc ∧
  ∃ hs, sc !! lp = Some (Heap.OList hs) ∧
        Forall2 (repr_interface s0 sc) hs parsed.

(** The state of the run while it fills the new [Instance] object at
    [l]: the store is the store [sc] at its creation with that one object
    added, and the object stands for [i]. *)
Definition filling_instance (s0 sc : gmap Heap.loc Heap.obj) (l lp : Heap.loc)
    (parsed : list NetworkInterface) (i : Instance)
    (sc' : gmap Heap.loc Heap.obj) : Prop :=
  ∃ before after,
    sc' = <[l := Heap.OObject "Instance"
                   (before ++ ("network_interfaces", Heap.HRef lp) :: after)]> sc ∧
    repr_fields s0 before (instance_fields_before i) ∧
    repr_fields s0 after (instance_fields_after i) ∧
    network_interfaces i = parsed.

(** ** The keys the normalizer reads *)

(** The keys [from_raw_data_to_network_interface] reads in its argument
    (lines 91-104), and those it reads in the [Association] block. *)
Definition interface_record_keys : list string :=
  ["Association"; "MacAddress"; "NetworkInterfaceId"; "OwnerId";
   "PrivateDnsName"; "SubnetId"; "Status"; "Ipv6Addresses";
   "PrivateIpAddress"].

Definition association_block_keys : list string :=
  ["IpOwnerId"; "PublicDnsName"; "PublicIp"].

(** The keys [from_raw_data_to_instance] reads unconditionally (lines
    40-53), and those it reads when they are present (lines 56-63). *)
Definition required_keys : list string :=
  ["NetworkInterfaces"; "ImageId"; "InstanceId"; "State"; "LaunchTime";
   "Tags"; "CpuOptions"; "InstanceType"; "SecurityGroups"; "ClientToken";
   "StateTransitionReason"; "RootDeviceName"].

Definition optional_keys : list string :=
  ["RamdiskId"; "PlatformDetails"; "KernelId"; "HostId"].

(** ** The script entry point of main.py *)

(** Lines 79-80: [active_regions] and the call of [get_all_aws_instances]
    on it.  The two statements before them configure how the root logger
    prints records (every level from [DEBUG] up); they change neither the
    records the run emits nor its result. *)
Definition active_regions : list string := ["us-east-2"; "us-west-2"].

Definition main (boto3 : boto3) : M (list Instance) :=
  get_all_aws_instances boto3 (Some active_regions).

(** ** Vocabulary of the collector's trace *)

(** The outcome that ends a listing: a call of [describe_instances] that
    raises [e], or a response out of which the records cannot be
    extracted, the extraction raising [e]. *)
Definition page_fails (outcome : result value) (e : exn) : Prop :=
  match outcome with
  | Raise e' => e' = e
  | Ok response => (extend_from_response response).2 = Raise e
  end.

(** The outcome record of a turn of the region loop: the region, and
    whether its listing succeeded. *)
Definition region_outcome (ev : event) : option (string * bool) :=
  match ev with
  | Log DEBUG text (Some (VStr region)) =>
      if String.eqb text pulled then Some (region, true) else None
  | Log ERROR text (Some (VStr region)) =>
      if String.eqb text could_not_pull then Some (region, false) else None
  | _ => None
  end.

(** The text of a phase record, [logging.info(text)]. *)
Definition info_record (ev : event) : option string :=
  match ev with
  | Log INFO text None => Some text
  | _ => None
  end.

(** An event of the remote API: the creation of a client or a call of
    [describe_instances]. *)
Definition api_event (ev : event) : bool :=
  match ev with
  | Client _ | DescribeInstances _ => true
  | Log _ _ _ => false
  end.

(** ** Vocabulary of the store-level statements *)

(** In the store [s'] the value [h] is a new object of class [class] with
    the attributes [attrs]: a reference to an object that the store [s]
    of the call does not hold. *)
Definition new_object (s s' : gmap Heap.loc Heap.obj) (class : string)
    (h : Heap.hval) (attrs : list (string * Heap.hval)) : Prop :=
  ∃ l, h = Heap.HRef l ∧ s !! l = None ∧
       s' !! l = Some (Heap.OObject class attrs).

(** The keys of an interface record and of a raw record whose value
    becomes an attribute as it is, with the attribute. *)
Definition interface_attributes : list (string * string) :=
  [("MacAddress", "mac_address");
   ("NetworkInterfaceId", "network_interface_id");
   ("OwnerId", "owner_id"); ("PrivateDnsName", "private_dns_name");
   ("SubnetId", "subnet_id"); ("Status", "status")].

Definition association_attributes : list (string * string) :=
  [("IpOwnerId", "ip_owner_id"); ("PublicDnsName", "public_dns_name")].

Definition required_attributes : list (string * string) :=
  [("ImageId", "image_id"); ("InstanceId", "instance_id");
   ("State", "state"); ("LaunchTime", "launch_time"); ("Tags", "tags");
   ("CpuOptions", "cpu_details"); ("InstanceType", "instance_type");
   ("SecurityGroups", "security_groups"); ("ClientToken", "client_token");
   ("StateTransitionReason", "state_transition_reason");
   ("RootDeviceName", "root_device_name")].

Definition optional_attributes : list (string * string) :=
  [("RamdiskId", "ram_disk_id"); ("PlatformDetails", "platform");
   ("KernelId", "kernel_id"); ("HostId", "Host_id")].

(** The state of the interface loop of [from_raw_data_to_instance], run
    from the store [s], in the store [sk]: no object of [s] has changed,
    and the list at [lp], which [s] does not hold, lists new
    [NetworkInterface] objects. *)
Definition collecting (s : gmap Heap.loc Heap.obj) (lp : Heap.loc)
    (sk : gmap Heap.loc Heap.obj) : Prop :=
  s ⊆ sk ∧ s !! lp = None ∧
  ∃ hs, sk !! lp = Some (Heap.OList hs) ∧
        Forall (λ h, ∃ attrs, new_object s sk "NetworkInterface" h attrs) hs.

(** ** Python's [str] of an address

    [ip_address(address)] converts an address object with [str] and parses
    the text; the conversion is modelled after CPython 3.11's
    [ipaddress.py], as the parser is. *)

Module ipaddress_str.
Import ipaddress.

Definition digit (d : Z) : ascii := ascii_of_nat (Z.to_nat (d + 48)).

(** [str(n)] for the integers a byte can hold. *)
Definition str_of_byte (n : Z) : string :=
  if (n <? 10)%Z then String (digit n) ""
  else if (n <? 100)%Z
  then String (digit (n / 10)) (String (digit (n mod 10)) "")
  else String (digit (n / 100))
         (String (digit (n / 10 mod 10)) (String (digit (n mod 10)) "")).

(** [ip_int.to_bytes(4, 'big')]. *)
Definition to_bytes_big (ip_int : Z) : list Z :=
  [Z.land (Z.shiftr ip_int 24) 255; Z.land (Z.shiftr ip_int 16) 255;
   Z.land (Z.shiftr ip_int 8) 255; Z.land ip_int 255].

(** [_BaseV4._string_from_ip_int]:
    ['.'.join(map(str, ip_int.to_bytes(4, 'big')))]. *)
Definition v4_string_from_ip_int (ip_int : Z) : string :=
  String.concat "." (str_of_byte <$> to_bytes_big ip_int).

(** The eight hextets of a 128-bit integer, most significant first:
    [int(hex_str[x:x+4], 16) for x in range(0, 32, 4)] on
    ['%032x' % ip_int]. *)
Definition hextets_of_int (ip_int : Z) : list Z :=
  (λ i, Z.land (Z.shiftr ip_int (16 * i)) 65535) <$> [7; 6; 5; 4; 3; 2; 1; 0].

(** The loop of [_BaseV6._compress_hextets]: the start and the length of
    the first longest run of ['0'] hextets; [None] stands for [-1]. *)
Fixpoint best_doublecolon (hextets : list string) (index : nat)
    (doublecolon_start : option nat) (doublecolon_len : nat)
    (best_doublecolon_start : option nat) (best_doublecolon_len : nat)
  : option nat * nat :=
  match hextets with
  | [] => (best_doublecolon_start, best_doublecolon_len)
  | hextet :: hextets' =>
      if String.eqb hextet "0" then
        let doublecolon_len := S doublecolon_len in
        let doublecolon_start :=
          match doublecolon_start with
          | None => Some index
          | Some start => Some start
          end in
        if (best_doublecolon_len <? doublecolon_len)%nat
        then best_doublecolon hextets' (S index) doublecolon_start
               doublecolon_len doublecolon_start doublecolon_len
        else best_doublecolon hextets' (S index) doublecolon_start
               doublecolon_len best_doublecolon_start best_doublecolon_len
      else best_doublecolon hextets' (S index) None 0
             best_doublecolon_start best_doublecolon_len
  end.

(** [_BaseV6._compress_hextets]. *)
Definition compress_hextets (hextets : list string) : list string :=
  match best_doublecolon hextets 0 None 0 None 0 with
  | (Some best_doublecolon_start, best_doublecolon_len) =>
      if (1 <? best_doublecolon_len)%nat then
        let best_doublecolon_end :=
          (best_doublecolon_start + best_doublecolon_len)%nat in
        (* zeros at the end of the address *)
        let hextets :=
          if (best_doublecolon_end =? length hextets)%nat
          then (hextets ++ [""])%list else hextets in
        let hextets :=
          (take best_doublecolon_start hextets
           ++ "" :: drop best_doublecolon_end hextets)%list in
        (* zeros at the beginning of the address *)
        if (best_doublecolon_start =? 0)%nat then "" :: hextets else hextets
      else hextets
  | (None, _) => hextets
  end.

(** [_BaseV6._string_from_ip_int]. *)
Definition v6_string_from_ip_int (ip_int : Z) : string :=
  String.concat ":" (compress_hextets (hex_string <$> hextets_of_int ip_int)).

(** [str(address)]: [IPv6Address.__str__] appends the scope id when there
    is one, and it is not empty. *)
Definition str (address : ip) : string :=
  match address with
  | IPv4Address n => v4_string_from_ip_int n
  | IPv6Address n scope_id =>
      let ip_str := v6_string_from_ip_int n in
      match scope_id with
      | Some id => if is_empty id then ip_str else ip_str ++ "%" ++ id
      | None => ip_str
      end
  end.

(** What an address object holds: an integer of 32 or 128 bits, and for a
    scoped address a scope id that is not empty and holds neither ['%']
    nor ['/']. *)
Definition well_formed (address : ip) : Prop :=
  match address with
  | IPv4Address n => (0 ≤ n ≤ IPV4_ALL_ONES)%Z
  | IPv6Address n scope_id =>
      (0 ≤ n ≤ IPV6_ALL_ONES)%Z ∧
      match scope_id with
      | Some id =>
          is_empty id = false ∧ contains_char "%" id = false ∧
          contains_char "/" id = false
      | None => True
      end
  end.

(** The integer of a list of hextets, most significant first. *)
Definition int_of_hextets (hextets : list Z) : Z :=
  fold_left (λ ip_int hextet, Z.lor (Z.shiftl ip_int 16) hextet) hextets 0%Z.

(** What the parser needs of the text [x] of the hextet [h]. *)
Definition hextet_text (x : string) (h : Z) : Prop :=
  parse_hextet x = Some h ∧ contains_char ":" x = false ∧
  contains_char "." x = false ∧ String.eqb x "" = false ∧
  String.eqb x "0" = (h =? 0)%Z.

(** A hextet text that is ['0'] exactly when [b] holds. *)
Definition canon (b : bool) : string := if b then "0" else "1".

(** What the parser needs of the text of a hexadecimal digit. *)
Definition digit_checked (d : Z) : bool :=
  bool_decide (hex_value (hex_digit d) = Some d)
  && negb (Ascii.eqb (hex_digit d) ":") && negb (Ascii.eqb (hex_digit d) ".")
  && negb (Ascii.eqb (hex_digit d) "%") && negb (Ascii.eqb (hex_digit d) "/")
  && Bool.eqb (Ascii.eqb (hex_digit d) "0") (d =? 0)%Z.

(** What the parser needs of the text of a byte, checked on the 256
    bytes. *)
Definition byte_checked (b : Z) : bool :=
  bool_decide (parse_octet (str_of_byte b) = Some b)
  && negb (contains_char "." (str_of_byte b))
  && negb (contains_char "/" (str_of_byte b))
  && negb (is_empty (str_of_byte b)).

End ipaddress_str.

(** An address object among the values is one Python can hold. *)
Definition well_formed_value (v : value) : Prop :=
  match v with
  | VAddr a => ipaddress_str.well_formed a
  | _ => True
  end.

(** The values [from_raw_data_to_network_interface] hands to [ip_address]:
    those under [Ipv6Addresses], under [PublicIp] in the [Association]
    block and under [PrivateIpAddress] (lines 102-104). *)
Definition address_values (raw_data : value) : list value :=
  match raw_data with
  | VDict d =>
      (option_list (dict_get d "Ipv6Addresses")
       ++ option_list
            match dict_get d "Association" with
            | Some (VDict association) => dict_get association "PublicIp"
            | _ => None
            end
       ++ option_list (dict_get d "PrivateIpAddress"))%list
  | _ => []
  end.

(** * Properties *)

(** ** Computations *)

Lemma bind_ret {A B : Type} (a : A) (f : A → M B) : mret a ≫= f = f a.
Proof. unfold mbind, M_bind, mret, M_ret. by destruct (f a). Qed.

Lemma bind_raise {A B : Type} (e : exn) (f : A → M B) :
  raise e ≫= f = raise e.
Proof. reflexivity. Qed.

Lemma bind_emit {B : Type} (ev : event) (f : unit → M B) :
  emit ev ≫= f = (ev :: (f tt).1, (f tt).2).
Proof. unfold mbind, M_bind, emit. by destruct (f tt). Qed.

Lemma bind_Ok_l {A B : Type} (t : list event) (a : A) (f : A → M B) :
  (t, Ok a) ≫= f = ((t ++ (f a).1)%list, (f a).2).
Proof. unfold mbind, M_bind. by destruct (f a). Qed.

Lemma bind_Raise_l {A B : Type} (t : list event) (e : exn) (f : A → M B) :
  (t, Raise e) ≫= f = (t, Raise e).
Proof. reflexivity. Qed.

Lemma bind_Ok {A B : Type} (m : M A) (f : A → M B) t b :
  m ≫= f = (t, Ok b) →
  ∃ t1 a t2, m = (t1, Ok a) ∧ f a = (t2, Ok b) ∧ t = (t1 ++ t2)%list.
Proof.
  destruct m as [t1 [a|e]]; [|discriminate].
  rewrite bind_Ok_l. destruct (f a) as [t2 r] eqn:Hf. simpl.
  intros [= <- ->]. by exists t1, a, t2.
Qed.

Lemma getitem_Some d k x :
  dict_get d k = Some x → getitem (VDict d) k = mret x.
Proof. intros E. simpl. by rewrite E. Qed.

Lemma getitem_None d k :
  dict_get d k = None → getitem (VDict d) k = raise (KeyError k).
Proof. intros E. simpl. by rewrite E. Qed.

(** One step through a chain of [raw_data[key]] lookups in [H], keeping
    the case where the lookup succeeds. *)
Ltac getitem_step H :=
  match type of H with
  | context [getitem (VDict ?d) ?k] =>
      let E := fresh "E" in
      destruct (dict_get d k) eqn:E;
      [ rewrite (getitem_Some _ _ _ E), bind_ret in H
      | rewrite (getitem_None _ _ E), bind_raise in H; discriminate H ]
  | context [getitem ?v ?k] =>
      is_var v; destruct v;
      try (cbn [getitem] in H; rewrite bind_raise in H; discriminate H)
  end.

(** Rewriting with the lookups known to succeed. *)
Ltac getitem_rewrite :=
  repeat (match goal with
          | H : dict_get ?d ?k = Some ?x |- context [getitem (VDict ?d) ?k] =>
              rewrite (getitem_Some d k x H)
          end;
          rewrite ?bind_ret).

Lemma mapM_Ok_length {A B : Type} (f : A → M B) (l : list A) t l' :
  mapM f l = (t, Ok l') → length l' = length l.
Proof.
  revert t l'. induction l as [|x l IH]; intros t l'; simpl.
  - by intros [= _ <-].
  - intros (t1 & y & t2 & _ & H & _)%bind_Ok.
    apply bind_Ok in H as (t3 & k & t4 & Hk & [= _ <-] & _).
    simpl. f_equal. eauto.
Qed.

(** ** The record normalizer *)

(** With every key present, the outcome is decided by the [PublicIp]
    value alone: the interface is built when it parses, and the
    [ValueError] of line 103 ends the normalization when it does not.  The
    two other address fields never end it. *)
Lemma from_raw_data_to_network_interface_eq
    d da owner dns mac nid own pdns subnet st v6 pub priv :
  interface_keys d da owner dns mac nid own pdns subnet st v6 pub priv →
  from_raw_data_to_network_interface (VDict d) =
  match ip_address pub with
  | None => ([], Raise ValueError)
  | Some a =>
      ((diagnostic ERROR ipv6_invalid v6 nid
        ++ diagnostic ERROR private_ip_invalid priv nid)%list,
       Ok {| ip_owner_id := owner; public_dns_name := dns;
             mac_address := mac; network_interface_id := nid;
             owner_id := own; private_dns_name := pdns;
             subnet_id := subnet; status := st;
             public_ip_address := Some a;
             ipv6_address := parsed_address v6;
             private_ip_address := parsed_address priv |})
  end.
Proof.
  intros [].
  unfold from_raw_data_to_network_interface.
  getitem_rewrite.
  destruct (ip_address pub) as [a|] eqn:Ea; [|reflexivity].
  rewrite !bind_ret.
  unfold diagnostic, parsed_address, assign_address.
  destruct (truthy v6), (ip_address v6), (truthy priv), (ip_address priv);
    reflexivity.
Qed.

(** Conversely an interface is built only from a mapping with every key
    present and a [PublicIp] value that parses. *)
Lemma from_raw_data_to_network_interface_Ok raw t n :
  from_raw_data_to_network_interface raw = (t, Ok n) →
  ∃ d da v6 pub priv,
    raw = VDict d ∧
    interface_keys d da (ip_owner_id n) (public_dns_name n) (mac_address n)
      (network_interface_id n) (owner_id n) (private_dns_name n)
      (subnet_id n) (status n) v6 pub priv ∧
    public_ip_address n = ip_address pub ∧
    is_Some (ip_address pub) ∧
    ipv6_address n = parsed_address v6 ∧
    private_ip_address n = parsed_address priv ∧
    t = (diagnostic ERROR ipv6_invalid v6 (network_interface_id n)
         ++ diagnostic ERROR private_ip_invalid priv
              (network_interface_id n))%list.
Proof.
  intros H. pose proof H as H0.
  unfold from_raw_data_to_network_interface in H.
  repeat getitem_step H.
  destruct (ip_address v8) as [a|] eqn:Ea;
    [rewrite bind_ret in H|rewrite bind_raise in H; discriminate H].
  getitem_step H. clear H.
  assert (K : interface_keys d d0 v v0 v1 v2 v3 v4 v5 v6 v7 v8 v9)
    by (by constructor).
  rewrite (from_raw_data_to_network_interface_eq _ _ _ _ _ _ _ _ _ _ _ _ _ K),
    Ea in H0.
  injection H0 as <- <-. simpl.
  exists d, d0, v7, v8, v9. rewrite Ea. eauto 10.
Qed.

Lemma assign_if_present_dict key set d i :
  assign_if_present key set (VDict d) i =
  mret (match dict_get d key with Some v => set v i | None => i end).
Proof.
  unfold assign_if_present. cbn [contains getitem]. rewrite bind_ret.
  destruct (dict_get d key); [|reflexivity].
  rewrite bool_decide_true by eauto. by rewrite bind_ret.
Qed.

Lemma py_iter_cases v :
  (∃ l, py_iter v = mret l) ∨ py_iter v = raise TypeError.
Proof. destruct v; simpl; eauto. Qed.

(** With every required key present, the outcome of
    [from_raw_data_to_instance] is the outcome of normalizing the interface
    records one after the other. *)
Lemma from_raw_data_to_instance_eq
    d interfaces l image inst st lt tg cpu ty sg ct str rdn :
  instance_keys d interfaces image inst st lt tg cpu ty sg ct str rdn →
  py_iter interfaces = mret l →
  from_raw_data_to_instance (VDict d) =
  match mapM from_raw_data_to_network_interface l with
  | (t, Raise e) => (t, Raise e)
  | (t, Ok parsed_interfaces) =>
      (t, Ok {| image_id := image; instance_id := inst;
                network_interfaces := parsed_interfaces; state := st;
                launch_time := lt; tags := tg; cpu_details := cpu;
                instance_type := ty; security_groups := sg;
                client_token := ct; state_transition_reason := str;
                root_device_name := rdn;
                ram_disk_id := optional_field d "RamdiskId";
                platform := optional_field d "PlatformDetails";
                kernel_id := optional_field d "KernelId";
                Host_id := optional_field d "HostId" |})
  end.
Proof.
  intros [] Hl. unfold from_raw_data_to_instance.
  getitem_rewrite. rewrite Hl, bind_ret.
  destruct (mapM _ l) as [t [nis|e]]; [|reflexivity].
  rewrite bind_Ok_l, !bind_ret.
  repeat rewrite assign_if_present_dict, bind_ret. unfold optional_field.
  destruct (dict_get d "RamdiskId"), (dict_get d "PlatformDetails"),
    (dict_get d "KernelId"), (dict_get d "HostId");
    simpl; by rewrite ?app_nil_r.
Qed.

(** Conversely an [Instance] is built only from a mapping with every
    required key present whose interface records all normalize. *)
Lemma from_raw_data_to_instance_Ok raw t i :
  from_raw_data_to_instance raw = (t, Ok i) →
  ∃ d interfaces l,
    raw = VDict d ∧
    instance_keys d interfaces (image_id i) (instance_id i) (state i)
      (launch_time i) (tags i) (cpu_details i) (instance_type i)
      (security_groups i) (client_token i) (state_transition_reason i)
      (root_device_name i) ∧
    py_iter interfaces = mret l ∧
    mapM from_raw_data_to_network_interface l = (t, Ok (network_interfaces i)) ∧
    ram_disk_id i = optional_field d "RamdiskId" ∧
    platform i = optional_field d "PlatformDetails" ∧
    kernel_id i = optional_field d "KernelId" ∧
    Host_id i = optional_field d "HostId".
Proof.
  intros H. pose proof H as H0.
  unfold from_raw_data_to_instance in H.
  repeat getitem_step H.
  destruct (py_iter_cases v) as [[l Hl]|Hl]; rewrite Hl in H;
    [rewrite bind_ret in H|rewrite bind_raise in H; discriminate H].
  destruct (mapM _ l) as [t1 [nis|e]] eqn:Hnis; [|discriminate H].
  rewrite bind_Ok_l in H.
  repeat getitem_step H. clear H.
  assert (K : instance_keys d v v0 v1 v2 v3 v4 v5 v6 v7 v8 v9 v10)
    by (by constructor).
  rewrite (from_raw_data_to_instance_eq _ _ _ _ _ _ _ _ _ _ _ _ _ _ K Hl),
    Hnis in H0.
  injection H0 as <- <-. simpl. exists d, v, l. eauto 10.
Qed.

(** X1.  The address fields parsed inside a [try] ([ipv6_address] and
    [private_ip_address]) behave as follows on every interface that is
    built: the field is absent for a falsy value, holds the parsed address
    for a value that parses, and is absent with exactly one diagnostic,
    completed by the interface id, for a truthy value that does not. *)
Lemma guarded_address_fields raw t n :
  from_raw_data_to_network_interface raw = (t, Ok n) →
  ∃ d v6 priv,
    raw = VDict d ∧
    dict_get d "Ipv6Addresses" = Some v6 ∧
    dict_get d "PrivateIpAddress" = Some priv ∧
    (truthy v6 = false → ipv6_address n = None) ∧
    (∀ a, truthy v6 = true → ip_address v6 = Some a → ipv6_address n = Some a) ∧
    (truthy v6 = true → ip_address v6 = None → ipv6_address n = None) ∧
    (truthy priv = false → private_ip_address n = None) ∧
    (∀ a, truthy priv = true → ip_address priv = Some a →
          private_ip_address n = Some a) ∧
    (truthy priv = true → ip_address priv = None →
     private_ip_address n = None) ∧
    t = (diagnostic ERROR ipv6_invalid v6 (network_interface_id n)
         ++ diagnostic ERROR private_ip_invalid priv
              (network_interface_id n))%list.
Proof.
  intros (d & da & v6 & pub & priv & -> & [] & _ & _ & H6 & Hp & ->)
    %from_raw_data_to_network_interface_Ok.
  exists d, v6, priv. rewrite H6, Hp. unfold parsed_address.
  repeat split; try done; intros; by repeat match goal with
    | H : _ = _ |- _ => rewrite H end.
Qed.

(** A [PublicIp] value that does not parse ends the normalization of an
    interface record that has every key. *)
Lemma public_ip_ValueError
    d da owner dns mac nid own pdns subnet st v6 pub priv :
  interface_keys d da owner dns mac nid own pdns subnet st v6 pub priv →
  ip_address pub = None →
  from_raw_data_to_network_interface (VDict d) = ([], Raise ValueError).
Proof.
  intros K E.
  by rewrite (from_raw_data_to_network_interface_eq _ _ _ _ _ _ _ _ _ _ _ _ _ K), E.
Qed.

(** When an [Instance] is built, its required fields are the raw values
    and it has one interface per interface record. *)
Lemma required_fields_verbatim raw t i :
  from_raw_data_to_instance raw = (t, Ok i) →
  ∃ d interfaces l,
    raw = VDict d ∧
    instance_keys d interfaces (image_id i) (instance_id i) (state i)
      (launch_time i) (tags i) (cpu_details i) (instance_type i)
      (security_groups i) (client_token i) (state_transition_reason i)
      (root_device_name i) ∧
    py_iter interfaces = mret l ∧
    length (network_interfaces i) = length l.
Proof.
  intros (d & v & l & -> & K & Hl & Hm & _)%from_raw_data_to_instance_Ok.
  exists d, v, l. eauto using mapM_Ok_length.
Qed.

(** C1, at the failing input.  An interface record with every key present
    whose [PublicIp] is the empty string, or a string that is not an
    address, is not normalized: the [ValueError] of the [ip_address] call
    at line 103, outside every [try], ends
    [from_raw_data_to_network_interface], and with it
    [from_raw_data_to_instance] on a record holding that interface, and no
    diagnostic is emitted.  The same two values under [Ipv6Addresses] and
    [PrivateIpAddress] leave the field absent, with one diagnostic for the
    value that is not empty, and the interface is built. *)
Theorem public_ip_parsed_outside_try :
  from_raw_data_to_network_interface
    (example_interface (VStr "") (VStr "") (VStr "10.0.0.5"))
  = ([], Raise ValueError) ∧
  from_raw_data_to_network_interface
    (example_interface (VStr "not-an-ip") (VStr "") (VStr "10.0.0.5"))
  = ([], Raise ValueError) ∧
  from_raw_data_to_instance
    (example_record
       [example_interface (VStr "") (VStr "") (VStr "10.0.0.5")]
       (VDict []) (VDatetime 1609459200) (VDict []))
  = ([], Raise ValueError) ∧
  from_raw_data_to_network_interface
    (example_interface (VStr "198.51.100.5") (VStr "not-an-ip") (VStr ""))
  = ([Log ERROR ipv6_invalid (Some (VStr "eni-1"))],
     Ok {| ip_owner_id := VStr "o"; public_dns_name := VStr "";
           mac_address := VStr "00:00";
           network_interface_id := VStr "eni-1"; owner_id := VStr "o";
           private_dns_name := VStr ""; subnet_id := VStr "s-1";
           status := VStr "in-use";
           public_ip_address :=
             Some (ipaddress.IPv4Address
                     (ipaddress.from_bytes_big [198; 51; 100; 5]));
           ipv6_address := None; private_ip_address := None |}).
Proof. repeat split; vm_compute; reflexivity. Qed.

(** C3, at the failing input.  A raw record with every required key
    present, and every key of its one interface record present, whose
    [PublicIp] is the empty string: [from_raw_data_to_instance] raises
    [ValueError] and builds no [Instance]. *)
Theorem complete_record_not_normalized :
  let interface := example_interface (VStr "") (VStr "") (VStr "10.0.0.5") in
  let raw := example_record [interface] (VDict []) (VDatetime 1609459200)
               (VDict []) in
  Forall (λ key, contains key raw = mret true)
    ["ImageId"; "InstanceId"; "NetworkInterfaces"; "State"; "LaunchTime";
     "Tags"; "CpuOptions"; "InstanceType"; "SecurityGroups"; "ClientToken";
     "StateTransitionReason"; "RootDeviceName"] ∧
  Forall (λ key, contains key interface = mret true)
    ["Association"; "MacAddress"; "NetworkInterfaceId"; "OwnerId";
     "PrivateDnsName"; "SubnetId"; "Status"; "Ipv6Addresses";
     "PrivateIpAddress"] ∧
  Forall (λ key, contains key (example_association (VStr "")) = mret true)
    ["IpOwnerId"; "PublicDnsName"; "PublicIp"] ∧
  from_raw_data_to_instance raw = ([], Raise ValueError).
Proof. repeat split; repeat constructor. Qed.

(** C4, at the failing input.  The example record without its [ImageId]
    key, holding an interface record whose [PublicIp] is the empty string:
    [from_raw_data_to_instance] raises [ValueError], not the [KeyError]
    naming [ImageId]; likewise the interface record without its
    [PrivateIpAddress] key.  With a [PublicIp] that parses, both raise the
    [KeyError] naming the missing key. *)
Theorem missing_key_masked_by_ValueError :
  let fields PublicIp :=
    example_fields [example_interface PublicIp (VStr "") (VStr "10.0.0.5")]
      (VDict []) (VDatetime 1609459200) (VDict []) in
  let interface PublicIp :=
    VDict [("Association", example_association PublicIp);
           ("MacAddress", VStr "00:00"); ("NetworkInterfaceId", VStr "eni-1");
           ("OwnerId", VStr "o"); ("PrivateDnsName", VStr "");
           ("SubnetId", VStr "s-1"); ("Status", VStr "in-use");
           ("Ipv6Addresses", VStr "")] in
  from_raw_data_to_instance (VDict (fields (VStr "")))
  = ([], Raise ValueError) ∧
  from_raw_data_to_instance (VDict (fields (VStr "198.51.100.5")))
  = ([], Raise (KeyError "ImageId")) ∧
  from_raw_data_to_network_interface (interface (VStr ""))
  = ([], Raise ValueError) ∧
  from_raw_data_to_network_interface (interface (VStr "198.51.100.5"))
  = ([], Raise (KeyError "PrivateIpAddress")).
Proof. repeat split; vm_compute; reflexivity. Qed.

(** C6.  On every raw record from which an [Instance] is built, each of
    the four optional keys [RamdiskId], [PlatformDetails], [KernelId] and
    [HostId] fills its field ([ram_disk_id], [platform], [kernel_id],
    [Host_id]) with exactly the raw value when the key is present, and
    leaves the empty string when it is absent.  No other field follows
    this rule: each of them holds the value of a key that is present. *)
Theorem optional_fields_by_presence raw t i :
  from_raw_data_to_instance raw = (t, Ok i) →
  ∃ d interfaces,
    raw = VDict d ∧
    (∀ key field,
       (key, field) ∈ [("RamdiskId", ram_disk_id); ("PlatformDetails", platform);
                       ("KernelId", kernel_id); ("HostId", Host_id)] →
       (∀ v, dict_get d key = Some v → field i = v) ∧
       (dict_get d key = None → field i = VStr "")) ∧
    instance_keys d interfaces (image_id i) (instance_id i) (state i)
      (launch_time i) (tags i) (cpu_details i) (instance_type i)
      (security_groups i) (client_token i) (state_transition_reason i)
      (root_device_name i).
Proof.
  intros (d & v & l & -> & K & _ & _ & H1 & H2 & H3 & H4)
    %from_raw_data_to_instance_Ok.
  exists d, v. split; [done|]. split; [|done].
  intros key field Hin. unfold optional_field in *.
  repeat (apply elem_of_cons in Hin as [[= -> ->]|Hin]);
    try (by apply elem_of_nil in Hin);
    (split; [intros x Hx|intros Hx]);
    rewrite Hx in *; assumption.
Qed.

(** The example record with a [KernelId]: the key present fills
    [kernel_id], the three absent keys leave the empty string. *)
Lemma optional_fields_by_presence_witness :
  let raw :=
    VDict (("KernelId", VStr "aki-1")
           :: ("ImageId", VStr "ami-1")
           :: example_fields [] (VDict []) (VDatetime 1609459200) (VDict [])) in
  let i :=
    {| image_id := VStr "ami-1"; instance_id := VStr "i-1";
       network_interfaces := []; state := VDict [];
       launch_time := VDatetime 1609459200; tags := VList [];
       cpu_details := VDict []; instance_type := VStr "t2.micro";
       security_groups := VList []; client_token := VStr "";
       state_transition_reason := VStr "";
       root_device_name := VStr "/dev/sda1";
       ram_disk_id := VStr ""; platform := VStr "";
       kernel_id := VStr "aki-1"; Host_id := VStr "" |} in
  from_raw_data_to_instance raw = ([], Ok i) ∧
  ∃ d interfaces,
    raw = VDict d ∧
    (∀ key field,
       (key, field) ∈ [("RamdiskId", ram_disk_id); ("PlatformDetails", platform);
                       ("KernelId", kernel_id); ("HostId", Host_id)] →
       (∀ v, dict_get d key = Some v → field i = v) ∧
       (dict_get d key = None → field i = VStr "")) ∧
    instance_keys d interfaces (image_id i) (instance_id i) (state i)
      (launch_time i) (tags i) (cpu_details i) (instance_type i)
      (security_groups i) (client_token i) (state_transition_reason i)
      (root_device_name i).
Proof.
  intros raw i.
  assert (E : from_raw_data_to_instance raw = ([], Ok i))
    by (vm_compute; reflexivity).
  split; [exact E|].
  exact (optional_fields_by_presence raw [] i E).
Defined.

(** C8.  On the end-to-end example record, whatever its [State],
    [LaunchTime] and [CpuOptions] values, [from_raw_data_to_instance]
    succeeds without a diagnostic.  The one interface has
    [public_ip_address] 198.51.100.5, the IPv4 address of the integer
    3325256709: the text parses to it, the address object prints as
    ["198.51.100.5"] again, and parsing that text, which is what
    [ip_address] does with an address object, returns the same address.
    [private_ip_address] is 10.0.0.5, the address of the integer
    167772165, there is no [ipv6_address], and [ram_disk_id] is the empty
    string. *)
Theorem end_to_end_example State LaunchTime CpuOptions :
  let raw :=
    example_record
      [example_interface (VStr "198.51.100.5") (VStr "") (VStr "10.0.0.5")]
      State LaunchTime CpuOptions in
  let public := ipaddress.IPv4Address 3325256709 in
  let private := ipaddress.IPv4Address 167772165 in
  ∃ i n,
    from_raw_data_to_instance raw = ([], Ok i) ∧
    network_interfaces i = [n] ∧
    ip_address (VStr "198.51.100.5") = Some public ∧
    ipaddress_str.str public = "198.51.100.5" ∧
    ip_address (VStr (ipaddress_str.str public)) = Some public ∧
    public_ip_address n = Some public ∧
    ip_address (VStr "10.0.0.5") = Some private ∧
    private_ip_address n = Some private ∧
    ipv6_address n = None ∧
    ram_disk_id i = VStr "".
Proof.
  intros raw public private. subst raw.
  eexists _, _. split; [vm_compute; reflexivity|].
  repeat split; vm_compute; reflexivity.
Qed.

(** ** Missing keys *)

Lemma dict_get_delete_eq k d : dict_get (dict_delete k d) k = None.
Proof.
  unfold dict_delete.
  induction d as [|[k' v] d IH]; [done|]. cbn [List.filter fst].
  destruct (String.eqb k' k) eqn:E; [exact IH|].
  cbn [negb dict_get]. by rewrite E.
Qed.

Lemma dict_get_delete_ne k k' d :
  k ≠ k' → dict_get (dict_delete k d) k' = dict_get d k'.
Proof.
  intros Hne. unfold dict_delete.
  induction d as [|[k0 v] d IH]; [done|].
  cbn [List.filter fst dict_get].
  destruct (String.eqb k0 k) eqn:E; cbn [negb dict_get].
  - apply String.eqb_eq in E as ->.
    by rewrite (proj2 (String.eqb_neq k k') Hne).
  - by rewrite IH.
Qed.

(** Moves each known lookup in [d] to the mapping without [key], for the
    keys other than [key]. *)
Ltac lookups_after_delete key d :=
  repeat match goal with
  | H : dict_get d ?k = Some ?x |- _ =>
      first [ assert (dict_get (dict_delete key d) k = Some x)
                by (rewrite dict_get_delete_ne by discriminate; exact H)
            | idtac ];
      clear H
  end.

(** X2.  An interface record that normalizes, without one of its own keys:
    the [KeyError] names the key. *)
Lemma missing_interface_key d t n key :
  from_raw_data_to_network_interface (VDict d) = (t, Ok n) →
  key ∈ ["Association"; "MacAddress"; "NetworkInterfaceId"; "OwnerId";
         "PrivateDnsName"; "SubnetId"; "Status"; "Ipv6Addresses";
         "PrivateIpAddress"] →
  from_raw_data_to_network_interface (VDict (dict_delete key d))
  = ([], Raise (KeyError key)).
Proof.
  intros (d' & da & v6 & pub & priv & [= <-] & [] & _ & [a Ea] & _)
    %from_raw_data_to_network_interface_Ok Hkey.
  pose proof (dict_get_delete_eq key d) as Hnone.
  unfold from_raw_data_to_network_interface.
  repeat (apply elem_of_cons in Hkey as [->|Hkey]);
    try (by apply elem_of_nil in Hkey);
    lookups_after_delete ltac:(lazymatch type of Hnone with
                               | dict_get (dict_delete ?k _) _ = _ => k
                               end) d;
    getitem_rewrite; rewrite ?Ea, ?bind_ret;
    by rewrite (getitem_None _ _ Hnone).
Qed.

(** X3.  An interface record that normalizes, whose association block
    has lost one of its three keys: the [KeyError] names the key. *)
Lemma missing_association_key d da t n key :
  from_raw_data_to_network_interface (VDict d) = (t, Ok n) →
  dict_get d "Association" = Some (VDict da) →
  key ∈ ["IpOwnerId"; "PublicDnsName"; "PublicIp"] →
  from_raw_data_to_network_interface
    (VDict (("Association", VDict (dict_delete key da)) :: d))
  = ([], Raise (KeyError key)).
Proof.
  intros (d' & da' & v6 & pub & priv & [= <-] & [] & _ & [a Ea] & _)
    %from_raw_data_to_network_interface_Ok Hda Hkey.
  assert (da' = da) as -> by congruence. clear Hda.
  pose proof (dict_get_delete_eq key da) as Hnone.
  set (d' := ("Association", VDict (dict_delete key da)) :: d).
  assert (Ha : dict_get d' "Association" = Some (VDict (dict_delete key da)))
    by done.
  assert (Hd : ∀ k, k ≠ "Association" → dict_get d' k = dict_get d k).
  { intros k Hk. subst d'. cbn [dict_get].
    by rewrite (proj2 (String.eqb_neq "Association" k)). }
  unfold from_raw_data_to_network_interface.
  repeat match goal with
  | H : dict_get d ?k = Some ?x |- _ =>
      first [ assert (dict_get d' k = Some x)
                by (rewrite Hd by discriminate; exact H)
            | idtac ];
      clear H
  end.
  clearbody d'. clear Hd.
  repeat (apply elem_of_cons in Hkey as [->|Hkey]);
    try (by apply elem_of_nil in Hkey);
    lookups_after_delete ltac:(lazymatch type of Hnone with
                               | dict_get (dict_delete ?k _) _ = _ => k
                               end) da;
    getitem_rewrite; by rewrite (getitem_None _ _ Hnone).
Qed.

(** X4.  A raw record that normalizes, without one of its required keys: the
    [KeyError] names the key. *)
Lemma missing_instance_key d t i key :
  from_raw_data_to_instance (VDict d) = (t, Ok i) →
  key ∈ ["NetworkInterfaces"; "ImageId"; "InstanceId"; "State"; "LaunchTime";
         "Tags"; "CpuOptions"; "InstanceType"; "SecurityGroups";
         "ClientToken"; "StateTransitionReason"; "RootDeviceName"] →
  (from_raw_data_to_instance (VDict (dict_delete key d))).2
  = Raise (KeyError key).
Proof.
  intros (d' & v & l & [= <-] & [] & Hl & Hm & _)
    %from_raw_data_to_instance_Ok Hkey.
  pose proof (dict_get_delete_eq key d) as Hnone.
  unfold from_raw_data_to_instance.
  repeat (apply elem_of_cons in Hkey as [->|Hkey]);
    try (by apply elem_of_nil in Hkey);
    lookups_after_delete ltac:(lazymatch type of Hnone with
                               | dict_get (dict_delete ?k _) _ = _ => k
                               end) d;
    getitem_rewrite; rewrite ?Hl, ?bind_ret, ?Hm, ?bind_Ok_l, ?bind_ret;
    by rewrite (getitem_None _ _ Hnone).
Qed.

(** ** Events of a computation *)

Section emits.
Context (P : event → Prop).

Lemma emits_ret {A : Type} (a : A) : emits P (mret a).
Proof. constructor. Qed.

Lemma emits_raise {A : Type} (e : exn) : emits P (raise e : M A).
Proof. constructor. Qed.

Lemma emits_bind {A B : Type} (m : M A) (f : A → M B) :
  emits P m → (∀ a, emits P (f a)) → emits P (m ≫= f).
Proof.
  unfold emits. destruct m as [t [a|e]]; [|done].
  rewrite bind_Ok_l. simpl. intros Ht Hf. apply Forall_app. eauto.
Qed.

Lemma emits_emit (ev : event) : P ev → emits P (emit ev).
Proof. by repeat constructor. Qed.

Lemma emits_getitem v k : emits P (getitem v k).
Proof.
  destruct v; try apply emits_raise. simpl.
  destruct (dict_get d k); [apply emits_ret|apply emits_raise].
Qed.

Lemma emits_contains k v : emits P (contains k v).
Proof. destruct v; constructor. Qed.

Lemma emits_py_iter v : emits P (py_iter v).
Proof. destruct v; constructor. Qed.

Lemma emits_mapM {A B : Type} (f : A → M B) (l : list A) :
  (∀ a, emits P (f a)) → emits P (mapM f l).
Proof.
  intros Hf. induction l as [|x l IH]; simpl; [apply emits_ret|].
  apply emits_bind; [done|]. intros y.
  apply emits_bind; [done|]. intros k. apply emits_ret.
Qed.

End emits.

Create HintDb emits.
#[local] Hint Resolve emits_ret emits_raise emits_getitem emits_contains
  emits_py_iter emits_emit : emits.

(** Breaks a goal [emits P m] along the binds of [m]. *)
Ltac emits_steps :=
  repeat first
    [ solve [eauto with emits]
    | apply emits_bind; [|intros ?]
    | apply emits_mapM; intros ?
    | match goal with
      | |- emits _ (if ?b then _ else _) => destruct b
      | |- emits _ (match ?x with _ => _ end) => destruct x
      | |- emits _ (let '(_, _) := ?x in _) => destruct x
      end ].

(** The normalizer emits nothing but its two [ERROR] diagnostics on
    address fields. *)
Lemma from_raw_data_to_network_interface_emits (P : event → Prop) raw :
  (∀ nid, P (Log ERROR ipv6_invalid nid)) →
  (∀ nid, P (Log DEBUG public_ip_invalid nid)) →
  (∀ nid, P (Log ERROR private_ip_invalid nid)) →
  emits P (from_raw_data_to_network_interface raw).
Proof.
  intros H1 H2 H3.
  unfold from_raw_data_to_network_interface, assign_address, logging.
  emits_steps.
Qed.

Lemma from_raw_data_to_instance_emits (P : event → Prop) raw :
  (∀ nid, P (Log ERROR ipv6_invalid nid)) →
  (∀ nid, P (Log DEBUG public_ip_invalid nid)) →
  (∀ nid, P (Log ERROR private_ip_invalid nid)) →
  emits P (from_raw_data_to_instance raw).
Proof.
  intros H1 H2 H3.
  pose proof (λ raw, from_raw_data_to_network_interface_emits P raw H1 H2 H3).
  unfold from_raw_data_to_instance, assign_if_present.
  emits_steps.
Qed.

(** A listing emits nothing but its [describe_instances] calls. *)
Lemma extend_from_response_emits (P : event → Prop) response :
  emits P (extend_from_response response).
Proof. unfold extend_from_response. emits_steps. Qed.

Lemma paginate_emits (P : event → Prop) c response instances :
  (∀ token, P (DescribeInstances token)) →
  emits P (paginate c response instances).
Proof.
  intros HP. pose proof (extend_from_response_emits P).
  revert response instances.
  induction c as [|[r|e] c IH]; intros response instances;
    cbn [paginate]; emits_steps.
Qed.

Lemma describe_instances_paginated_emits (P : event → Prop) c :
  (∀ token, P (DescribeInstances token)) →
  emits P (describe_instances_paginated c).
Proof.
  intros HP. pose proof (extend_from_response_emits P).
  pose proof (λ c r i, paginate_emits P c r i HP).
  unfold describe_instances_paginated, describe_instances.
  emits_steps.
Qed.

(** ** Pagination *)

Lemma is_page_extend response records NextToken :
  is_page response records NextToken →
  extend_from_response response = mret records.
Proof.
  intros (d & reservations & groups & -> & Hr & Hf & -> & _).
  unfold extend_from_response. getitem_rewrite.
  cbn [py_iter]. rewrite bind_ret.
  assert (mapM (λ reservation,
                  Instances ← getitem reservation "Instances";
                  py_iter Instances) reservations = mret groups) as ->.
  { clear Hr.
    induction Hf as [|reservation group reservations groups
                      (rd & -> & Hi) _ IH]; [done|].
    cbn [mapM]. getitem_rewrite. cbn [py_iter].
    by rewrite bind_ret, IH, !bind_ret. }
  by rewrite bind_ret.
Qed.

Lemma is_page_more response records token :
  is_page response records (Some token) →
  contains "NextToken" response = mret true ∧
  getitem response "NextToken" = mret token.
Proof.
  intros (d & _ & _ & -> & _ & _ & _ & Ht). simpl. by rewrite Ht.
Qed.

Lemma is_page_last response records :
  is_page response records None →
  contains "NextToken" response = mret false.
Proof.
  intros (d & _ & _ & -> & _ & _ & _ & Ht). simpl. by rewrite Ht.
Qed.

Lemma example_page_is_page reservations NextToken :
  is_page (example_page reservations NextToken) (concat reservations)
    NextToken.
Proof.
  exists (("Reservations",
           VList (map (λ records, VDict [("Instances", VList records)])
                    reservations))
          :: match NextToken with
             | Some token => [("NextToken", token)]
             | None => []
             end),
    (map (λ records, VDict [("Instances", VList records)]) reservations),
    reservations.
  repeat split.
  - induction reservations; constructor; eauto.
  - by destruct NextToken.
Qed.

Lemma page_sequence_length responses tokens recordss :
  page_sequence responses tokens recordss →
  length responses = S (length tokens).
Proof. induction 1; simpl; congruence. Qed.

(** The loop, entered with the first page already fetched, issues one
    call per token, each supplying the token of the page before, and
    accumulates the records of the pages that follow. *)
Lemma paginate_page_sequence responses tokens recordss :
  page_sequence responses tokens recordss →
  ∀ rest instances,
    paginate ((Ok <$> tail responses) ++ rest)%list
      (List.hd VNone responses) instances
    = ((λ token, DescribeInstances (Some token)) <$> tokens,
       Ok (instances ++ concat (tail recordss))%list).
Proof.
  induction 1 as [response records Hp
                 |response token records responses tokens recordss Hp Hs IH];
    intros rest instances.
  - cbn [tail fmap list_fmap app List.hd concat].
    destruct rest as [|[]]; cbn [paginate];
      by rewrite (is_page_last _ _ Hp), bind_ret, app_nil_r.
  - destruct Hs as [response' records' Hp'
                   |response' token' records' responses' tokens' recordss'
                    Hp' Hs'].
    + specialize (IH rest (instances ++ records')%list).
      cbn [tail fmap list_fmap app List.hd concat paginate] in IH |- *.
      destruct (is_page_more _ _ _ Hp) as [-> ->].
      rewrite !bind_ret, bind_emit, (is_page_extend _ _ _ Hp'), bind_ret, IH.
      simpl. by rewrite !app_nil_r.
    + specialize (IH rest (instances ++ records')%list).
      cbn [tail fmap list_fmap app List.hd concat paginate] in IH |- *.
      destruct (is_page_more _ _ _ Hp) as [-> ->].
      rewrite !bind_ret, bind_emit, (is_page_extend _ _ _ Hp'), bind_ret.
      cbn [paginate]. rewrite IH. simpl. by rewrite <- app_assoc.
Qed.

Lemma describe_instances_paginated_page_sequence responses tokens recordss rest :
  page_sequence responses tokens recordss →
  describe_instances_paginated ((Ok <$> responses) ++ rest)%list
  = (DescribeInstances None
       :: ((λ token, DescribeInstances (Some token)) <$> tokens),
     Ok (concat recordss)).
Proof.
  intros Hs. pose proof (paginate_page_sequence _ _ _ Hs rest) as Hp.
  unfold describe_instances_paginated, describe_instances.
  rewrite bind_emit.
  destruct Hs as [response records H1
                 |response token records responses tokens recordss H1 Hs];
    cbn [tail fmap list_fmap app List.hd concat] in Hp |- *.
  - cbn [mret M_ret fst snd]. rewrite bind_Ok_l.
    rewrite (is_page_extend _ _ _ H1), bind_ret, Hp. reflexivity.
  - cbn [mret M_ret fst snd]. rewrite bind_Ok_l.
    rewrite (is_page_extend _ _ _ H1), bind_ret, Hp. reflexivity.
Qed.

(** C5.  On a sequence of pages of which all but the last carry a
    continuation token, [describe_instances_paginated] first calls
    [describe_instances] with no token, then once per token, supplying
    each token in turn, and stops at the page without one: it issues
    exactly as many calls as there are pages (3 calls for 3 pages), and
    returns every record of every reservation of every page, in order.
    Outcomes scripted after the last page are not consumed. *)
Theorem pagination responses tokens recordss rest :
  page_sequence responses tokens recordss →
  let run := describe_instances_paginated ((Ok <$> responses) ++ rest)%list in
  run.1 = DescribeInstances None
            :: ((λ token, DescribeInstances (Some token)) <$> tokens) ∧
  length run.1 = length responses ∧
  run.2 = Ok (concat recordss).
Proof.
  intros Hs run. subst run.
  rewrite (describe_instances_paginated_page_sequence _ _ _ _ Hs).
  cbn [fst snd length]. rewrite length_fmap.
  by rewrite (page_sequence_length _ _ _ Hs).
Qed.

(** Three pages, the first two with a token: three calls, the records of
    all three pages. *)
Lemma pagination_witness :
  let page1 := example_page [[VStr "r1"]; [VStr "r2"]] (Some (VStr "t1")) in
  let page2 := example_page [[VStr "r3"]] (Some (VStr "t2")) in
  let page3 := example_page [[]; [VStr "r4"; VStr "r5"]] None in
  let run := describe_instances_paginated [Ok page1; Ok page2; Ok page3] in
  run.1 = [DescribeInstances None; DescribeInstances (Some (VStr "t1"));
           DescribeInstances (Some (VStr "t2"))] ∧
  length run.1 = 3%nat ∧
  run.2 = Ok [VStr "r1"; VStr "r2"; VStr "r3"; VStr "r4"; VStr "r5"].
Proof.
  intros page1 page2 page3.
  apply (pagination [page1; page2; page3] [VStr "t1"; VStr "t2"]
           [[VStr "r1"; VStr "r2"]; [VStr "r3"]; [VStr "r4"; VStr "r5"]] []).
  apply next_page; [apply (example_page_is_page [[VStr "r1"]; [VStr "r2"]])|].
  apply next_page; [apply (example_page_is_page [[VStr "r3"]])|].
  apply last_page. apply (example_page_is_page [[]; [VStr "r4"; VStr "r5"]]).
Defined.

(** The three-page case for arbitrary pages. *)
Corollary three_pages page1 page2 page3 token1 token2
    records1 records2 records3 rest :
  is_page page1 records1 (Some token1) →
  is_page page2 records2 (Some token2) →
  is_page page3 records3 None →
  describe_instances_paginated (Ok page1 :: Ok page2 :: Ok page3 :: rest)
  = ([DescribeInstances None; DescribeInstances (Some token1);
      DescribeInstances (Some token2)],
     Ok (records1 ++ records2 ++ records3)%list).
Proof.
  intros H1 H2 H3.
  change (Ok page1 :: Ok page2 :: Ok page3 :: rest)
    with ((Ok <$> [page1; page2; page3]) ++ rest)%list.
  rewrite (describe_instances_paginated_page_sequence
             [page1; page2; page3] [token1; token2]
             [records1; records2; records3] rest).
  - simpl. by rewrite app_nil_r.
  - by repeat constructor.
Qed.

(** ** The region loop *)

Lemma omap_emits_nil {A B : Type} (f : event → option B) (m : M A) :
  emits (λ ev, f ev = None) m → omap f m.1 = [].
Proof.
  unfold emits. induction 1 as [|ev t Hev _ IH]; [done|].
  cbn [omap list_omap]. rewrite Hev. exact IH.
Qed.

Lemma omap_concat_fmap {A B C : Type} (f : B → option C) (g : A → list B)
    (h : A → list C) (l : list A) :
  (∀ a, a ∈ l → omap f (g a) = h a) →
  omap f (concat (g <$> l)) = concat (h <$> l).
Proof.
  induction l as [|a l IH]; intros H; [done|].
  cbn [fmap list_fmap concat]. rewrite omap_app, H by constructor.
  f_equal. apply IH. intros a' Ha'. apply H. by constructor.
Qed.

(** With every client acquired, a turn of the loop adds the region's
    records when its listing succeeds and nothing when it fails, and the
    loop always reaches its end. *)
Lemma pull_regions_eq boto3 regions all_aws_instances :
  clients_acquired boto3 regions →
  pull_regions boto3 regions all_aws_instances
  = (concat (region_events boto3 <$> regions),
     Ok (all_aws_instances ++ concat (listed boto3 <$> regions))%list).
Proof.
  revert all_aws_instances.
  induction regions as [|region regions IH]; intros acc Hc.
  - simpl. by rewrite app_nil_r.
  - destruct (Hc region) as [c Hb]; [by constructor|].
    assert (Hc' : clients_acquired boto3 regions).
    { intros r Hr. apply Hc. by constructor. }
    assert (He : region_events boto3 region
                 = Client region
                   :: (describe_instances_paginated c).1
                   ++ [match (describe_instances_paginated c).2 with
                       | Ok _ => Log DEBUG pulled (Some (VStr region))
                       | Raise _ => Log ERROR could_not_pull (Some (VStr region))
                       end]).
    { unfold region_events. rewrite Hb.
      by destruct (describe_instances_paginated c) as [t [records|e]]. }
    assert (Hl : listed boto3 region
                 = match (describe_instances_paginated c).2 with
                   | Ok records => records
                   | Raise _ => []
                   end).
    { unfold listed, listing. by rewrite Hb. }
    cbn [pull_regions fmap list_fmap concat]. rewrite He, Hl.
    unfold boto3_client. rewrite Hb, bind_emit.
    cbn [fst snd mret M_ret]. rewrite bind_Ok_l.
    destruct (describe_instances_paginated c) as [t [records|e]];
      unfold logging; cbn [try_except fst snd].
    + rewrite bind_Ok_l, bind_emit. cbn [fst snd mret M_ret try_except].
      rewrite bind_Ok_l, (IH _ Hc'). cbn [fst snd].
      simpl. by rewrite <- !app_assoc.
    + rewrite bind_Raise_l, bind_emit. cbn [fst snd mret M_ret try_except].
      rewrite bind_Ok_l, (IH _ Hc'). cbn [fst snd app].
      simpl. by rewrite ?app_nil_r, <- ?app_assoc.
Qed.

(** The whole run, with every client acquired: the events of the region
    loop between the phase records, then the outcome of normalizing the
    accumulated records one after the other. *)
Lemma get_all_aws_instances_eq boto3 specific_regions :
  clients_acquired boto3 (select_regions specific_regions) →
  let regions := select_regions specific_regions in
  let normalized :=
    mapM from_raw_data_to_instance (concat (listed boto3 <$> regions)) in
  get_all_aws_instances boto3 specific_regions
  = ((Log INFO "started pulling instances" None
        :: concat (region_events boto3 <$> regions))
     ++ Log INFO "finished successfully pulling instances" None
     :: Log INFO "processing raw data into objects" None
     :: normalized.1
     ++ match normalized.2 with
        | Ok _ => [Log INFO "finished processing the raw data" None]
        | Raise _ => []
        end,
     normalized.2)%list.
Proof.
  intros Hc regions normalized. subst regions normalized.
  unfold get_all_aws_instances, logging.
  rewrite bind_emit, (pull_regions_eq _ _ _ Hc), bind_Ok_l.
  rewrite !bind_emit. cbn [fst snd app].
  destruct (mapM _ _) as [t [parsed|e]].
  - rewrite bind_Ok_l, bind_emit. reflexivity.
  - rewrite bind_Raise_l. cbn [fst snd]. by rewrite app_nil_r.
Qed.

Lemma region_events_errors boto3 region c :
  boto3 region = Ok c →
  omap region_error (region_events boto3 region)
  = if listing_failed boto3 region then [region] else [].
Proof.
  intros Hb. unfold region_events, listing_failed, listing.
  cbn [omap list_omap region_error]. rewrite Hb.
  pose proof (omap_emits_nil region_error _
                (describe_instances_paginated_emits _ c (λ _, eq_refl))) as Hd.
  destruct (describe_instances_paginated c) as [t [records|e]];
    cbn [fst snd] in *; rewrite omap_app, Hd; reflexivity.
Qed.

Lemma region_events_clients boto3 region :
  omap client_created (region_events boto3 region) = [region].
Proof.
  unfold region_events. cbn [omap list_omap client_created]. f_equal.
  destruct (boto3 region) as [c|e]; [|done].
  pose proof (omap_emits_nil client_created _
                (describe_instances_paginated_emits _ c (λ _, eq_refl))) as Hd.
  destruct (describe_instances_paginated c) as [t [records|e]];
    cbn [fst snd] in *; rewrite omap_app, Hd; reflexivity.
Qed.

Lemma concat_singletons {A : Type} (l : list A) :
  concat ((λ a, [a]) <$> l) = l.
Proof.
  induction l as [|a l IH]; [done|].
  cbn [fmap list_fmap concat app]. by f_equal.
Qed.

Lemma concat_filter {A : Type} (p : A → bool) (l : list A) :
  concat ((λ a, if p a then [a] else []) <$> l) = filter p l.
Proof.
  induction l as [|a l IH]; [done|]. cbn [fmap list_fmap concat].
  rewrite filter_cons, IH. by destruct (p a).
Qed.

Lemma normalization_errors (l : list value) :
  omap region_error (mapM from_raw_data_to_instance l).1 = [].
Proof.
  apply omap_emits_nil, emits_mapM. intros raw.
  apply from_raw_data_to_instance_emits; by intros [[]|].
Qed.

Lemma normalization_clients (l : list value) :
  omap client_created (mapM from_raw_data_to_instance l).1 = [].
Proof.
  apply omap_emits_nil, emits_mapM. intros raw.
  by apply from_raw_data_to_instance_emits.
Qed.

Lemma listed_failed boto3 region :
  listing_failed boto3 region = true → listed boto3 region = [].
Proof.
  unfold listing_failed, listed. by destruct (listing boto3 region).
Qed.

Lemma concat_listed_succeeded boto3 regions :
  concat (listed boto3 <$> regions)
  = concat (listed boto3
              <$> filter (λ region, negb (listing_failed boto3 region)) regions).
Proof.
  induction regions as [|region regions IH]; [done|].
  rewrite filter_cons. cbn [fmap list_fmap concat].
  destruct (listing_failed boto3 region) eqn:E; cbn [negb].
  - rewrite decide_False by (by intros []).
    by rewrite (listed_failed _ _ E).
  - rewrite decide_True by done. cbn [fmap list_fmap concat]. by f_equal.
Qed.

(** C2, as stated, fails: region [A] is listed and the creation of the
    client of region [B] raises.  The exception leaves
    [get_all_aws_instances]: no collection is returned and no diagnostic
    names [B]. *)
Lemma client_creation_failure_escapes :
  let run := get_all_aws_instances no_client_outside_A (Some ["A"; "B"]) in
  listing no_client_outside_A "A" = Ok [good_record] ∧
  no_client_outside_A "B" = Raise (OtherException "InvalidRegionError") ∧
  run.2 = Raise (OtherException "InvalidRegionError") ∧
  omap region_error run.1 = [].
Proof. repeat split; vm_compute; reflexivity. Qed.

(** C2, amended.  For every sequence of regions whose clients are all
    created, whichever listings fail (any exception raised while
    paginating), [get_all_aws_instances] ends as the normalization of the
    records of the regions whose listing succeeded, taken in input-region
    order, does: it returns exactly their instances when every record
    normalizes; its error diagnostics of the region loop name exactly the
    regions whose listing failed, once each, in order; and no exception
    of a failed listing reaches the caller. *)
Theorem failed_listings_skipped boto3 specific_regions :
  let regions := select_regions specific_regions in
  clients_acquired boto3 regions →
  let run := get_all_aws_instances boto3 specific_regions in
  let succeeded :=
    filter (λ region, negb (listing_failed boto3 region)) regions in
  run.2 = (mapM from_raw_data_to_instance
             (concat (listed boto3 <$> succeeded))).2 ∧
  omap region_error run.1 = filter (listing_failed boto3) regions.
Proof.
  intros regions Hc run succeeded. subst regions run succeeded.
  rewrite (get_all_aws_instances_eq _ _ Hc). cbn [fst snd].
  split; [by rewrite <- concat_listed_succeeded|].
  cbn [omap list_omap region_error].
  rewrite omap_app. cbn [omap list_omap region_error].
  rewrite omap_app, normalization_errors.
  rewrite (omap_concat_fmap _ _
             (λ region, if listing_failed boto3 region then [region] else [])).
  - rewrite concat_filter.
    by destruct (mapM from_raw_data_to_instance _) as [t [parsed|e]];
      cbn [snd omap list_omap region_error]; rewrite app_nil_r.
  - intros region [c Hb]%Hc. by apply (region_events_errors _ _ c).
Qed.

(** Region [A] is listed, the listing of region [B] is refused: the
    instance of [A] is returned and one diagnostic names [B]. *)
Lemma failed_listings_skipped_witness :
  let boto3 := listing_refused_outside_A [good_record] in
  let run := get_all_aws_instances boto3 (Some ["A"; "B"]) in
  run.2 = (mapM from_raw_data_to_instance [good_record]).2 ∧
  omap region_error run.1 = ["B"].
Proof.
  intros boto3.
  apply (failed_listings_skipped boto3 (Some ["A"; "B"])).
  intros region _. unfold boto3, listing_refused_outside_A.
  destruct (String.eqb region "A"); eauto.
Defined.

(** ** Normalizing the accumulated records *)

Lemma mapM_cons_Ok {A B : Type} (f : A → M B) (x : A) (l : list A) t y :
  f x = (t, Ok y) →
  (mapM f (x :: l)).2
  = match (mapM f l).2 with
    | Ok k => Ok (y :: k)
    | Raise e => Raise e
    end.
Proof.
  intros Hx. cbn [mapM]. rewrite Hx, bind_Ok_l. cbn [snd].
  by destruct (mapM f l) as [t' [k|e]].
Qed.

Lemma mapM_cons_Raise {A B : Type} (f : A → M B) (x : A) (l : list A) e :
  (f x).2 = Raise e → (mapM f (x :: l)).2 = Raise e.
Proof.
  intros Hx. cbn [mapM].
  destruct (f x) as [t [y|e']]; cbn [snd] in Hx; [discriminate Hx|].
  injection Hx as ->. by rewrite bind_Raise_l.
Qed.

(** The error of the first element that fails is the error of the loop. *)
Lemma mapM_first_failure {A B : Type} (f : A → M B) before x after e :
  Forall (λ a, ∃ y, (f a).2 = Ok y) before →
  (f x).2 = Raise e →
  (mapM f (before ++ x :: after)).2 = Raise e.
Proof.
  intros Hb Hx. induction Hb as [|a before [y Ha] _ IH].
  - by apply mapM_cons_Raise.
  - cbn [app]. destruct (f a) as [t r] eqn:Hfa. cbn [snd] in Ha. subst r.
    by rewrite (mapM_cons_Ok _ _ _ _ _ Hfa), IH.
Qed.

Lemma mapM_failure {A B : Type} (f : A → M B) (l : list A) x e :
  x ∈ l → (f x).2 = Raise e → ∃ e', (mapM f l).2 = Raise e'.
Proof.
  intros Hin Hx. induction l as [|a l IH]; [by apply elem_of_nil in Hin|].
  destruct (f a) as [t [y|e']] eqn:Hfa.
  - rewrite (mapM_cons_Ok _ _ _ _ _ Hfa).
    apply elem_of_cons in Hin as [->|Hin].
    + rewrite Hfa in Hx. discriminate Hx.
    + destruct (IH Hin) as [e' ->]. eauto.
  - exists e'. apply mapM_cons_Raise. by rewrite Hfa.
Qed.

Lemma mapM_all_Ok {A B : Type} (f : A → M B) (l : list A) :
  Forall (λ a, ∃ y, (f a).2 = Ok y) l →
  ∃ k, (mapM f l).2 = Ok k ∧ length k = length l.
Proof.
  induction 1 as [|a l [y Ha] _ (k & Hk & Hlen)]; [by exists []|].
  destruct (f a) as [t r] eqn:Hfa. cbn [snd] in Ha. subst r.
  exists (y :: k). rewrite (mapM_cons_Ok _ _ _ _ _ Hfa), Hk.
  split; [done|]. simpl. by rewrite Hlen.
Qed.

(** C7, as stated, fails: region [A] is listed and its one record
    normalizes, and no client can be created for region [C].  No
    accumulated record fails to normalize, yet the failure for region [C]
    ends the run and no collection is returned. *)
Lemma client_creation_failure_ends_run :
  let run := get_all_aws_instances no_client_outside_A (Some ["A"; "C"]) in
  listed no_client_outside_A "A" = [good_record] ∧
  (∃ i, from_raw_data_to_instance good_record = ([], Ok i)) ∧
  no_client_outside_A "C" = Raise (OtherException "InvalidRegionError") ∧
  run.2 = Raise (OtherException "InvalidRegionError").
Proof.
  repeat split; try (vm_compute; reflexivity).
  eexists. vm_compute. reflexivity.
Qed.

(** C7, amended.  With every regional client created, the records
    accumulated from the regions whose listing succeeded are normalized
    outside every [try]: the exception of the first record that fails,
    such as the [KeyError] naming a missing required key, leaves
    [get_all_aws_instances]; a single failing record is enough for no
    collection to be returned; and when every accumulated record
    normalizes a collection with one instance per record is returned,
    however many listings failed. *)
Theorem normalization_failure_fatal boto3 specific_regions :
  let regions := select_regions specific_regions in
  clients_acquired boto3 regions →
  let run := get_all_aws_instances boto3 specific_regions in
  let accumulated := concat (listed boto3 <$> regions) in
  (∀ before raw after e,
     accumulated = (before ++ raw :: after)%list →
     Forall (λ r, ∃ i, (from_raw_data_to_instance r).2 = Ok i) before →
     (from_raw_data_to_instance raw).2 = Raise e →
     run.2 = Raise e) ∧
  (∀ raw e,
     raw ∈ accumulated →
     (from_raw_data_to_instance raw).2 = Raise e →
     ∃ e', run.2 = Raise e') ∧
  (Forall (λ r, ∃ i, (from_raw_data_to_instance r).2 = Ok i) accumulated →
   ∃ instances,
     run.2 = Ok instances ∧ length instances = length accumulated).
Proof.
  intros regions Hc run accumulated. subst regions run accumulated.
  rewrite (get_all_aws_instances_eq _ _ Hc). cbn [snd].
  split; [|split].
  - intros before raw after e -> Hb Hraw. by apply mapM_first_failure.
  - intros raw e Hin Hraw. by apply (mapM_failure _ _ raw e).
  - apply mapM_all_Ok.
Qed.

(** Region [A] lists a record that normalizes and then a record without
    its [ImageId]; the listing of region [B] is refused.  The [KeyError]
    naming [ImageId] leaves the run. *)
Lemma normalization_failure_fatal_witness :
  let boto3 := listing_refused_outside_A [good_record; record_without_ImageId] in
  (get_all_aws_instances boto3 (Some ["A"; "B"])).2
  = Raise (KeyError "ImageId").
Proof.
  intros boto3.
  assert (Hc : clients_acquired boto3 (select_regions (Some ["A"; "B"]))).
  { intros region _. unfold boto3, listing_refused_outside_A.
    destruct (String.eqb region "A"); eauto. }
  destruct (normalization_failure_fatal boto3 (Some ["A"; "B"]) Hc) as [H _].
  apply (H [good_record] record_without_ImageId []).
  - reflexivity.
  - repeat constructor. eexists. vm_compute. reflexivity.
  - vm_compute. reflexivity.
Defined.

(** ** The default regions *)

Lemma get_all_aws_instances_clients boto3 specific_regions :
  clients_acquired boto3 (select_regions specific_regions) →
  omap client_created (get_all_aws_instances boto3 specific_regions).1
  = select_regions specific_regions.
Proof.
  intros Hc. rewrite (get_all_aws_instances_eq _ _ Hc). cbn [fst].
  cbn [omap list_omap client_created app].
  rewrite omap_app. cbn [omap list_omap client_created].
  rewrite omap_app, normalization_clients.
  rewrite (omap_concat_fmap _ _ (λ region, [region]))
    by (intros; apply region_events_clients).
  rewrite concat_singletons.
  by destruct (mapM from_raw_data_to_instance _) as [t [parsed|e]];
    cbn [snd omap list_omap client_created]; rewrite app_nil_r.
Qed.

(** ** The normalizer leaves its input alone *)

Module HeapFacts.
Import Heap.

Section frames.
Context (s0 : store).

Lemma frames_ret {A : Type} (a : A) (Q : A → Prop) :
  Q a → frames s0 (mret a) Q.
Proof. intros HQ s Hs. split; [done|]. by intros ? [= <-]. Qed.

Lemma frames_raise {A : Type} (e : exn) (Q : A → Prop) :
  frames s0 (raise e) Q.
Proof. intros s Hs. by split. Qed.

Lemma frames_bind {A B : Type} (m : H A) (f : A → H B) Q R :
  frames s0 m Q → (∀ a, Q a → frames s0 (f a) R) → frames s0 (m ≫= f) R.
Proof.
  intros Hm Hf s Hs. destruct (Hm s Hs) as [Hs' HQ].
  unfold mbind, H_bind. destruct (m s) as [[t s'] [a|e]]; [|by split].
  cbn [fst snd] in *.
  destruct (Hf a (HQ a eq_refl) s' Hs') as [Hs'' HR].
  by destruct (f a s') as [[t' s''] r].
Qed.

Lemma frames_bind_True {A B : Type} (m : H A) (f : A → H B) R :
  frames s0 m (λ _, True) → (∀ a, frames s0 (f a) R) → frames s0 (m ≫= f) R.
Proof. intros Hm Hf. eapply frames_bind; [exact Hm|]. intros a _. apply Hf. Qed.

(** The statements that only read the store. *)
Lemma frames_getitem v k : frames s0 (getitem v k) (λ _, True).
Proof.
  intros s Hs. unfold getitem.
  destruct (deref s v) as [[d| |]|]; try by split.
  by destruct (alist_get d k).
Qed.

Lemma frames_contains k v : frames s0 (contains k v) (λ _, True).
Proof.
  intros s Hs. unfold contains.
  by destruct v, (deref s _) as [[]|].
Qed.

Lemma frames_py_iter v : frames s0 (py_iter v) (λ _, True).
Proof.
  intros s Hs. unfold py_iter.
  by destruct v, (deref s _) as [[]|].
Qed.

Lemma frames_truthy v : frames s0 (truthy v) (λ _, True).
Proof. intros s Hs. by split. Qed.

Lemma frames_logging lv text arg :
  frames s0 (logging lv text arg) (λ _, True).
Proof. intros s Hs. by split. Qed.

Lemma frames_getattr l name : frames s0 (getattr l name) (λ _, True).
Proof.
  intros s Hs. unfold getattr.
  destruct (s !! l) as [[| |class attrs]|]; try by split.
  by destruct (alist_get attrs name).
Qed.

(** A new object lies outside [s0]. *)
Lemma frames_alloc o : frames s0 (alloc o) (λ l, s0 !! l = None).
Proof.
  intros s Hs. unfold alloc. cbn [fst snd].
  assert (Hfresh : s0 !! fresh (dom s) = None).
  { destruct (s0 !! fresh (dom s)) as [o'|] eqn:E; [|done].
    destruct (is_fresh (dom s)).
    apply elem_of_dom. exists o'. by eapply lookup_weaken. }
  split; [by apply insert_subseteq_r|]. by intros ? [= <-].
Qed.

(** The writes: they frame [s0] when they target an object outside it. *)
Lemma frames_setattr l name v :
  s0 !! l = None → frames s0 (setattr l name v) (λ _, True).
Proof.
  intros Hl s Hs. unfold setattr.
  destruct (s !! l) as [[| |class attrs]|]; try by split.
  split; [by apply insert_subseteq_r|done].
Qed.

Lemma frames_append l v :
  s0 !! l = None → frames s0 (append l v) (λ _, True).
Proof.
  intros Hl s Hs. unfold append.
  destruct (s !! l) as [[|xs|]|]; try by split.
  split; [by apply insert_subseteq_r|done].
Qed.

Lemma frames_for_each xs body :
  (∀ x, frames s0 (body x) (λ _, True)) →
  frames s0 (for_each xs body) (λ _, True).
Proof.
  intros Hbody. induction xs as [|x xs IH]; [by apply frames_ret|].
  cbn [for_each]. apply frames_bind_True; [apply Hbody|]. by intros _.
Qed.

End frames.

Create HintDb frames.
#[local] Hint Resolve frames_getitem frames_contains frames_py_iter
  frames_truthy frames_logging frames_getattr frames_raise : frames.

(** Breaks a goal [frames s0 m Q] along the binds of [m]. *)
Ltac frames_steps :=
  repeat first
    [ solve [eauto with frames]
    | apply frames_ret; done
    | apply frames_setattr; assumption
    | apply frames_append; assumption
    | eapply frames_bind; [apply frames_alloc|intros ? ?; cbv beta in *]
    | apply frames_bind_True; [|intros ?]
    | match goal with
      | |- frames _ (if ?b then _ else _) _ => destruct b
      | |- frames _ (match ?x with _ => _ end) _ => destruct x
      end ].

Lemma assign_address_frames s0 field v lv text l :
  s0 !! l = None →
  frames s0 (assign_address field v lv text l) (λ _, True).
Proof. intros Hl. unfold assign_address. frames_steps. Qed.

Lemma from_raw_data_to_network_interface_frames s0 raw_data :
  frames s0 (from_raw_data_to_network_interface raw_data) (λ _, True).
Proof.
  pose proof (assign_address_frames s0) as Ha.
  unfold from_raw_data_to_network_interface. frames_steps.
Qed.

Lemma assign_if_present_frames s0 key field raw_data l :
  s0 !! l = None →
  frames s0 (assign_if_present key field raw_data l) (λ _, True).
Proof. intros Hl. unfold assign_if_present. frames_steps. Qed.

Lemma from_raw_data_to_instance_frames s0 raw_data :
  frames s0 (from_raw_data_to_instance raw_data) (λ _, True).
Proof.
  pose proof (assign_if_present_frames s0) as Ha.
  pose proof (from_raw_data_to_network_interface_frames s0) as Hn.
  unfold from_raw_data_to_instance.
  eapply frames_bind; [apply frames_alloc|]. intros parsed_interfaces Hl.
  apply frames_bind_True; [apply frames_getitem|]. intros interfaces.
  apply frames_bind_True; [apply frames_py_iter|]. intros xs.
  apply frames_bind_True.
  { apply frames_for_each. intros x. frames_steps. }
  intros _. frames_steps.
Qed.

End HeapFacts.

(** The example record in the store: the run allocates the list of parsed
    interfaces at 7, the interface at 8 and the instance at 9, which holds
    the list by reference; with an empty [PublicIp] it raises after the
    list and the interface object exist.  In both runs the six objects of
    the input are what they were. *)
Lemma example_store_runs :
  let s := Heap.example_store (Heap.HStr "198.51.100.5") in
  let run := Heap.from_raw_data_to_instance (Heap.HRef 4%positive) s in
  let s' := Heap.example_store (Heap.HStr "") in
  let run' := Heap.from_raw_data_to_instance (Heap.HRef 4%positive) s' in
  run.2 = Ok (Heap.HRef 9%positive) ∧
  run.1.2 !! 7%positive = Some (Heap.OList [Heap.HRef 8%positive]) ∧
  Heap.getattr 9%positive "network_interfaces" run.1.2
  = ([], run.1.2, Ok (Heap.HRef 7%positive)) ∧
  Heap.getattr 9%positive "tags" run.1.2
  = ([], run.1.2, Ok (Heap.HRef 5%positive)) ∧
  Heap.getattr 8%positive "public_ip_address" run.1.2
  = ([], run.1.2,
     Ok (Heap.HAddr (ipaddress.IPv4Address
                       (ipaddress.from_bytes_big [198; 51; 100; 5])))) ∧
  (∀ l, (l < 7)%positive → run.1.2 !! l = s !! l) ∧
  run'.2 = Raise ValueError ∧
  run'.1.2 !! 7%positive = Some (Heap.OList []) ∧
  (∀ l, (l < 7)%positive → run'.1.2 !! l = s' !! l).
Proof.
  assert (Hcases : ∀ l, (l < 7)%positive →
            l = 1%positive ∨ l = 2%positive ∨ l = 3%positive ∨
            l = 4%positive ∨ l = 5%positive ∨ l = 6%positive)
    by lia.
  repeat split; try (vm_compute; reflexivity);
    intros l [->|[->|[->|[->|[->| ->]]]]]%Hcases; vm_compute; reflexivity.
Qed.

(** C10.  Run from any store on any argument, neither
    [from_raw_data_to_network_interface] nor [from_raw_data_to_instance]
    changes an object that exists before the call: the raw record, its
    nested interface records and association blocks, and every other
    object of the store are the same after the run, whether it returns or
    raises.  The run only adds new objects, which it alone writes to, and
    emits diagnostics. *)
Theorem raw_input_unchanged (s : gmap Heap.loc Heap.obj) (raw_data : Heap.hval) :
  (∀ l o, s !! l = Some o →
          (Heap.from_raw_data_to_network_interface raw_data s).1.2 !! l
          = Some o) ∧
  (∀ l o, s !! l = Some o →
          (Heap.from_raw_data_to_instance raw_data s).1.2 !! l = Some o).
Proof.
  split; intros l o Hl.
  - destruct (HeapFacts.from_raw_data_to_network_interface_frames
                s raw_data s) as [Hs _]; [done|].
    by eapply lookup_weaken.
  - destruct (HeapFacts.from_raw_data_to_instance_frames
                s raw_data s) as [Hs _]; [done|].
    by eapply lookup_weaken.
Qed.

(** The example record at location 4 of the example store is the same
    object after [from_raw_data_to_instance] has run on it. *)
Lemma raw_input_unchanged_witness :
  let s := Heap.example_store (Heap.HStr "198.51.100.5") in
  (Heap.from_raw_data_to_instance (Heap.HRef 4%positive) s).1.2 !! 4%positive
  = s !! 4%positive.
Proof.
  intros s.
  apply (proj2 (raw_input_unchanged s (Heap.HRef 4%positive)) 4%positive).
  reflexivity.
Defined.

(** ** The store-level embedding computes what the value-level one does *)

Module Refinement.

Section sim.
Context (s0 : gmap Heap.loc Heap.obj).

Lemma sim_bind {A B A' B' : Type} sc (hm : Heap.H A) (m : M B)
    (hf : A → Heap.H A') (f : B → M B') R R' :
  sim s0 sc hm m R →
  (∀ a b sc', R a b sc' → sim s0 sc' (hf a) (f b) R') →
  sim s0 sc (hm ≫= hf) (m ≫= f) R'.
Proof.
  unfold sim, mbind, Heap.H_bind, M_bind.
  destruct (hm sc) as [[ht s1] [a|e]], m as [t [b|e']];
    cbn [fst snd]; intros [Ht HR] Hf; try done.
  specialize (Hf a b s1 HR).
  destruct (hf a s1) as [[ht' s2] r], (f b) as [t' r']. cbn [fst snd] in *.
  split; [apply Forall2_app|]; tauto.
Qed.

(** A step of the store-level program that has no counterpart, such as
    an allocation or an attribute read. *)
Lemma sim_heap_step {A A' B' : Type} sc sc' (hm : Heap.H A) a
    (hf : A → Heap.H A') (m : M B') R :
  hm sc = ([], sc', Ok a) →
  sim s0 sc' (hf a) m R →
  sim s0 sc (hm ≫= hf) m R.
Proof.
  unfold sim, mbind, Heap.H_bind. intros -> H.
  by destruct (hf a sc') as [[ht' s2] r].
Qed.

Lemma sim_ret {A B : Type} sc (a : A) (b : B) (R : A → B → _ → Prop) :
  R a b sc → sim s0 sc (mret a) (mret b) R.
Proof. intros HR. split; [constructor|exact HR]. Qed.

Lemma sim_raise {A B : Type} sc e (R : A → B → _ → Prop) :
  sim s0 sc (Heap.raise e) (raise e) R.
Proof. split; [constructor|reflexivity]. Qed.

Lemma sim_heap_ret {A B : Type} sc sc' (hm : Heap.H A) a (b : B)
    (R : A → B → _ → Prop) :
  hm sc = ([], sc', Ok a) → R a b sc' → sim s0 sc hm (mret b) R.
Proof. unfold sim. intros -> HR. split; [constructor|exact HR]. Qed.

Lemma sim_mono {A B : Type} sc (hm : Heap.H A) (m : M B)
    (R R' : A → B → _ → Prop) :
  sim s0 sc hm m R → (∀ a b sc', R a b sc' → R' a b sc') → sim s0 sc hm m R'.
Proof.
  unfold sim. intros [Ht HR] HRR'. split; [done|].
  destruct (hm sc).2, m.2; eauto.
Qed.

(** *** Reading the input *)

Lemma alist_get_repr hd d k :
  repr_fields s0 hd d →
  option_Forall2 (repr s0) (Heap.alist_get hd k) (dict_get d k).
Proof.
  induction 1 as [|[hk hv] [k' v] hd d [Hk Hv] _ IH]; [constructor|].
  cbn [fst snd] in *. subst k'. cbn [Heap.alist_get dict_get].
  destruct (String.eqb hk k); [by constructor|exact IH].
Qed.

Lemma existsb_repr hs vs k :
  Forall2 (repr s0) hs vs →
  existsb (λ x, match x with
                | Heap.HStr s => String.eqb s k
                | _ => false
                end) hs
  = existsb (λ x, match x with VStr s => String.eqb s k | _ => false end) vs.
Proof.
  induction 1 as [|h v hs vs Hv _ IH]; [done|]. cbn [existsb]. rewrite IH.
  by destruct Hv.
Qed.

Lemma chars_repr x : Forall2 (repr s0) (Heap.chars x) (chars x).
Proof. induction x; repeat constructor; done. Qed.

Lemma sim_getitem sc hv v k :
  s0 ⊆ sc → repr s0 hv v →
  sim s0 sc (Heap.getitem hv k) (getitem v k)
    (λ hx x sc', sc' = sc ∧ repr s0 hx x).
Proof.
  intros Hs Hv. unfold sim, Heap.getitem.
  destruct Hv as [| | | | | |l hs vs Hl Hf|l hd d Hl Hf];
    cbn [Heap.deref getitem]; try (split; [constructor|reflexivity]).
  - rewrite (lookup_weaken _ _ _ _ Hl Hs). by split; [constructor|].
  - rewrite (lookup_weaken _ _ _ _ Hl Hs).
    destruct (alist_get_repr hd d k Hf) as [hx x Hx|];
      by split; [constructor|].
Qed.

Lemma sim_contains sc hv v k :
  s0 ⊆ sc → repr s0 hv v →
  sim s0 sc (Heap.contains k hv) (contains k v)
    (λ hb b sc', sc' = sc ∧ hb = b).
Proof.
  intros Hs Hv. unfold sim, Heap.contains.
  destruct Hv as [| | | | | |l hs vs Hl Hf|l hd d Hl Hf];
    cbn [Heap.deref contains]; try (split; [constructor|done]).
  - rewrite (lookup_weaken _ _ _ _ Hl Hs). cbn [fst snd mret M_ret].
    split; [constructor|]. split; [done|]. by apply existsb_repr.
  - rewrite (lookup_weaken _ _ _ _ Hl Hs). cbn [fst snd mret M_ret].
    split; [constructor|]. split; [done|].
    by destruct (alist_get_repr hd d k Hf).
Qed.

Lemma sim_py_iter sc hv v :
  s0 ⊆ sc → repr s0 hv v →
  sim s0 sc (Heap.py_iter hv) (py_iter v)
    (λ hl l sc', sc' = sc ∧ Forall2 (repr s0) hl l).
Proof.
  intros Hs Hv. unfold sim, Heap.py_iter.
  destruct Hv as [| | |x| | |l hs vs Hl Hf|l hd d Hl Hf];
    cbn [Heap.deref py_iter]; try (split; [constructor|done]).
  - split; [constructor|]. split; [done|]. apply chars_repr.
  - rewrite (lookup_weaken _ _ _ _ Hl Hs). by split; [constructor|].
  - rewrite (lookup_weaken _ _ _ _ Hl Hs). cbn [fst snd mret M_ret].
    split; [constructor|]. split; [done|]. clear Hl.
    induction Hf as [|[hk hx] [k x] hd d [Hk _] _ IH]; [constructor|].
    cbn [fst snd map] in *. subst. constructor; [constructor|exact IH].
Qed.

Lemma truthy_repr sc hv v :
  s0 ⊆ sc → repr s0 hv v → Heap.truthy hv sc = ([], sc, Ok (truthy v)).
Proof.
  intros Hs Hv. unfold Heap.truthy. do 2 f_equal.
  destruct Hv as [| | | | | |l hs vs Hl Hf|l hd d Hl Hf]; try done.
  - rewrite (lookup_weaken _ _ _ _ Hl Hs). by destruct Hf.
  - rewrite (lookup_weaken _ _ _ _ Hl Hs). by destruct Hf.
Qed.

Lemma ip_address_repr hv v :
  repr s0 hv v → Heap.ip_address hv = ip_address v.
Proof. by destruct 1. Qed.

Lemma alist_set_repr hd d k hv v :
  repr_fields s0 hd d → repr s0 hv v →
  repr_fields s0 (Heap.alist_set k hv hd) (dict_set k v d).
Proof.
  intros Hf Hv.
  induction Hf as [|[hk hx] [k' x] hd d [Hk Hx] Hf IH];
    [by repeat constructor|].
  cbn [fst snd] in *. subst k'. cbn [Heap.alist_set dict_set].
  destruct (String.eqb hk k); by constructor.
Qed.

(** *** The interface normalizer *)

Lemma sim_logging_ret {B : Type} sc lv text harg arg (b : B)
    (R : unit → B → _ → Prop) :
  option_Forall2 (repr s0) harg arg →
  R tt b sc →
  sim s0 sc (Heap.logging lv text harg) (logging lv text arg;; mret b) R.
Proof. intros Harg HR. split; [by repeat constructor|exact HR]. Qed.

Lemma sim_assign_address sc sc' l n field set hv v lv text :
  (∀ a n, interface_fields (set a n)
          = dict_set field (VAddr a) (interface_fields n)) →
  (∀ a n, network_interface_id (set a n) = network_interface_id n) →
  filling s0 sc l n sc' →
  repr s0 hv v →
  sim s0 sc' (Heap.assign_address field hv lv text l)
    (assign_address set v lv text n)
    (λ _ n' sc'', filling s0 sc l n' sc'').
Proof.
  intros Hset Hnid (attrs & -> & Hattrs) Hv.
  unfold Heap.assign_address, assign_address.
  rewrite (ip_address_repr _ _ Hv). destruct (ip_address v) as [a|].
  - apply (sim_heap_ret _
             (<[l := Heap.OObject "NetworkInterface"
                       (Heap.alist_set field (Heap.HAddr a) attrs)]> sc) _ tt).
    + unfold Heap.setattr. rewrite lookup_insert_eq.
      by rewrite insert_insert_eq.
    + eexists. split; [done|]. rewrite Hset.
      apply alist_set_repr; [done|constructor].
  - pose proof (alist_get_repr attrs _ "network_interface_id" Hattrs) as Hg.
    cbn in Hg. inversion Hg as [hnid nid Hnid' Ha|]; subst.
    eapply sim_heap_step.
    { unfold Heap.getattr. rewrite lookup_insert_eq, <- Ha. reflexivity. }
    apply sim_logging_ret; [by constructor|]. by exists attrs.
Qed.

Lemma alloc_fresh sc o :
  s0 ⊆ sc →
  let l := fresh (dom sc) in
  Heap.alloc o sc = ([], <[l := o]> sc, Ok l) ∧
  sc !! l = None ∧ s0 !! l = None ∧ s0 ⊆ <[l := o]> sc.
Proof.
  intros Hs l.
  assert (Hl : sc !! l = None) by apply not_elem_of_dom, is_fresh.
  assert (Hl0 : s0 !! l = None).
  { destruct (s0 !! l) as [o'|] eqn:E; [|done].
    by rewrite (lookup_weaken _ _ _ _ E Hs) in Hl. }
  repeat split; try done. by apply insert_subseteq_r.
Qed.

Lemma filling_subseteq sc l n sc' :
  s0 ⊆ sc → s0 !! l = None → filling s0 sc l n sc' → s0 ⊆ sc'.
Proof. intros Hs Hl (attrs & -> & _). by apply insert_subseteq_r. Qed.

(** The store-level interface normalizer and the value-level one raise
    the same exception or return, the first a reference to a new
    [NetworkInterface] object, the only change to the store, that stands
    for the interface the second returns. *)
Lemma sim_network_interface sc hraw raw :
  s0 ⊆ sc → repr s0 hraw raw →
  sim s0 sc (Heap.from_raw_data_to_network_interface hraw)
    (from_raw_data_to_network_interface raw)
    (λ hv n sc', ∃ l, hv = Heap.HRef l ∧ sc !! l = None ∧ s0 !! l = None ∧
                      filling s0 sc l n sc').
Proof.
  intros Hs Hraw.
  unfold Heap.from_raw_data_to_network_interface,
    from_raw_data_to_network_interface.
  eapply sim_bind; [by apply sim_getitem|]. intros hassoc assoc ? [-> Hassoc].
  do 8 (eapply sim_bind; [by apply sim_getitem|]; intros ? ? ? [-> ?]).
  match goal with
  | |- sim _ _ (Heap.alloc ?o ≫= _) _ _ =>
      destruct (alloc_fresh sc o Hs) as (Halloc & Hl & Hl0 & Hs1)
  end.
  eapply sim_heap_step; [exact Halloc|].
  set (l := fresh (dom sc)) in *.
  eapply sim_bind; [by apply sim_getitem|]. intros hv6 v6 ? [-> Hv6].
  eapply sim_bind; [by apply sim_getitem|]. intros hpub pub ? [-> Hpub].
  match goal with
  | |- sim _ ?st _ _ _ =>
      eapply sim_bind with (R := λ hv v sc', sc' = st ∧ repr s0 hv v)
  end.
  { rewrite (ip_address_repr _ _ Hpub).
    destruct (ip_address pub); [apply sim_ret|apply sim_raise].
    split; [reflexivity|constructor]. }
  intros hpip pip ? [-> Hpip].
  eapply sim_bind; [by apply sim_getitem|]. intros hpriv priv ? [-> Hpriv].
  match goal with
  | |- sim _ (<[l := Heap.OObject _ ?attrs]> sc) _
         (mbind _ (if _ then _ else mret ?n0)) _ =>
      assert (Hfill : filling s0 sc l n0
                        (<[l := Heap.OObject "NetworkInterface" attrs]> sc))
        by (exists attrs; split; [done|]; repeat constructor; done)
  end.
  eapply sim_heap_step; [by apply truthy_repr|].
  eapply sim_bind with (R := λ _ n' sc', filling s0 sc l n' sc').
  { destruct (truthy v6); [|by apply sim_ret].
    by apply sim_assign_address. }
  clear Hfill. intros _ n1 sc1 Hfill.
  pose proof (filling_subseteq _ _ _ _ Hs Hl0 Hfill) as Hs2.
  eapply sim_heap_step; [by apply truthy_repr|].
  eapply sim_bind with (R := λ _ n' sc', filling s0 sc l n' sc').
  { destruct (truthy pip); [|by apply sim_ret].
    by apply sim_assign_address. }
  clear Hfill Hs2 sc1. intros _ n2 sc2 Hfill.
  pose proof (filling_subseteq _ _ _ _ Hs Hl0 Hfill) as Hs3.
  eapply sim_heap_step; [by apply truthy_repr|].
  eapply sim_bind with (R := λ _ n' sc', filling s0 sc l n' sc').
  { destruct (truthy priv); [|by apply sim_ret].
    by apply sim_assign_address. }
  clear Hfill Hs3 sc2. intros _ n3 sc3 Hfill.
  apply sim_ret. by exists l.
Qed.

(** *** The interface loop *)

Lemma repr_interface_insert s l o h n :
  repr_interface s0 s h n → s !! l = None →
  repr_interface s0 (<[l := o]> s) h n.
Proof.
  intros (l' & attrs & -> & Hl' & Hattrs) Hl. exists l', attrs.
  split; [done|]. split; [|done].
  rewrite lookup_insert_ne; [done|]. by intros ->; rewrite Hl in Hl'.
Qed.

Lemma repr_interface_insert_list s lp hs hs' h n :
  repr_interface s0 s h n → s !! lp = Some (Heap.OList hs) →
  repr_interface s0 (<[lp := Heap.OList hs']> s) h n.
Proof.
  intros (l' & attrs & -> & Hl' & Hattrs) Hlp. exists l', attrs.
  split; [done|]. split; [|done].
  rewrite lookup_insert_ne; [done|]. by intros ->; rewrite Hlp in Hl'.
Qed.

Lemma sim_assoc {A A' A'' B : Type} sc (hm : Heap.H A) (hf : A → Heap.H A')
    (hg : A' → Heap.H A'') (m : M B) R :
  sim s0 sc (hm ≫= λ a, hf a ≫= hg) m R →
  sim s0 sc ((hm ≫= hf) ≫= hg) m R.
Proof.
  unfold sim, mbind, Heap.H_bind.
  destruct (hm sc) as [[t s1] [a|e]]; [|done].
  destruct (hf a s1) as [[t1 s2] [a'|e]]; [|done].
  destruct (hg a' s2) as [[t2 s3] r]. cbn [fst snd].
  by rewrite app_assoc.
Qed.

Lemma sim_pure_map {A B B' : Type} sc (hm : Heap.H A) (m : M B) (g : B → B')
    (R : A → B → _ → Prop) (R' : A → B' → _ → Prop) :
  sim s0 sc hm m R →
  (∀ a b sc', R a b sc' → R' a (g b) sc') →
  sim s0 sc hm (m ≫= λ b, mret (g b)) R'.
Proof.
  unfold sim. destruct m as [t [b|e]]; rewrite ?bind_Ok_l, ?bind_Raise_l;
    cbn [fst snd mret M_ret]; rewrite ?app_nil_r;
    intros [Ht HR] HRR'; (split; [done|]);
    destruct (hm sc).2; eauto.
Qed.

Lemma sim_interfaces lp hxs xs :
  s0 !! lp = None →
  Forall2 (repr s0) hxs xs →
  ∀ sc parsed,
    interfaces_at s0 lp parsed sc →
    sim s0 sc
      (Heap.for_each hxs (λ interface,
         parsed_interface ← Heap.from_raw_data_to_network_interface interface;
         Heap.append lp parsed_interface))
      (mapM from_raw_data_to_network_interface xs)
      (λ _ nis sc', interfaces_at s0 lp (parsed ++ nis) sc').
Proof.
  intros Hlp0.
  induction 1 as [|hx x hxs xs Hx _ IH]; intros sc parsed Hat.
  - apply sim_ret. by rewrite app_nil_r.
  - destruct Hat as (Hs & hs & Hlp & Hparsed).
    cbn [Heap.for_each mapM]. apply sim_assoc.
    eapply sim_bind; [by apply sim_network_interface|].
    intros hv n sc1 (l & -> & Hl & Hl0 & attrs & -> & Hattrs).
    assert (Hne : l ≠ lp) by (by intros ->; rewrite Hl in Hlp).
    eapply sim_heap_step.
    { unfold Heap.append. rewrite lookup_insert_ne, Hlp by done.
      reflexivity. }
    eapply sim_pure_map.
    + apply (IH _ (parsed ++ [n])%list). split; [|eexists; split].
      * apply insert_subseteq_r; [done|]. by apply insert_subseteq_r.
      * apply lookup_insert_eq.
      * apply Forall2_app.
        -- eapply Forall2_impl; [exact Hparsed|]. intros h n' Hn'.
           eapply repr_interface_insert_list.
           ++ by apply repr_interface_insert.
           ++ by rewrite lookup_insert_ne.
        -- repeat constructor. exists l, attrs. split; [done|].
           split; [|done].
           rewrite lookup_insert_ne by done. apply lookup_insert_eq.
    + intros ? nis sc' Hat'. cbv beta in Hat' |- *.
      by rewrite <- app_assoc in Hat'.
Qed.

(** *** The instance normalizer *)

Lemma alist_set_after before lp after field hv :
  Forall (λ kv : string * Heap.hval, String.eqb kv.1 field = false) before →
  String.eqb "network_interfaces" field = false →
  Heap.alist_set field hv
    (before ++ ("network_interfaces", Heap.HRef lp) :: after)
  = (before ++ ("network_interfaces", Heap.HRef lp)
       :: Heap.alist_set field hv after)%list.
Proof.
  intros Hb Hn. induction Hb as [|[k x] before Hk _ IH]; cbn [app Heap.alist_set].
  - by rewrite Hn.
  - cbn [fst] in Hk. by rewrite Hk, IH.
Qed.

Lemma filling_instance_subseteq sc l lp parsed i sc' :
  s0 ⊆ sc → s0 !! l = None → filling_instance s0 sc l lp parsed i sc' →
  s0 ⊆ sc'.
Proof. intros Hs Hl (? & ? & -> & _). by apply insert_subseteq_r. Qed.

Lemma sim_assign_if_present sc sc' l lp parsed i key field set hraw raw :
  (∀ v i, instance_fields_after (set v i)
          = dict_set field v (instance_fields_after i)) →
  (∀ v i, instance_fields_before (set v i) = instance_fields_before i) →
  (∀ v i, network_interfaces (set v i) = network_interfaces i) →
  Forall (λ k, String.eqb k field = false)
    ["image_id"; "instance_id"; "network_interfaces"] →
  s0 ⊆ sc → s0 !! l = None → repr s0 hraw raw →
  filling_instance s0 sc l lp parsed i sc' →
  sim s0 sc' (Heap.assign_if_present key field hraw l)
    (assign_if_present key set raw i)
    (λ _ i' sc'', filling_instance s0 sc l lp parsed i' sc'').
Proof.
  intros Hafter Hbefore Hnis Hfield Hs Hl Hraw Hfill.
  pose proof (filling_instance_subseteq _ _ _ _ _ _ Hs Hl Hfill) as Hs'.
  destruct Hfill as (before & after & -> & Hb & Ha & Hp).
  unfold Heap.assign_if_present, assign_if_present.
  eapply sim_bind; [by apply sim_contains|]. intros ? present ? [-> ->].
  destruct present.
  - eapply sim_bind; [by apply sim_getitem|]. intros hv v ? [-> Hv].
    eapply sim_heap_ret.
    { unfold Heap.setattr. rewrite lookup_insert_eq, insert_insert_eq.
      reflexivity. }
    exists before, (Heap.alist_set field hv after).
    rewrite Hafter, Hbefore, Hnis. repeat split; try done.
    + f_equal. f_equal. apply alist_set_after.
      * apply Forall2_cons_inv_r in Hb as ([k1 h1] & ? & [Hk1 _] & Hb & ->).
        apply Forall2_cons_inv_r in Hb as ([k2 h2] & ? & [Hk2 _] & Hb & ->).
        apply Forall2_nil_inv_r in Hb as ->. cbn [fst snd] in *. subst.
        inversion_clear Hfield as [|? ? H1 Hfield'].
        inversion_clear Hfield' as [|? ? H2 _].
        by repeat constructor.
      * inversion_clear Hfield as [|? ? _ Hfield'].
        inversion_clear Hfield' as [|? ? _ Hfield''].
        by inversion_clear Hfield''.
    + by apply alist_set_repr.
  - apply sim_ret. by exists before, after.
Qed.

Lemma sim_instance sc hraw raw :
  s0 ⊆ sc → repr s0 hraw raw →
  sim s0 sc (Heap.from_raw_data_to_instance hraw)
    (from_raw_data_to_instance raw)
    (λ hv i sc', s0 ⊆ sc' ∧ repr_instance s0 sc' hv i).
Proof.
  intros Hs Hraw.
  unfold Heap.from_raw_data_to_instance, from_raw_data_to_instance.
  destruct (alloc_fresh sc (Heap.OList []) Hs) as (Halloc & Hlp & Hlp0 & Hs1).
  eapply sim_heap_step; [exact Halloc|]. clear Halloc.
  set (lp := fresh (dom sc)) in *.
  eapply sim_bind; [by apply sim_getitem|]. intros hifs ifs ? [-> Hifs].
  eapply sim_bind; [by apply sim_py_iter|]. intros hxs xs ? [-> Hxs].
  eapply sim_bind.
  { apply (sim_interfaces lp hxs xs Hlp0 Hxs _ []).
    split; [done|]. exists []. split; [apply lookup_insert_eq|constructor]. }
  cbn [app]. intros _ nis sc2 (Hs2 & hs & Hlp2 & Hnis).
  clearbody lp. clear Hs1 Hlp Hs.
  do 11 (eapply sim_bind; [by apply sim_getitem|]; intros ? ? ? [-> ?]).
  match goal with
  | |- sim _ _ (Heap.alloc ?o ≫= _) _ _ =>
      destruct (alloc_fresh sc2 o Hs2) as (Halloc & Hl & Hl0 & Hs3)
  end.
  eapply sim_heap_step; [exact Halloc|]. clear Halloc.
  set (l := fresh (dom sc2)) in *.
  match goal with
  | |- sim _ _ _ (mbind _ (assign_if_present _ _ _ ?i0)) _ =>
      assert (Hfill : filling_instance s0 sc2 l lp nis i0
                (<[l := Heap.OObject "Instance"
                     ([("image_id", a); ("instance_id", a0)]
                      ++ ("network_interfaces", Heap.HRef lp)
                      :: [("state", a1); ("launch_time", a2); ("tags", a3);
                          ("cpu_details", a4); ("instance_type", a5);
                          ("security_groups", a6); ("client_token", a7);
                          ("state_transition_reason", a8);
                          ("root_device_name", a9);
                          ("ram_disk_id", Heap.HStr "");
                          ("platform", Heap.HStr "");
                          ("kernel_id", Heap.HStr "");
                          ("Host_id", Heap.HStr "")])]> sc2))
        by (eexists _, _; repeat split; repeat constructor; done)
  end.
  cbn [app] in Hfill.
  do 4 (eapply sim_bind with
          (R := λ _ i' sc', filling_instance s0 sc2 l lp nis i' sc');
        [ apply (sim_assign_if_present sc2); try done; by repeat constructor
        | clear Hfill; intros _ ? ? Hfill ]).
  apply sim_ret.
  split; [exact (filling_instance_subseteq _ _ _ _ _ _ Hs2 Hl0 Hfill)|].
  destruct Hfill as (before & after & -> & Hb & Ha & Hp).
  assert (Hne : l ≠ lp) by (by intros Heq; rewrite Heq, Hlp2 in Hl).
  exists l, before, after, lp, hs. rewrite Hp.
  repeat split; try done.
  - apply lookup_insert_eq.
  - by rewrite lookup_insert_ne.
  - eapply Forall2_impl; [exact Hnis|]. intros h n Hn.
    by apply repr_interface_insert.
Qed.

End sim.

End Refinement.

(** On an argument that stands for the raw value, in any store, the
    store-level [from_raw_data_to_instance] and the value-level one emit
    the same diagnostics and either raise the same exception or return,
    the first an object that stands for the [Instance] the second
    returns. *)
Lemma store_embedding_refines (s : gmap Heap.loc Heap.obj) hraw raw :
  repr s hraw raw →
  sim s s (Heap.from_raw_data_to_instance hraw)
    (from_raw_data_to_instance raw)
    (λ hv i s', repr_instance s s' hv i).
Proof.
  intros Hraw. eapply Refinement.sim_mono.
  - by apply Refinement.sim_instance.
  - by intros hv i s' [_ Hi].
Qed.

(** The example store stands for the example record, so the two
    embeddings agree on it. *)
Lemma example_store_repr PublicIp :
  repr (Heap.example_store (Heap.HStr PublicIp)) (Heap.HRef 4%positive)
    (example_record
       [example_interface (VStr PublicIp) (VStr "") (VStr "10.0.0.5")]
       VNone (VDatetime 1609459200) VNone).
Proof.
  unfold example_record, example_fields, example_interface,
    example_association.
  repeat match goal with
  | |- Forall2 _ _ _ => constructor
  | |- _ ∧ _ => split; cbn [fst snd]
  | |- _ = _ => reflexivity
  | |- repr _ (Heap.HRef _) (VList _) => eapply repr_List; [reflexivity|]
  | |- repr _ (Heap.HRef _) (VDict _) => eapply repr_Dict; [reflexivity|]
  | |- repr _ _ _ => constructor
  end.
Qed.

Lemma example_store_refines PublicIp :
  sim (Heap.example_store (Heap.HStr PublicIp))
    (Heap.example_store (Heap.HStr PublicIp))
    (Heap.from_raw_data_to_instance (Heap.HRef 4%positive))
    (from_raw_data_to_instance
       (example_record
          [example_interface (VStr PublicIp) (VStr "") (VStr "10.0.0.5")]
          VNone (VDatetime 1609459200) VNone))
    (λ hv i s', repr_instance (Heap.example_store (Heap.HStr PublicIp)) s' hv i).
Proof. apply store_embedding_refines, example_store_repr. Qed.

(** ** The normalizer on every input *)

Lemma getitem_cases_or v k :
  (∃ x, getitem v k = mret x) ∨
  (getitem v k = raise (KeyError k) ∨ getitem v k = raise TypeError).
Proof.
  destruct v; simpl; eauto. destruct (dict_get d k); eauto.
Qed.

(** Closes a goal on a run that has raised: it has emitted nothing and the
    exception is [TypeError], [ValueError] or the [KeyError] of a key of
    one of the lists. *)
Ltac raised :=
  cbn [raise fst snd]; intros [= <-]; split; [reflexivity|];
  first [ by left
        | by right; left
        | right; right; eexists; split; [reflexivity|];
          unfold interface_record_keys, association_block_keys, required_keys;
          cbn [app]; by repeat constructor ].

(** One step through the lookups of the goal: the branch where the lookup
    succeeds goes on, the branches where it raises are closed by [tac]. *)
Ltac getitem_cases tac :=
  match goal with
  | |- context [getitem (VDict ?d) ?k] =>
      let E := fresh "E" in
      destruct (dict_get d k) eqn:E;
      [ rewrite (getitem_Some _ _ _ E), bind_ret
      | rewrite (getitem_None _ _ E), bind_raise; tac ]
  | |- context [getitem ?v ?k] =>
      is_var v; destruct v; try (cbn [getitem]; rewrite bind_raise; tac)
  end.

Lemma assign_address_Ok set v lv text n :
  ∃ n', (assign_address set v lv text n).2 = Ok n'.
Proof.
  unfold assign_address. destruct (ip_address v); simpl; eauto.
Qed.

(** The tail of [from_raw_data_to_network_interface], after line 104,
    never raises. *)
Lemma address_assignments_Ok n v6 pub priv :
  ∃ n',
    (parsed_interface ←
       (if truthy v6
        then assign_address set_ipv6_address v6 ERROR ipv6_invalid n
        else mret n);
     parsed_interface ←
       (if truthy pub
        then assign_address set_public_ip_address pub DEBUG
               public_ip_invalid parsed_interface
        else mret parsed_interface);
     parsed_interface ←
       (if truthy priv
        then assign_address set_private_ip_address priv ERROR
               private_ip_invalid parsed_interface
        else mret parsed_interface);
     mret parsed_interface).2 = Ok n'.
Proof.
  unfold assign_address, logging.
  destruct (truthy v6), (ip_address v6), (truthy pub), (ip_address pub),
    (truthy priv), (ip_address priv); simpl; eauto.
Qed.

(** A normalization of an interface record that raises has emitted
    nothing, and raises [TypeError], [ValueError] or the [KeyError] of a
    key the function reads. *)
Lemma from_raw_data_to_network_interface_Raise raw e :
  (from_raw_data_to_network_interface raw).2 = Raise e →
  (from_raw_data_to_network_interface raw).1 = [] ∧
  (e = TypeError ∨ e = ValueError ∨
   ∃ key, e = KeyError key ∧
          key ∈ (interface_record_keys ++ association_block_keys)%list).
Proof.
  unfold from_raw_data_to_network_interface.
  repeat getitem_cases raised.
  destruct (ip_address v8) as [a|];
    [rewrite bind_ret|rewrite bind_raise; raised].
  getitem_cases raised.
  match goal with
  | |- (?m).2 = _ → _ =>
      destruct (address_assignments_Ok
                  {| ip_owner_id := v; public_dns_name := v0;
                     mac_address := v1; network_interface_id := v2;
                     owner_id := v3; private_dns_name := v4;
                     subnet_id := v5; status := v6;
                     public_ip_address := None; ipv6_address := None;
                     private_ip_address := None |} v7 (VAddr a) v9)
        as [n' Hn']
  end.
  rewrite Hn'. discriminate.
Qed.

(** What [mapM] returns is made of what the function returns on each
    element, in order, and so are the events. *)
Lemma mapM_Ok_Forall2 {A B : Type} (f : A → M B) (l : list A) t k :
  mapM f l = (t, Ok k) →
  Forall2 (λ a b, (f a).2 = Ok b) l k ∧
  t = concat ((λ a, (f a).1) <$> l).
Proof.
  revert t k. induction l as [|x l IH]; intros t k; simpl.
  - intros [= <- <-]. by split.
  - intros (t1 & y & t2 & Hx & H & ->)%bind_Ok.
    apply bind_Ok in H as (t3 & k' & t4 & Hk & [= <- <-] & ->).
    destruct (IH _ _ Hk) as [Hf ->]. rewrite Hx, app_nil_r. cbn [fst].
    split; [|done]. constructor; [by rewrite Hx|done].
Qed.

(** The loop ends at the first element on which the function raises,
    with the events of the elements before it and its own. *)
Lemma mapM_first_failure_events {A B : Type} (f : A → M B) before x after e :
  Forall (λ a, ∃ y, (f a).2 = Ok y) before →
  (f x).2 = Raise e →
  mapM f (before ++ x :: after)
  = ((concat ((λ a, (f a).1) <$> before) ++ (f x).1)%list, Raise e).
Proof.
  intros Hb Hx. induction Hb as [|a before [y Ha] _ IH].
  - cbn [app mapM fmap list_fmap concat].
    destruct (f x) as [t [y|e']]; cbn [snd] in Hx; [discriminate Hx|].
    injection Hx as ->. by rewrite bind_Raise_l.
  - cbn [app mapM fmap list_fmap concat]. rewrite IH.
    destruct (f a) as [t r]. cbn [snd fst] in *. subst r.
    rewrite bind_Ok_l, bind_Raise_l. cbn [fst snd]. by rewrite app_assoc.
Qed.

(** A loop that raises does so on one of its elements. *)
Lemma mapM_Raise {A B : Type} (f : A → M B) (l : list A) e :
  (mapM f l).2 = Raise e → ∃ x, x ∈ l ∧ (f x).2 = Raise e.
Proof.
  induction l as [|x l IH]; [discriminate|].
  cbn [mapM]. destruct (f x) as [t [y|e']] eqn:Hx.
  - rewrite bind_Ok_l. cbn [snd].
    destruct (mapM f l) as [t' [k|e']]; [discriminate|].
    rewrite bind_Raise_l. cbn [snd]. intros [= ->].
    destruct IH as (x' & Hin & Hx'); [done|].
    exists x'. split; [by constructor|done].
  - rewrite bind_Raise_l. cbn [snd]. intros [= ->].
    exists x. split; [by constructor|by rewrite Hx].
Qed.

(** X5.  [from_raw_data_to_network_interface] builds an interface from
    exactly the arguments that are a mapping with the nine keys it reads,
    whose [Association] is a mapping with its three keys, and whose
    [PublicIp] value is accepted by [ip_address].  On every other
    argument it raises. *)
Theorem interface_built_iff raw :
  (∃ t n, from_raw_data_to_network_interface raw = (t, Ok n)) ↔
  ∃ d da owner dns mac nid own pdns subnet st v6 pub priv,
    raw = VDict d ∧
    interface_keys d da owner dns mac nid own pdns subnet st v6 pub priv ∧
    is_Some (ip_address pub).
Proof.
  split.
  - intros (t & n & H).
    apply from_raw_data_to_network_interface_Ok
      in H as (d & da & v6 & pub & priv & -> & K & _ & Hp & _).
    by exists d, da, (ip_owner_id n), (public_dns_name n), (mac_address n),
      (network_interface_id n), (owner_id n), (private_dns_name n),
      (subnet_id n), (status n), v6, pub, priv.
  - intros (d & da & owner & dns & mac & nid & own & pdns & subnet & st
            & v6 & pub & priv & -> & K & [a Ha]).
    rewrite (from_raw_data_to_network_interface_eq _ _ _ _ _ _ _ _ _ _ _ _ _ K),
      Ha.
    eauto.
Qed.

(** X6.  Whenever an interface is built, its eight plain attributes are
    the values found under their keys, and [public_ip_address] is the
    address [ip_address] returns for the [PublicIp] value: it is never the
    [None] the dataclass gives it by default. *)
Theorem interface_fields_verbatim raw t n :
  from_raw_data_to_network_interface raw = (t, Ok n) →
  ∃ association PublicIp a,
    getitem raw "Association" = mret association ∧
    getitem association "IpOwnerId" = mret (ip_owner_id n) ∧
    getitem association "PublicDnsName" = mret (public_dns_name n) ∧
    getitem raw "MacAddress" = mret (mac_address n) ∧
    getitem raw "NetworkInterfaceId" = mret (network_interface_id n) ∧
    getitem raw "OwnerId" = mret (owner_id n) ∧
    getitem raw "PrivateDnsName" = mret (private_dns_name n) ∧
    getitem raw "SubnetId" = mret (subnet_id n) ∧
    getitem raw "Status" = mret (status n) ∧
    getitem association "PublicIp" = mret PublicIp ∧
    ip_address PublicIp = Some a ∧
    public_ip_address n = Some a.
Proof.
  intros (d & da & v6 & pub & priv & -> & [] & Hpub & [a Ha] & _)
    %from_raw_data_to_network_interface_Ok.
  exists (VDict da), pub, a. rewrite Hpub.
  repeat split; try done; by apply getitem_Some.
Qed.

Lemma interface_fields_verbatim_witness :
  let raw := example_interface (VStr "198.51.100.5") (VStr "") (VStr "10.0.0.5") in
  let n :=
    {| ip_owner_id := VStr "o"; public_dns_name := VStr "";
       mac_address := VStr "00:00"; network_interface_id := VStr "eni-1";
       owner_id := VStr "o"; private_dns_name := VStr "";
       subnet_id := VStr "s-1"; status := VStr "in-use";
       public_ip_address :=
         Some (ipaddress.IPv4Address
                 (ipaddress.from_bytes_big [198; 51; 100; 5]));
       ipv6_address := None;
       private_ip_address :=
         Some (ipaddress.IPv4Address
                 (ipaddress.from_bytes_big [10; 0; 0; 5])) |} in
  from_raw_data_to_network_interface raw = ([], Ok n) ∧
  ∃ association PublicIp a,
    getitem raw "Association" = mret association ∧
    getitem association "IpOwnerId" = mret (ip_owner_id n) ∧
    getitem association "PublicDnsName" = mret (public_dns_name n) ∧
    getitem raw "MacAddress" = mret (mac_address n) ∧
    getitem raw "NetworkInterfaceId" = mret (network_interface_id n) ∧
    getitem raw "OwnerId" = mret (owner_id n) ∧
    getitem raw "PrivateDnsName" = mret (private_dns_name n) ∧
    getitem raw "SubnetId" = mret (subnet_id n) ∧
    getitem raw "Status" = mret (status n) ∧
    getitem association "PublicIp" = mret PublicIp ∧
    ip_address PublicIp = Some a ∧
    public_ip_address n = Some a.
Proof.
  intros raw n.
  assert (E : from_raw_data_to_network_interface raw = ([], Ok n))
    by (vm_compute; reflexivity).
  split; [exact E|].
  exact (interface_fields_verbatim raw [] n E).
Defined.

(** X7.  The provider lists the IPv6 addresses of an interface as a list.
    Whenever an interface is built from a record whose [Ipv6Addresses] is
    a list, [ipv6_address] is left absent: silently for the empty list,
    and with the [ERROR] diagnostic of line 109, completed by the
    interface id, for any other list. *)
Theorem list_valued_Ipv6Addresses_never_parsed raw t n l :
  from_raw_data_to_network_interface raw = (t, Ok n) →
  getitem raw "Ipv6Addresses" = mret (VList l) →
  ipv6_address n = None ∧
  (l = [] → Log ERROR ipv6_invalid (Some (network_interface_id n)) ∉ t) ∧
  (l ≠ [] → Log ERROR ipv6_invalid (Some (network_interface_id n)) ∈ t).
Proof.
  intros (d & da & v6 & pub & priv & -> & [] & _ & _ & -> & _ & ->)
    %from_raw_data_to_network_interface_Ok Hl.
  rewrite (getitem_Some _ _ _ key_Ipv6Addresses0) in Hl.
  injection Hl as ->.
  unfold parsed_address, diagnostic. cbn [truthy ip_address].
  split; [by destruct (negb _)|].
  split.
  - intros ->. cbn [negb bool_decide decide_rel app].
    rewrite bool_decide_true by done. cbn [negb app].
    destruct (truthy priv), (ip_address priv);
      try (by intros ?%elem_of_nil);
      by intros [[=]|?%elem_of_nil]%elem_of_cons.
  - intros Hne. rewrite bool_decide_false by done. cbn [negb].
    apply elem_of_app. left. by constructor.
Qed.

Lemma list_valued_Ipv6Addresses_never_parsed_witness :
  let Ipv6Addresses := VList [VDict [("Ipv6Address", VStr "2001:db8::1")]] in
  let raw :=
    example_interface (VStr "198.51.100.5") Ipv6Addresses (VStr "") in
  let n :=
    {| ip_owner_id := VStr "o"; public_dns_name := VStr "";
       mac_address := VStr "00:00"; network_interface_id := VStr "eni-1";
       owner_id := VStr "o"; private_dns_name := VStr "";
       subnet_id := VStr "s-1"; status := VStr "in-use";
       public_ip_address :=
         Some (ipaddress.IPv4Address
                 (ipaddress.from_bytes_big [198; 51; 100; 5]));
       ipv6_address := None; private_ip_address := None |} in
  let t := [Log ERROR ipv6_invalid (Some (VStr "eni-1"))] in
  from_raw_data_to_network_interface raw = (t, Ok n) ∧
  ipv6_address n = None ∧
  Log ERROR ipv6_invalid (Some (network_interface_id n)) ∈ t.
Proof.
  intros Ipv6Addresses raw n t.
  assert (E : from_raw_data_to_network_interface raw = (t, Ok n))
    by (vm_compute; reflexivity).
  split; [exact E|].
  destruct (list_valued_Ipv6Addresses_never_parsed raw t n
              [VDict [("Ipv6Address", VStr "2001:db8::1")]] E eq_refl)
    as (H1 & _ & H2).
  split; [exact H1|]. by apply H2.
Defined.

(** X8.  On every argument, an exception that leaves
    [from_raw_data_to_network_interface] is a [TypeError] (something that
    is not a mapping was subscripted), the [ValueError] of line 103, or
    the [KeyError] of one of the twelve keys the function reads. *)
Theorem interface_exceptions raw e :
  (from_raw_data_to_network_interface raw).2 = Raise e →
  e = TypeError ∨ e = ValueError ∨
  ∃ key, e = KeyError key ∧
         key ∈ (interface_record_keys ++ association_block_keys)%list.
Proof. by intros [_ H]%from_raw_data_to_network_interface_Raise. Qed.

Lemma interface_exceptions_witness :
  (from_raw_data_to_network_interface (VDict [("Association", VDict [])])).2
  = Raise (KeyError "IpOwnerId") ∧
  (KeyError "IpOwnerId" = TypeError ∨ KeyError "IpOwnerId" = ValueError ∨
   ∃ key, KeyError "IpOwnerId" = KeyError key ∧
          key ∈ (interface_record_keys ++ association_block_keys)%list).
Proof.
  split; [reflexivity|].
  apply (interface_exceptions (VDict [("Association", VDict [])])).
  reflexivity.
Defined.

(** X9.  On every argument, [from_raw_data_to_network_interface] emits at
    most two diagnostics; each is an [ERROR] record, about [ipv6_address]
    or about [private_ip_address], completed by the value under
    [NetworkInterfaceId]; a run that raises has emitted none.  The [DEBUG]
    record of line 116 is never emitted: the value parsed at line 114 is
    the address object line 103 returned. *)
Theorem interface_diagnostics_bounded raw :
  let run := from_raw_data_to_network_interface raw in
  (length run.1 ≤ 2)%nat ∧
  (∀ e, run.2 = Raise e → run.1 = []) ∧
  Forall (λ ev, ∃ text nid,
            ev = Log ERROR text (Some nid) ∧
            (text = ipv6_invalid ∨ text = private_ip_invalid) ∧
            getitem raw "NetworkInterfaceId" = mret nid)
    run.1.
Proof.
  intros run. subst run.
  destruct (from_raw_data_to_network_interface raw) as [t [n|e]] eqn:H.
  - apply from_raw_data_to_network_interface_Ok
      in H as (d & da & v6 & pub & priv & -> & [] & _ & _ & _ & _ & ->).
    cbn [fst snd]. unfold diagnostic.
    rewrite (getitem_Some _ _ _ key_NetworkInterfaceId0).
    destruct (truthy v6), (ip_address v6), (truthy priv), (ip_address priv);
      cbn [app length];
      (split; [lia|]); (split; [discriminate|]);
      repeat constructor; eauto 10.
  - pose proof (from_raw_data_to_network_interface_Raise raw e) as Hr.
    rewrite H in Hr. cbn [fst snd] in *.
    destruct (Hr eq_refl) as [-> _].
    split; [simpl; lia|]. split; [done|constructor].
Qed.

(** X10.  [from_raw_data_to_network_interface] reads nothing but its twelve
    keys: two interface records that agree on the values of the
    interface-level keys, and whose association blocks agree on the values
    of theirs, have the same outcome, diagnostics included. *)
Theorem interface_reads_only_its_keys d d' da da' :
  dict_get d "Association" = Some (VDict da) →
  dict_get d' "Association" = Some (VDict da') →
  (∀ key, key ∈ association_block_keys →
          dict_get da' key = dict_get da key) →
  (∀ key, key ∈ interface_record_keys → key ≠ "Association" →
          dict_get d' key = dict_get d key) →
  from_raw_data_to_network_interface (VDict d')
  = from_raw_data_to_network_interface (VDict d).
Proof.
  intros Ha Ha' Hda Hd.
  unfold from_raw_data_to_network_interface. cbn [getitem].
  rewrite Ha, Ha', !bind_ret. cbn [getitem].
  repeat match goal with
  | |- context [dict_get da' ?k] =>
      rewrite (Hda k) by (unfold association_block_keys; repeat constructor)
  | |- context [dict_get d' ?k] =>
      rewrite (Hd k)
        by (first [ discriminate
                  | unfold interface_record_keys; repeat constructor ])
  end.
  reflexivity.
Qed.

Lemma interface_reads_only_its_keys_witness :
  let da := [("IpOwnerId", VStr "o"); ("PublicDnsName", VStr "");
             ("PublicIp", VStr "198.51.100.5")] in
  let d := [("Association", VDict da);
            ("MacAddress", VStr "00:00"); ("NetworkInterfaceId", VStr "eni-1");
            ("OwnerId", VStr "o"); ("PrivateDnsName", VStr "");
            ("SubnetId", VStr "s-1"); ("Status", VStr "in-use");
            ("Ipv6Addresses", VStr ""); ("PrivateIpAddress", VStr "10.0.0.5")] in
  from_raw_data_to_network_interface
    (VDict (("Description", VStr "primary")
            :: ("Association", VDict (("CarrierIp", VStr "") :: da))
            :: d))
  = from_raw_data_to_network_interface (VDict d).
Proof.
  intros da d.
  apply (interface_reads_only_its_keys d _ da (("CarrierIp", VStr "") :: da));
    try reflexivity.
  - intros key Hin. unfold association_block_keys in Hin.
    repeat (apply elem_of_cons in Hin as [->|Hin]); try reflexivity.
    by apply elem_of_nil in Hin.
  - intros key Hin Hne. unfold interface_record_keys in Hin.
    repeat (apply elem_of_cons in Hin as [->|Hin]); try reflexivity.
    + by destruct Hne.
    + by apply elem_of_nil in Hin.
Defined.

(** ** The normalizer of instance records on every input *)

(** X11.  Whenever an [Instance] is built, its [network_interfaces] are
    the interfaces [from_raw_data_to_network_interface] builds from the
    elements of [NetworkInterfaces], one per element and in their order,
    and the diagnostics of the run are those of the elements, in the same
    order: normalizing an instance record adds no diagnostic of its
    own. *)
Theorem interfaces_normalized_in_order raw t i :
  from_raw_data_to_instance raw = (t, Ok i) →
  ∃ interfaces l,
    getitem raw "NetworkInterfaces" = mret interfaces ∧
    py_iter interfaces = mret l ∧
    Forall2 (λ interface n,
               (from_raw_data_to_network_interface interface).2 = Ok n)
      l (network_interfaces i) ∧
    t = concat ((λ interface,
                   (from_raw_data_to_network_interface interface).1) <$> l).
Proof.
  intros (d & v & l & -> & [] & Hl & Hm & _)%from_raw_data_to_instance_Ok.
  exists v, l. split; [by apply getitem_Some|]. split; [done|].
  by apply mapM_Ok_Forall2.
Qed.

Lemma interfaces_normalized_in_order_witness :
  let first := example_interface (VStr "198.51.100.5") (VStr "x") (VStr "") in
  let second := example_interface (VStr "198.51.100.6") (VStr "") (VStr "y") in
  let raw := example_record [first; second] (VDict [])
               (VDatetime 1609459200) (VDict []) in
  ∃ i n1 n2,
    network_interfaces i = [n1; n2] ∧
    (from_raw_data_to_network_interface first).2 = Ok n1 ∧
    (from_raw_data_to_network_interface second).2 = Ok n2 ∧
    from_raw_data_to_instance raw
    = ([Log ERROR ipv6_invalid (Some (VStr "eni-1"));
        Log ERROR private_ip_invalid (Some (VStr "eni-1"))], Ok i).
Proof.
  intros first second raw.
  destruct (from_raw_data_to_instance raw) as [t [i|e]] eqn:E;
    [|exfalso; vm_compute in E; discriminate E].
  destruct (interfaces_normalized_in_order raw t i E)
    as (interfaces & l & Hi & Hl & Hf & Ht).
  injection Hi as <-. injection Hl as <-.
  apply Forall2_cons_inv_l in Hf as (n1 & k & H1 & Hf & Hk).
  apply Forall2_cons_inv_l in Hf as (n2 & k' & H2 & Hf & ->).
  apply Forall2_nil_inv_l in Hf as ->.
  exists i, n1, n2. repeat split; try done.
  f_equal. rewrite Ht. vm_compute. reflexivity.
Defined.

(** X12.  On every argument, an exception that leaves
    [from_raw_data_to_instance] is a [TypeError], the [ValueError] of line
    103, or the [KeyError] of a required key of the record or of a key of
    one of its interface records.  No exception names an optional key. *)
Theorem instance_exceptions raw e :
  (from_raw_data_to_instance raw).2 = Raise e →
  e = TypeError ∨ e = ValueError ∨
  ∃ key, e = KeyError key ∧
         key ∈ (required_keys ++ interface_record_keys
                ++ association_block_keys)%list ∧
         key ∉ optional_keys.
Proof.
  assert (Hopt : ∀ key,
            key ∈ (required_keys ++ interface_record_keys
                   ++ association_block_keys)%list →
            key ∉ optional_keys).
  { intros key Hin Hopt.
    unfold required_keys, interface_record_keys, association_block_keys,
      optional_keys in *. cbn [app] in Hin.
    repeat (apply elem_of_cons in Hin as [->|Hin]);
      try (by apply elem_of_nil in Hin);
      repeat (apply elem_of_cons in Hopt as [[=]|Hopt]);
      by apply elem_of_nil in Hopt. }
  pose (finish := λ (key : string)
                    (H : key ∈ (required_keys ++ interface_record_keys
                                ++ association_block_keys)%list),
          conj H (Hopt key H)).
  unfold from_raw_data_to_instance.
  getitem_cases ltac:(cbn [raise snd]; intros [= <-]; by left).
  getitem_cases ltac:(cbn [raise snd]; intros [= <-]; right; right;
                      exists "NetworkInterfaces"; split; [done|];
                      apply finish; by repeat constructor).
  destruct (py_iter_cases v) as [[l ->]| ->];
    [rewrite bind_ret|rewrite bind_raise; intros [= <-]; by left].
  destruct (mapM from_raw_data_to_network_interface l) as [t [nis|e']] eqn:Hm.
  - rewrite bind_Ok_l. cbn [snd].
    repeat getitem_cases
      ltac:(cbn [raise snd]; intros [= <-]; right; right;
            eexists; split; [reflexivity|];
            apply finish; unfold required_keys; cbn [app];
            by repeat constructor).
    repeat rewrite assign_if_present_dict, bind_ret. discriminate.
  - rewrite bind_Raise_l. cbn [snd]. intros [= <-].
    destruct (mapM_Raise from_raw_data_to_network_interface l e')
      as (x & _ & Hx); [by rewrite Hm|].
    apply from_raw_data_to_network_interface_Raise
      in Hx as [_ [->|[->|(key & -> & Hin)]]]; [by left|by right; left|].
    right; right. exists key. split; [done|].
    apply finish, elem_of_app. by right.
Qed.

Lemma instance_exceptions_witness :
  (from_raw_data_to_instance
     (VDict [("NetworkInterfaces", VList [VDict []]);
             ("RamdiskId", VStr "ari-1")])).2
  = Raise (KeyError "Association") ∧
  (KeyError "Association" = TypeError ∨ KeyError "Association" = ValueError ∨
   ∃ key, KeyError "Association" = KeyError key ∧
          key ∈ (required_keys ++ interface_record_keys
                 ++ association_block_keys)%list ∧
          key ∉ optional_keys).
Proof.
  split; [reflexivity|].
  apply (instance_exceptions
           (VDict [("NetworkInterfaces", VList [VDict []]);
                   ("RamdiskId", VStr "ari-1")])).
  reflexivity.
Defined.

(** X13.  [from_raw_data_to_instance] reads nothing in its argument but the
    twelve required keys and the four optional ones: two raw records that
    agree on those sixteen keys have the same outcome, whatever else they
    hold. *)
Theorem instance_reads_only_its_keys d d' :
  (∀ key, key ∈ (required_keys ++ optional_keys)%list →
          dict_get d' key = dict_get d key) →
  from_raw_data_to_instance (VDict d') = from_raw_data_to_instance (VDict d).
Proof.
  intros Hd.
  unfold from_raw_data_to_instance, assign_if_present. cbn [getitem contains].
  repeat match goal with
  | |- context [dict_get d' ?k] =>
      rewrite (Hd k)
        by (unfold required_keys, optional_keys; cbn [app];
            repeat constructor)
  end.
  reflexivity.
Qed.

Lemma instance_reads_only_its_keys_witness :
  let d := ("ImageId", VStr "ami-1")
           :: example_fields [] (VDict []) (VDatetime 1609459200) (VDict []) in
  from_raw_data_to_instance
    (VDict (("Placement", VDict [("AvailabilityZone", VStr "us-east-2a")])
            :: ("Architecture", VStr "x86_64") :: d))
  = from_raw_data_to_instance (VDict d).
Proof.
  intros d.
  apply (instance_reads_only_its_keys d).
  intros key Hin. unfold required_keys, optional_keys in Hin.
  cbn [app] in Hin.
  repeat (apply elem_of_cons in Hin as [->|Hin]); try reflexivity.
  by apply elem_of_nil in Hin.
Defined.

(** X14.  The interface records are normalized before any other key of
    the record is read: when the interface records before one normalize
    and that one raises, [from_raw_data_to_instance] raises its exception
    and has emitted the diagnostics of the interfaces before it, whatever
    the other keys of the record are, missing ones included. *)
Theorem first_failing_interface raw interfaces before interface after e :
  getitem raw "NetworkInterfaces" = mret interfaces →
  py_iter interfaces = mret (before ++ interface :: after)%list →
  Forall (λ x, ∃ n, (from_raw_data_to_network_interface x).2 = Ok n) before →
  (from_raw_data_to_network_interface interface).2 = Raise e →
  from_raw_data_to_instance raw
  = (concat ((λ x, (from_raw_data_to_network_interface x).1) <$> before),
     Raise e).
Proof.
  intros Hi Hl Hb Hx. unfold from_raw_data_to_instance.
  rewrite Hi, bind_ret, Hl, bind_ret.
  rewrite (mapM_first_failure_events _ _ _ _ _ Hb Hx).
  destruct (from_raw_data_to_network_interface_Raise _ _ Hx) as [-> _].
  by rewrite app_nil_r, bind_Raise_l.
Qed.

Lemma first_failing_interface_witness :
  let first := example_interface (VStr "198.51.100.5") (VStr "x") (VStr "") in
  let second := example_interface (VStr "") (VStr "") (VStr "") in
  from_raw_data_to_instance
    (VDict [("NetworkInterfaces", VList [first; second; VNone])])
  = ([Log ERROR ipv6_invalid (Some (VStr "eni-1"))], Raise ValueError).
Proof.
  intros first second.
  apply (first_failing_interface
           (VDict [("NetworkInterfaces", VList [first; second; VNone])])
           (VList [first; second; VNone]) [first] second [VNone] ValueError).
  - reflexivity.
  - reflexivity.
  - repeat constructor. eexists. vm_compute. reflexivity.
  - vm_compute. reflexivity.
Defined.

Lemma mapM_Forall_Ok {A B : Type} (f : A → M B) (l : list A) :
  Forall (λ a, ∃ t b, f a = (t, Ok b)) l → ∃ t k, mapM f l = (t, Ok k).
Proof.
  induction 1 as [|a l (t & b & Ha) _ (t' & k & Hk)]; [by exists [], []|].
  exists (t ++ t')%list, (b :: k). cbn [mapM].
  rewrite Ha, bind_Ok_l, Hk, bind_Ok_l. cbn [fst snd mret M_ret].
  by rewrite app_nil_r.
Qed.

(** X15.  [from_raw_data_to_instance] builds an [Instance] from exactly
    the arguments that are a mapping with the twelve required keys, whose
    [NetworkInterfaces] can be iterated over, and all of whose elements
    [from_raw_data_to_network_interface] builds an interface from.  On
    every other argument it raises. *)
Theorem instance_built_iff raw :
  (∃ t i, from_raw_data_to_instance raw = (t, Ok i)) ↔
  ∃ d interfaces l image inst st lt tg cpu ty sg ct str rdn,
    raw = VDict d ∧
    instance_keys d interfaces image inst st lt tg cpu ty sg ct str rdn ∧
    py_iter interfaces = mret l ∧
    Forall (λ interface,
              ∃ t n, from_raw_data_to_network_interface interface = (t, Ok n))
      l.
Proof.
  split.
  - intros (t & i & H).
    apply from_raw_data_to_instance_Ok
      in H as (d & interfaces & l & -> & K & Hl & Hm & _).
    exists d, interfaces, l, (image_id i), (instance_id i), (state i),
      (launch_time i), (tags i), (cpu_details i), (instance_type i),
      (security_groups i), (client_token i), (state_transition_reason i),
      (root_device_name i).
    split; [done|]. split; [done|]. split; [done|].
    apply mapM_Ok_Forall2 in Hm as [Hf _].
    clear Hl.
    induction Hf as [|x n l k Hx _ IH]; [constructor|].
    constructor; [|done].
    destruct (from_raw_data_to_network_interface x) as [t' r].
    cbn [snd] in Hx. subst r. eauto.
  - intros (d & interfaces & l & image & inst & st & lt & tg & cpu & ty & sg
            & ct & str & rdn & -> & K & Hl & Hf).
    rewrite (from_raw_data_to_instance_eq _ _ _ _ _ _ _ _ _ _ _ _ _ _ K Hl).
    destruct (mapM_Forall_Ok _ _ Hf) as (t & k & ->). eauto.
Qed.

(** ** Witnesses of the lemmas on missing keys and guarded fields *)

(** The example record without its [State]. *)
Lemma missing_instance_key_witness :
  (from_raw_data_to_instance
     (VDict (dict_delete "State"
               (("ImageId", VStr "ami-1")
                :: example_fields
                     [example_interface (VStr "198.51.100.5") (VStr "")
                        (VStr "10.0.0.5")]
                     (VDict []) (VDatetime 1609459200) (VDict []))))).2
  = Raise (KeyError "State").
Proof.
  eapply (missing_instance_key _ [] _ "State").
  - vm_compute. reflexivity.
  - by repeat constructor.
Defined.

(** The example interface record without its [SubnetId]. *)
Lemma missing_interface_key_witness :
  from_raw_data_to_network_interface
    (VDict (dict_delete "SubnetId"
              [("Association", example_association (VStr "198.51.100.5"));
               ("MacAddress", VStr "00:00");
               ("NetworkInterfaceId", VStr "eni-1");
               ("OwnerId", VStr "o"); ("PrivateDnsName", VStr "");
               ("SubnetId", VStr "s-1"); ("Status", VStr "in-use");
               ("Ipv6Addresses", VStr "");
               ("PrivateIpAddress", VStr "10.0.0.5")]))
  = ([], Raise (KeyError "SubnetId")).
Proof.
  eapply (missing_interface_key _ [] _ "SubnetId").
  - vm_compute. reflexivity.
  - by repeat constructor.
Defined.

(** The example interface record with an association block that has lost
    its [PublicDnsName]. *)
Lemma missing_association_key_witness :
  let da := [("IpOwnerId", VStr "o"); ("PublicDnsName", VStr "");
             ("PublicIp", VStr "198.51.100.5")] in
  let d := [("Association", VDict da);
            ("MacAddress", VStr "00:00"); ("NetworkInterfaceId", VStr "eni-1");
            ("OwnerId", VStr "o"); ("PrivateDnsName", VStr "");
            ("SubnetId", VStr "s-1"); ("Status", VStr "in-use");
            ("Ipv6Addresses", VStr ""); ("PrivateIpAddress", VStr "10.0.0.5")] in
  from_raw_data_to_network_interface
    (VDict (("Association", VDict (dict_delete "PublicDnsName" da)) :: d))
  = ([], Raise (KeyError "PublicDnsName")).
Proof.
  intros da d.
  eapply (missing_association_key d da [] _ "PublicDnsName").
  - vm_compute. reflexivity.
  - reflexivity.
  - by repeat constructor.
Defined.

(** An interface record with an [Ipv6Addresses] that does not parse and
    an empty [PrivateIpAddress]. *)
Lemma guarded_address_fields_witness :
  let raw :=
    example_interface (VStr "198.51.100.5") (VStr "not-an-ip") (VStr "") in
  let t := [Log ERROR ipv6_invalid (Some (VStr "eni-1"))] in
  let n :=
    {| ip_owner_id := VStr "o"; public_dns_name := VStr "";
       mac_address := VStr "00:00"; network_interface_id := VStr "eni-1";
       owner_id := VStr "o"; private_dns_name := VStr "";
       subnet_id := VStr "s-1"; status := VStr "in-use";
       public_ip_address :=
         Some (ipaddress.IPv4Address
                 (ipaddress.from_bytes_big [198; 51; 100; 5]));
       ipv6_address := None; private_ip_address := None |} in
  from_raw_data_to_network_interface raw = (t, Ok n) ∧
  ∃ d v6 priv,
    raw = VDict d ∧
    dict_get d "Ipv6Addresses" = Some v6 ∧
    dict_get d "PrivateIpAddress" = Some priv ∧
    (truthy v6 = false → ipv6_address n = None) ∧
    (∀ a, truthy v6 = true → ip_address v6 = Some a →
          ipv6_address n = Some a) ∧
    (truthy v6 = true → ip_address v6 = None → ipv6_address n = None) ∧
    (truthy priv = false → private_ip_address n = None) ∧
    (∀ a, truthy priv = true → ip_address priv = Some a →
          private_ip_address n = Some a) ∧
    (truthy priv = true → ip_address priv = None →
     private_ip_address n = None) ∧
    t = (diagnostic ERROR ipv6_invalid v6 (network_interface_id n)
         ++ diagnostic ERROR private_ip_invalid priv
              (network_interface_id n))%list.
Proof.
  intros raw t n.
  assert (E : from_raw_data_to_network_interface raw = (t, Ok n))
    by (vm_compute; reflexivity).
  split; [exact E|].
  exact (guarded_address_fields raw t n E).
Defined.

(** ** Listings that fail *)

(** Extracting the records of a response emits nothing. *)
Lemma extend_from_response_silent response :
  (extend_from_response response).1 = [].
Proof.
  pose proof (extend_from_response_emits (λ _, False) response) as H.
  unfold emits in H. destruct H as [|ev t Hev _]; [done|destruct Hev].
Qed.

(** The loop, entered with a page that carries a token, on a script of
    pages that all carry one followed by an outcome that fails. *)
Lemma paginate_failure responses tokens recordss outcome e rest :
  Forall3 (λ response token records, is_page response records (Some token))
    responses tokens recordss →
  page_fails outcome e →
  ∀ response records token instances,
    is_page response records (Some token) →
    paginate ((Ok <$> responses) ++ outcome :: rest)%list response instances
    = ((λ token, DescribeInstances (Some token)) <$> token :: tokens,
       Raise e).
Proof.
  intros Hs Hf.
  induction Hs as [|response' token' records' responses tokens recordss Hp' _ IH];
    intros response records token instances Hp.
  - cbn [fmap list_fmap app paginate].
    destruct (is_page_more _ _ _ Hp) as [-> ->].
    rewrite !bind_ret, bind_emit.
    destruct outcome as [response'|e']; cbn [page_fails] in Hf.
    + pose proof (extend_from_response_silent response') as Hsil.
      destruct (extend_from_response response') as [t [more|e']];
        cbn [fst snd] in *; [discriminate Hf|].
      injection Hf as ->. subst t. reflexivity.
    + subst e'. reflexivity.
  - cbn [fmap list_fmap app paginate].
    destruct (is_page_more _ _ _ Hp) as [-> ->].
    rewrite !bind_ret, bind_emit, (is_page_extend _ _ _ Hp'), bind_ret.
    rewrite (IH _ _ _ _ Hp'). reflexivity.
Qed.

(** X16.  A listing is all or nothing.  After any number of pages that
    carry a continuation token, a call of [describe_instances] that
    raises, or a response out of which the records cannot be extracted,
    ends [describe_instances_paginated] with that exception: the records
    of the pages already fetched are not returned, and no further call is
    issued. *)
Theorem failed_page_ends_listing responses tokens recordss outcome e rest :
  Forall3 (λ response token records, is_page response records (Some token))
    responses tokens recordss →
  page_fails outcome e →
  describe_instances_paginated ((Ok <$> responses) ++ outcome :: rest)%list
  = (DescribeInstances None
       :: ((λ token, DescribeInstances (Some token)) <$> tokens),
     Raise e).
Proof.
  intros Hs Hf.
  destruct Hs as [|response token records responses tokens recordss Hp Hs].
  - cbn [fmap list_fmap app]. unfold describe_instances_paginated.
    unfold describe_instances. rewrite bind_emit.
    destruct outcome as [response|e']; cbn [page_fails] in Hf.
    + cbn [mret M_ret fst snd]. rewrite bind_Ok_l.
      pose proof (extend_from_response_silent response) as Hsil.
      destruct (extend_from_response response) as [t [more|e']];
        cbn [fst snd] in *; [discriminate Hf|].
      injection Hf as ->. subst t. reflexivity.
    + subst e'. reflexivity.
  - cbn [fmap list_fmap app]. unfold describe_instances_paginated.
    unfold describe_instances. rewrite bind_emit.
    cbn [mret M_ret fst snd]. rewrite bind_Ok_l.
    rewrite (is_page_extend _ _ _ Hp), bind_ret.
    rewrite (paginate_failure _ _ _ _ _ _ Hs Hf _ _ _ _ Hp). reflexivity.
Qed.

(** Two pages with a token, then a response without [Reservations]: three
    calls, the [KeyError], and none of the three records of the first two
    pages. *)
Lemma failed_page_ends_listing_witness :
  let page1 := example_page [[VStr "r1"]; [VStr "r2"]] (Some (VStr "t1")) in
  let page2 := example_page [[VStr "r3"]] (Some (VStr "t2")) in
  describe_instances_paginated [Ok page1; Ok page2; Ok (VDict [])]
  = ([DescribeInstances None; DescribeInstances (Some (VStr "t1"));
      DescribeInstances (Some (VStr "t2"))],
     Raise (KeyError "Reservations")).
Proof.
  intros page1 page2.
  apply (failed_page_ends_listing [page1; page2] [VStr "t1"; VStr "t2"]
           [[VStr "r1"; VStr "r2"]; [VStr "r3"]] (Ok (VDict []))
           (KeyError "Reservations") []).
  - constructor; [apply (example_page_is_page [[VStr "r1"]; [VStr "r2"]])|].
    constructor; [apply (example_page_is_page [[VStr "r3"]])|].
    constructor.
  - reflexivity.
Defined.

(** ** The calls of a listing *)

Lemma paginate_calls c :
  ∀ response instances,
  ∃ tokens,
    (paginate c response instances).1
    = ((λ token, DescribeInstances (Some token)) <$> tokens) ∧
    Forall2 (λ outcome token,
               ∃ response, outcome = Ok response ∧
                           getitem response "NextToken" = mret token)
      (take (length tokens) (Ok response :: c)) tokens.
Proof.
  assert (Hnone : ∀ (m : M (list value)) response c',
            m.1 = [] →
            ∃ tokens,
              m.1 = ((λ token, DescribeInstances (Some token)) <$> tokens) ∧
              Forall2 (λ outcome token,
                         ∃ response, outcome = Ok response ∧
                                     getitem response "NextToken" = mret token)
                (take (length tokens) (Ok response :: c')) tokens).
  { intros m response c' ->. exists []. split; [done|constructor]. }
  assert (Hone : ∀ (m : M (list value)) response token c',
            getitem response "NextToken" = mret token →
            m.1 = [DescribeInstances (Some token)] →
            ∃ tokens,
              m.1 = ((λ token, DescribeInstances (Some token)) <$> tokens) ∧
              Forall2 (λ outcome token,
                         ∃ response, outcome = Ok response ∧
                                     getitem response "NextToken" = mret token)
                (take (length tokens) (Ok response :: c')) tokens).
  { intros m response token c' Hg ->. exists [token]. split; [done|].
    cbn [length take]. rewrite take_0. repeat constructor. eauto. }
  assert (Hsilent : ∀ response, (contains "NextToken" response).1 = [])
    by (by intros []).
  induction c as [|[response'|e] c IH]; intros response instances;
    cbn [paginate];
    pose proof (Hsilent response) as Hs;
    (destruct (contains "NextToken" response) as [t [[]|e']];
     cbn [fst] in Hs; subst t;
     [rewrite bind_Ok_l; cbn [app]
     |apply Hnone; by rewrite bind_Ok_l
     |by apply Hnone]);
    (destruct (getitem_cases_or response "NextToken") as [[token Hg]|Hg];
     [rewrite Hg, bind_ret, bind_emit
     |apply Hnone; by destruct Hg as [-> | ->]]).
  - by apply (Hone _ _ token).
  - pose proof (extend_from_response_silent response') as Hsil.
    destruct (extend_from_response response') as [t [more|e]];
      cbn [fst snd] in Hsil; subst t.
    + rewrite bind_Ok_l. cbn [app fst snd].
      destruct (IH response' (instances ++ more)%list) as (tokens & Ht & Hf).
      exists (token :: tokens). cbn [fmap list_fmap fst]. rewrite Ht.
      split; [done|]. cbn [length take]. constructor; [eauto|done].
    + by apply (Hone _ _ token).
  - by apply (Hone _ _ token).
Qed.

(** X17.  On every script of outcomes, well-formed or not, the calls of
    [describe_instances_paginated] are one call without a token followed
    by calls that each carry the value found under [NextToken] in the
    response to the call before; nothing else is emitted. *)
Theorem calls_follow_tokens c :
  ∃ tokens,
    (describe_instances_paginated c).1
    = DescribeInstances None
        :: ((λ token, DescribeInstances (Some token)) <$> tokens) ∧
    Forall2 (λ outcome token,
               ∃ response, outcome = Ok response ∧
                           getitem response "NextToken" = mret token)
      (take (length tokens) c) tokens.
Proof.
  unfold describe_instances_paginated, describe_instances.
  rewrite bind_emit.
  destruct c as [|[response|e] c].
  - exists []. split; [done|constructor].
  - cbn [mret M_ret fst snd]. rewrite bind_Ok_l.
    pose proof (extend_from_response_silent response) as Hsil.
    destruct (extend_from_response response) as [t [instances|e]];
      cbn [fst snd] in Hsil; subst t.
    + rewrite bind_Ok_l. cbn [app fst snd].
      destruct (paginate_calls c response instances) as (tokens & -> & Hf).
      by exists tokens.
    + exists []. split; [done|constructor].
  - exists []. split; [done|constructor].
Qed.

(** ** The region loop on every environment *)

(** One turn of the region loop: a client that cannot be created ends the
    loop; otherwise the turn emits its events, adds the records the
    region contributes, and the loop goes on. *)
Lemma pull_regions_cons boto3 region regions all_aws_instances :
  pull_regions boto3 (region :: regions) all_aws_instances
  = match boto3 region with
    | Raise e => ([Client region], Raise e)
    | Ok _ =>
        let rest :=
          pull_regions boto3 regions
            (all_aws_instances ++ listed boto3 region)%list in
        ((region_events boto3 region ++ rest.1)%list, rest.2)
    end.
Proof.
  cbn [pull_regions]. unfold boto3_client, region_events, listed, listing.
  rewrite bind_emit.
  destruct (boto3 region) as [c|e]; [|reflexivity].
  cbn [fst snd mret M_ret]. rewrite bind_Ok_l.
  destruct (describe_instances_paginated c) as [t [records|e]];
    unfold logging; cbn [try_except fst snd].
  - rewrite bind_Ok_l, bind_emit. cbn [fst snd mret M_ret try_except].
    rewrite bind_Ok_l. cbn [fst snd]. simpl. by rewrite <- !app_assoc.
  - rewrite bind_Raise_l, bind_emit. cbn [fst snd mret M_ret try_except].
    rewrite bind_Ok_l. cbn [fst snd app].
    simpl. by rewrite ?app_nil_r, <- ?app_assoc.
Qed.

(** The clients the loop creates are those of an initial segment of the
    regions, in order, and of all of them when the loop reaches its
    end. *)
Lemma pull_regions_clients boto3 regions all_aws_instances :
  let run := pull_regions boto3 regions all_aws_instances in
  omap client_created run.1 `prefix_of` regions ∧
  (∀ records, run.2 = Ok records → omap client_created run.1 = regions).
Proof.
  revert all_aws_instances.
  induction regions as [|region regions IH]; intros acc; cbn zeta.
  - split; [by exists []|done].
  - rewrite pull_regions_cons.
    destruct (boto3 region) as [c|e] eqn:Hb.
    + cbn zeta. cbn [fst snd].
      destruct (IH (acc ++ listed boto3 region)%list) as [Hp Hall].
      rewrite omap_app, region_events_clients. cbn [app].
      split; [by apply prefix_cons|].
      intros records Hr. f_equal. by eapply Hall.
    + cbn [fst snd omap list_omap client_created].
      split; [|done]. apply prefix_cons, prefix_nil.
Qed.

(** The loop up to the first region whose client cannot be created. *)
Lemma pull_regions_client_failure boto3 before region after e
    all_aws_instances :
  clients_acquired boto3 before →
  boto3 region = Raise e →
  pull_regions boto3 (before ++ region :: after)%list all_aws_instances
  = ((concat (region_events boto3 <$> before) ++ [Client region])%list,
     Raise e).
Proof.
  intros Hc Hb. revert all_aws_instances.
  induction before as [|r before IH]; intros acc; cbn [app].
  - by rewrite pull_regions_cons, Hb.
  - rewrite pull_regions_cons.
    destruct (Hc r) as [c ->]; [by constructor|].
    cbn zeta. rewrite IH.
    + cbn [fst snd fmap list_fmap concat]. by rewrite app_assoc.
    + intros r' Hr'. apply Hc. by constructor.
Qed.

(** X18.  Whatever the environment does, the regional clients
    [get_all_aws_instances] creates are those of an initial segment of
    the regions it was given (or of the default list), each created once
    and in order: it never creates a client for another region, and when
    it returns it has created one for every region. *)
Theorem clients_follow_regions boto3 specific_regions :
  let run := get_all_aws_instances boto3 specific_regions in
  omap client_created run.1 `prefix_of` select_regions specific_regions ∧
  (∀ instances,
     run.2 = Ok instances →
     omap client_created run.1 = select_regions specific_regions).
Proof.
  cbn zeta. unfold get_all_aws_instances, logging.
  rewrite bind_emit. cbn [fst snd omap list_omap client_created].
  destruct (pull_regions_clients boto3 (select_regions specific_regions) [])
    as [Hp Hall].
  destruct (pull_regions boto3 (select_regions specific_regions) [])
    as [t [records|e]]; cbn [fst snd] in *.
  - rewrite bind_Ok_l, !bind_emit. cbn [fst snd].
    rewrite omap_app. cbn [omap list_omap client_created].
    assert (omap client_created
              (mapM from_raw_data_to_instance records
               ≫= λ parsed_instances,
                    emit (Log INFO "finished processing the raw data" None)
                    ≫= λ _, mret parsed_instances).1 = []) as ->.
    { pose proof (normalization_clients records) as Hn.
      destruct (mapM from_raw_data_to_instance records) as [t' [parsed|e]];
        cbn [fst] in Hn.
      - rewrite bind_Ok_l, bind_emit. cbn [fst snd mret M_ret].
        rewrite omap_app, Hn. reflexivity.
      - by rewrite bind_Raise_l. }
    rewrite app_nil_r. rewrite (Hall records eq_refl).
    split; [done|]. by intros _ _.
  - rewrite bind_Raise_l. cbn [fst snd]. split; [done|discriminate].
Qed.

(** X19.  A regional client that cannot be created ends the run.  When
    the clients of the regions before [region] are created and
    [boto3.client] raises for [region], [get_all_aws_instances] raises
    that exception right after the attempt: the records already listed
    are not returned, the regions after it are not visited, and no record
    is normalized. *)
Theorem client_failure_ends_run boto3 specific_regions before region after e :
  select_regions specific_regions = (before ++ region :: after)%list →
  clients_acquired boto3 before →
  boto3 region = Raise e →
  get_all_aws_instances boto3 specific_regions
  = (Log INFO "started pulling instances" None
       :: (concat (region_events boto3 <$> before) ++ [Client region])%list,
     Raise e).
Proof.
  intros Hr Hc Hb. unfold get_all_aws_instances, logging.
  rewrite bind_emit, Hr, (pull_regions_client_failure _ _ _ _ _ _ Hc Hb).
  by rewrite bind_Raise_l.
Qed.

(** Region [A] is listed, no client can be created for [B], and [C] is
    never visited. *)
Lemma client_failure_ends_run_witness :
  get_all_aws_instances no_client_outside_A (Some ["A"; "B"; "C"])
  = ([Log INFO "started pulling instances" None;
      Client "A"; DescribeInstances None;
      Log DEBUG pulled (Some (VStr "A"));
      Client "B"],
     Raise (OtherException "InvalidRegionError")).
Proof.
  apply (client_failure_ends_run no_client_outside_A (Some ["A"; "B"; "C"])
           ["A"] "B" ["C"] (OtherException "InvalidRegionError")).
  - reflexivity.
  - intros region Hin.
    apply elem_of_cons in Hin as [->|Hin]; [|by apply elem_of_nil in Hin].
    eexists. reflexivity.
  - reflexivity.
Defined.

Lemma region_events_outcome boto3 region c :
  boto3 region = Ok c →
  omap region_outcome (region_events boto3 region)
  = [(region, negb (listing_failed boto3 region))].
Proof.
  intros Hb. unfold region_events, listing_failed, listing.
  cbn [omap list_omap region_outcome]. rewrite Hb.
  pose proof (omap_emits_nil region_outcome _
                (describe_instances_paginated_emits _ c (λ _, eq_refl))) as Hd.
  destruct (describe_instances_paginated c) as [t [records|e]];
    cbn [fst snd] in *; rewrite omap_app, Hd; reflexivity.
Qed.

Lemma normalization_outcome (l : list value) :
  omap region_outcome (mapM from_raw_data_to_instance l).1 = [].
Proof.
  apply omap_emits_nil, emits_mapM. intros raw.
  apply from_raw_data_to_instance_emits; by intros [[]|].
Qed.

(** X20.  With every regional client created, each region gets exactly
    one outcome record, in the order of the regions: the [DEBUG] record
    "pulled instances from region" when its listing succeeded, the
    [ERROR] record "Could not pull instances from region" when it
    failed. *)
Theorem one_outcome_per_region boto3 specific_regions :
  let regions := select_regions specific_regions in
  clients_acquired boto3 regions →
  omap region_outcome (get_all_aws_instances boto3 specific_regions).1
  = (λ region, (region, negb (listing_failed boto3 region))) <$> regions.
Proof.
  intros regions Hc. subst regions.
  rewrite (get_all_aws_instances_eq _ _ Hc). cbn [fst].
  cbn [omap list_omap region_outcome app].
  rewrite omap_app. cbn [omap list_omap region_outcome].
  rewrite omap_app, normalization_outcome.
  rewrite (omap_concat_fmap _ _
             (λ region, [(region, negb (listing_failed boto3 region))])).
  - assert (∀ {A B : Type} (f : A → B) (l : list A),
              concat ((λ a, [f a]) <$> l) = f <$> l) as ->.
    { intros A B f l. induction l as [|a l IH]; [done|].
      cbn [fmap list_fmap concat app]. by f_equal. }
    by destruct (mapM from_raw_data_to_instance _) as [t [parsed|e]];
      cbn [snd omap list_omap region_outcome]; rewrite app_nil_r.
  - intros region [c Hb]%Hc. by apply (region_events_outcome _ _ c).
Qed.

Lemma one_outcome_per_region_witness :
  omap region_outcome
    (get_all_aws_instances (listing_refused_outside_A [good_record])
       (Some ["B"; "A"; "C"])).1
  = [("B", false); ("A", true); ("C", false)].
Proof.
  apply (one_outcome_per_region (listing_refused_outside_A [good_record])
           (Some ["B"; "A"; "C"])).
  intros region _. unfold listing_refused_outside_A.
  destruct (String.eqb region "A"); eauto.
Defined.

Lemma region_events_info boto3 region :
  omap info_record (region_events boto3 region) = [].
Proof.
  unfold region_events. cbn [omap list_omap info_record].
  destruct (boto3 region) as [c|e]; [|done].
  pose proof (omap_emits_nil info_record _
                (describe_instances_paginated_emits _ c (λ _, eq_refl))) as Hd.
  destruct (describe_instances_paginated c) as [t [records|e]];
    cbn [fst snd] in *; rewrite omap_app, Hd; reflexivity.
Qed.

Lemma normalization_info (l : list value) :
  omap info_record (mapM from_raw_data_to_instance l).1 = [].
Proof.
  apply omap_emits_nil, emits_mapM. intros raw.
  by apply from_raw_data_to_instance_emits.
Qed.

(** X21.  The phase records.  With every regional client created, the
    [INFO] records of a run are "started pulling instances", "finished
    successfully pulling instances" and "processing raw data into
    objects", in this order and whatever listings failed, all of them
    included, followed by "finished processing the raw data" exactly when
    the run returns. *)
Theorem phase_records boto3 specific_regions :
  clients_acquired boto3 (select_regions specific_regions) →
  let run := get_all_aws_instances boto3 specific_regions in
  omap info_record run.1
  = (["started pulling instances"; "finished successfully pulling instances";
      "processing raw data into objects"]
     ++ match run.2 with
        | Ok _ => ["finished processing the raw data"]
        | Raise _ => []
        end)%list.
Proof.
  intros Hc run. subst run.
  rewrite (get_all_aws_instances_eq _ _ Hc). cbn [fst snd].
  cbn [omap list_omap info_record app].
  rewrite omap_app. cbn [omap list_omap info_record].
  rewrite omap_app, normalization_info.
  rewrite (omap_concat_fmap _ _ (λ _, []))
    by (intros; apply region_events_info).
  assert (∀ l : list string, concat ((λ _, @nil string) <$> l) = []) as ->
    by (by induction l).
  by destruct (mapM from_raw_data_to_instance _) as [t [parsed|e]].
Qed.

(** Every listing is refused: the run still reports that it finished
    pulling successfully, and returns no instance. *)
Lemma phase_records_witness :
  let run := get_all_aws_instances (listing_refused_outside_A [])
               (Some ["B"; "C"]) in
  run.2 = Ok [] ∧
  omap info_record run.1
  = ["started pulling instances"; "finished successfully pulling instances";
     "processing raw data into objects"; "finished processing the raw data"].
Proof.
  intros run. split; [reflexivity|].
  apply (phase_records (listing_refused_outside_A []) (Some ["B"; "C"])).
  intros region _. unfold listing_refused_outside_A.
  destruct (String.eqb region "A"); eauto.
Defined.

(** X22.  Listing comes before normalizing.  With every regional client
    created, the trace of a run splits at the record "finished
    successfully pulling instances": no diagnostic of the normalizer comes
    before it, and no client is created and no [describe_instances] call
    is issued after it. *)
Theorem listing_precedes_normalization boto3 specific_regions :
  clients_acquired boto3 (select_regions specific_regions) →
  ∃ pulling normalizing,
    (get_all_aws_instances boto3 specific_regions).1
    = (pulling
       ++ Log INFO "finished successfully pulling instances" None
       :: normalizing)%list ∧
    Forall (λ ev, ∀ lv nid, ev ≠ Log lv ipv6_invalid nid ∧
                            ev ≠ Log lv private_ip_invalid nid) pulling ∧
    Forall (λ ev, api_event ev = false) normalizing.
Proof.
  intros Hc. rewrite (get_all_aws_instances_eq _ _ Hc). cbn [fst].
  eexists _, _. split; [reflexivity|]. split.
  - constructor; [by split|]. apply Forall_concat, Forall_fmap, Forall_forall.
    intros region _. unfold region_events. constructor; [by split|].
    destruct (boto3 region) as [c|e]; [|constructor].
    pose proof (describe_instances_paginated_emits
                  (λ ev, ∀ lv nid, ev ≠ Log lv ipv6_invalid nid ∧
                                   ev ≠ Log lv private_ip_invalid nid) c) as Hd.
    unfold emits in Hd.
    destruct (describe_instances_paginated c) as [t [records|e]];
      cbn [fst] in Hd; (apply Forall_app; split; [by apply Hd|]);
      by repeat constructor.
  - constructor; [done|]. apply Forall_app. split.
    + apply (emits_mapM (λ ev, api_event ev = false)). intros raw.
      by apply from_raw_data_to_instance_emits.
    + destruct (mapM _ _) as [t [parsed|e]]; by repeat constructor.
Qed.

Lemma listing_precedes_normalization_witness :
  let bad := example_interface (VStr "198.51.100.5") (VStr "x") (VStr "") in
  let record := example_record [bad] (VDict []) (VDatetime 1609459200)
                  (VDict []) in
  ∃ pulling normalizing,
    (get_all_aws_instances (listing_refused_outside_A [record])
       (Some ["A"; "B"])).1
    = (pulling
       ++ Log INFO "finished successfully pulling instances" None
       :: normalizing)%list ∧
    Forall (λ ev, ∀ lv nid, ev ≠ Log lv ipv6_invalid nid ∧
                            ev ≠ Log lv private_ip_invalid nid) pulling ∧
    Forall (λ ev, api_event ev = false) normalizing.
Proof.
  intros bad record.
  apply (listing_precedes_normalization
           (listing_refused_outside_A [record]) (Some ["A"; "B"])).
  intros region _. unfold listing_refused_outside_A.
  destruct (String.eqb region "A"); eauto.
Defined.

Lemma mapM_app_Ok {A B : Type} (f : A → M B) (l1 l2 : list A) t1 k1 t2 k2 :
  mapM f l1 = (t1, Ok k1) →
  mapM f l2 = (t2, Ok k2) →
  mapM f (l1 ++ l2) = ((t1 ++ t2)%list, Ok (k1 ++ k2)%list).
Proof.
  revert t1 k1. induction l1 as [|x l1 IH]; intros t1 k1; cbn [mapM app].
  - by intros [= <- <-].
  - intros (tx & y & tr & Hx & H & ->)%bind_Ok H2.
    apply bind_Ok in H as (tk & k & te & Hk & [= <- <-] & ->).
    rewrite Hx, bind_Ok_l, (IH _ _ Hk H2), bind_Ok_l.
    cbn [fst snd mret M_ret app]. by rewrite !app_nil_r, app_assoc.
Qed.

(** X23.  Collections compose.  With every regional client created, when
    the run on a non-empty list of regions returns and the run on a
    second non-empty list returns, the run on the first list followed by
    the second returns the instances of the first run followed by those
    of the second. *)
Theorem collection_of_concatenated_regions boto3 r1 regions1 r2 regions2
    instances1 instances2 :
  clients_acquired boto3 (r1 :: regions1) →
  clients_acquired boto3 (r2 :: regions2) →
  (get_all_aws_instances boto3 (Some (r1 :: regions1))).2 = Ok instances1 →
  (get_all_aws_instances boto3 (Some (r2 :: regions2))).2 = Ok instances2 →
  (get_all_aws_instances boto3
     (Some ((r1 :: regions1) ++ r2 :: regions2)%list)).2
  = Ok (instances1 ++ instances2)%list.
Proof.
  intros Hc1 Hc2.
  assert (Hc : clients_acquired boto3 ((r1 :: regions1) ++ r2 :: regions2)).
  { intros region [Hin|Hin]%elem_of_app; [by apply Hc1|by apply Hc2]. }
  rewrite (get_all_aws_instances_eq boto3 (Some (r1 :: regions1)) Hc1).
  rewrite (get_all_aws_instances_eq boto3 (Some (r2 :: regions2)) Hc2).
  rewrite (get_all_aws_instances_eq boto3
             (Some ((r1 :: regions1) ++ r2 :: regions2)%list) Hc).
  cbn [snd select_regions app].
  change (r1 :: (regions1 ++ r2 :: regions2)%list)
    with ((r1 :: regions1) ++ r2 :: regions2)%list.
  rewrite fmap_app, concat_app.
  destruct (mapM from_raw_data_to_instance
              (concat (listed boto3 <$> r1 :: regions1)))
    as [t1 [k1|e1]] eqn:H1; [|discriminate].
  destruct (mapM from_raw_data_to_instance
              (concat (listed boto3 <$> r2 :: regions2)))
    as [t2 [k2|e2]] eqn:H2; [|discriminate].
  cbn [snd]. intros [= <-] [= <-].
  by rewrite (mapM_app_Ok _ _ _ _ _ _ _ H1 H2).
Qed.

Lemma collection_of_concatenated_regions_witness :
  let boto3 := listing_refused_outside_A [good_record] in
  ∃ instance,
    (get_all_aws_instances boto3 (Some ["A"; "B"])).2 = Ok [instance] ∧
    (get_all_aws_instances boto3 (Some ["B"; "A"; "A"])).2
    = Ok [instance; instance] ∧
    (get_all_aws_instances boto3 (Some ["A"; "B"; "B"; "A"; "A"])).2
    = Ok [instance; instance; instance].
Proof.
  intros boto3.
  assert (Hc : ∀ regions, clients_acquired boto3 regions).
  { intros regions region _. unfold boto3, listing_refused_outside_A.
    destruct (String.eqb region "A"); eauto. }
  destruct (get_all_aws_instances boto3 (Some ["A"; "B"])) as [t1 r1] eqn:E1.
  assert (∃ instance, r1 = Ok [instance]) as [instance ->].
  { apply (f_equal snd) in E1. vm_compute in E1. subst r1. eauto. }
  assert (E2 : (get_all_aws_instances boto3 (Some ["B"; "A"; "A"])).2
               = Ok [instance; instance]).
  { apply (f_equal snd) in E1. vm_compute in E1. injection E1 as <-.
    vm_compute. reflexivity. }
  exists instance. split; [done|]. split; [done|].
  apply (collection_of_concatenated_regions boto3 "A" ["B"] "B" ["A"; "A"]
           [instance] [instance; instance] (Hc _) (Hc _)); [|done].
  by rewrite E1.
Defined.

(** ** The script entry point *)

(** X24.  Run as a script, the program asks for clients of us-east-2 and
    us-west-2 only, in this order, whatever the environment does; when
    both are created, it ends as the normalization of the records listed
    in us-east-2 followed by those listed in us-west-2 does. *)
Theorem main_pulls_two_regions boto3 :
  omap client_created (main boto3).1 `prefix_of` ["us-east-2"; "us-west-2"] ∧
  (∀ c1 c2,
     boto3 "us-east-2" = Ok c1 →
     boto3 "us-west-2" = Ok c2 →
     omap client_created (main boto3).1 = ["us-east-2"; "us-west-2"] ∧
     (main boto3).2
     = (mapM from_raw_data_to_instance
          (listed boto3 "us-east-2" ++ listed boto3 "us-west-2")).2).
Proof.
  unfold main, get_all_aws_instances, logging.
  cbn [select_regions active_regions].
  destruct (boto3 "us-east-2") as [c1|e1] eqn:H1.
  - destruct (boto3 "us-west-2") as [c2|e2] eqn:H2.
    + assert (Hc : clients_acquired boto3
                     (select_regions (Some active_regions))).
      { intros region Hin. cbn in Hin.
        repeat (apply elem_of_cons in Hin as [->|Hin]); eauto.
        by apply elem_of_nil in Hin. }
      pose proof (get_all_aws_instances_clients _ _ Hc) as Hcl.
      pose proof (get_all_aws_instances_eq _ _ Hc) as Heq.
      unfold get_all_aws_instances, logging in Hcl, Heq.
      cbn [select_regions active_regions] in Hcl, Heq.
      rewrite Hcl. split; [done|]. intros ? ? _ _. split; [done|].
      rewrite Heq. cbn [snd fmap list_fmap concat]. by rewrite app_nil_r.
    + rewrite bind_emit.
      change ["us-east-2"; "us-west-2"]
        with (["us-east-2"] ++ "us-west-2" :: [])%list.
      rewrite (pull_regions_client_failure boto3 ["us-east-2"] "us-west-2"
                 [] e2 []); [|intros region Hin|done].
      * rewrite bind_Raise_l. cbn [fst snd fmap list_fmap concat].
        cbn [omap list_omap client_created].
        rewrite app_nil_r, omap_app, region_events_clients.
        split; [done|]. intros ? ? _ [=].
      * apply elem_of_cons in Hin as [->|Hin]; [eauto|].
        by apply elem_of_nil in Hin.
  - rewrite bind_emit.
    change ["us-east-2"; "us-west-2"]
      with ([] ++ "us-east-2" :: ["us-west-2"])%list.
    rewrite (pull_regions_client_failure boto3 [] "us-east-2"
               ["us-west-2"] e1 []); [|by intros ? ?%elem_of_nil|done].
    rewrite bind_Raise_l. cbn [fst snd fmap list_fmap concat app].
    cbn [omap list_omap client_created].
    split; [by exists ["us-west-2"]|]. intros ? ? [=].
Qed.

(** ** The default regions *)

(** The clients of a run are those its region loop creates. *)
Lemma get_all_aws_instances_loop_clients boto3 specific_regions :
  omap client_created (get_all_aws_instances boto3 specific_regions).1
  = omap client_created
      (pull_regions boto3 (select_regions specific_regions) []).1.
Proof.
  unfold get_all_aws_instances, logging.
  rewrite bind_emit. cbn [fst snd omap list_omap client_created].
  destruct (pull_regions boto3 (select_regions specific_regions) [])
    as [t [records|e]]; cbn [fst snd].
  - rewrite bind_Ok_l, !bind_emit. cbn [fst snd].
    rewrite omap_app. cbn [omap list_omap client_created].
    pose proof (normalization_clients records) as Hn.
    destruct (mapM from_raw_data_to_instance records) as [t' [parsed|e]];
      cbn [fst] in Hn.
    + rewrite bind_Ok_l, bind_emit. cbn [fst snd mret M_ret].
      by rewrite omap_app, Hn, !app_nil_r.
    + rewrite bind_Raise_l. cbn [fst]. by rewrite Hn, app_nil_r.
  - by rewrite bind_Raise_l.
Qed.

(** C9.  The hard-coded list has 21 regions, begins with us-east-2 and
    ends with sa-east-1.  In every environment a call with no region
    list, [None] or an empty list, is the call on that list, and the
    region loop runs over it; a non-empty argument replaces it: the loop
    runs over the argument.  The regions visited, read off the clients
    the run creates, are in every environment an initial segment of the
    list the loop runs over, in its order, and all of it when a client
    can be created for each of its regions. *)
Theorem default_regions boto3 :
  length all_aws_regions = 21%nat ∧
  head all_aws_regions = Some "us-east-2" ∧
  last all_aws_regions = Some "sa-east-1" ∧
  select_regions None = all_aws_regions ∧
  select_regions (Some []) = all_aws_regions ∧
  (∀ region regions,
     select_regions (Some (region :: regions)) = region :: regions) ∧
  get_all_aws_instances boto3 None
  = get_all_aws_instances boto3 (Some all_aws_regions) ∧
  get_all_aws_instances boto3 (Some [])
  = get_all_aws_instances boto3 (Some all_aws_regions) ∧
  ∀ specific_regions,
    let visited :=
      omap client_created (get_all_aws_instances boto3 specific_regions).1 in
    visited `prefix_of` select_regions specific_regions ∧
    (clients_acquired boto3 (select_regions specific_regions) →
     visited = select_regions specific_regions).
Proof.
  repeat split; try reflexivity.
  - rewrite get_all_aws_instances_loop_clients.
    apply (pull_regions_clients boto3 (select_regions specific_regions) []).
  - apply get_all_aws_instances_clients.
Qed.

(** Two environments.  When every regional client is created, and
    refuses its listing, the 21 default regions are visited in order;
    when no client can be created, the run ends at the first region. *)
Lemma default_regions_witness :
  omap client_created
    (get_all_aws_instances (listing_refused_outside_A []) None).1
  = all_aws_regions ∧
  omap client_created (get_all_aws_instances no_client_outside_A None).1
  = ["us-east-2"] ∧
  ["us-east-2"] `prefix_of` all_aws_regions.
Proof.
  destruct (default_regions (listing_refused_outside_A []))
    as (_ & _ & _ & _ & _ & _ & _ & _ & Hall).
  destruct (default_regions no_client_outside_A)
    as (_ & _ & _ & _ & _ & _ & _ & _ & Hnone).
  destruct (Hall None) as [_ Hvisited].
  destruct (Hnone None) as [Hprefix _].
  assert (E : omap client_created
                (get_all_aws_instances no_client_outside_A None).1
              = ["us-east-2"]) by (vm_compute; reflexivity).
  split; [|split; [exact E|]].
  - apply Hvisited. intros region _. unfold listing_refused_outside_A.
    destruct (String.eqb region "A"); eauto.
  - rewrite E in Hprefix. exact Hprefix.
Defined.

(** ** The objects the normalizer creates *)

Module HeapRuns.
Import Heap.

Lemma bind_Ok_inv {A B : Type} (m : H A) (f : A → H B) s t s' b :
  (m ≫= f) s = (t, s', Ok b) →
  ∃ t1 s1 a t2,
    m s = (t1, s1, Ok a) ∧ f a s1 = (t2, s', Ok b) ∧ t = (t1 ++ t2)%list.
Proof.
  unfold mbind, H_bind. destruct (m s) as [[t1 s1] [a|e]]; [|discriminate].
  destruct (f a s1) as [[t2 s2] r] eqn:Hf. intros [= <- <- ->].
  by exists t1, s1, a, t2.
Qed.

Lemma getitem_inv v k s t s' x :
  getitem v k s = (t, s', Ok x) →
  s' = s ∧ ∃ d, deref s v = Some (ODict d) ∧ alist_get d k = Some x.
Proof.
  unfold getitem. destruct (deref s v) as [[d| |]|]; try discriminate.
  destruct (alist_get d k) as [y|] eqn:E; [|discriminate].
  intros [= <- <- <-]. eauto.
Qed.

Lemma getitem_bind_inv {B : Type} v k (f : hval → H B) s t s' b :
  (getitem v k ≫= f) s = (t, s', Ok b) →
  ∃ d x, deref s v = Some (ODict d) ∧ alist_get d k = Some x ∧
         f x s = (t, s', Ok b).
Proof.
  intros (t1 & s1 & x & t2 & Hg & Hf & ->)%bind_Ok_inv.
  pose proof Hg as Hg'. apply getitem_inv in Hg' as (-> & d & Hd & Hx).
  unfold getitem in Hg. rewrite Hd, Hx in Hg. injection Hg as <-.
  by exists d, x.
Qed.

Lemma alloc_bind_inv {B : Type} o (f : loc → H B) s t s' b :
  (alloc o ≫= f) s = (t, s', Ok b) →
  s !! fresh (dom s) = None ∧
  f (fresh (dom s)) (<[fresh (dom s) := o]> s) = (t, s', Ok b).
Proof.
  intros (t1 & s1 & l & t2 & Ha & Hf & ->)%bind_Ok_inv.
  unfold alloc in Ha. injection Ha as <- <- <-.
  split; [|done]. apply not_elem_of_dom, is_fresh.
Qed.

Lemma truthy_bind_inv {B : Type} v (f : bool → H B) s t s' b :
  (truthy v ≫= f) s = (t, s', Ok b) → ∃ c, f c s = (t, s', Ok b).
Proof.
  intros (t1 & s1 & c & t2 & Ht & Hf & ->)%bind_Ok_inv.
  unfold truthy in Ht. injection Ht as <- <- _. by exists c.
Qed.

Lemma py_iter_bind_inv {B : Type} v (f : list hval → H B) s t s' b :
  (py_iter v ≫= f) s = (t, s', Ok b) →
  ∃ t' xs, f xs s = (t', s', Ok b).
Proof.
  intros (t1 & s1 & xs & t2 & Hi & Hf & ->)%bind_Ok_inv.
  assert (s1 = s) as ->.
  { unfold py_iter in Hi.
    by destruct v, (deref s _) as [[]|]; injection Hi. }
  by exists t2, xs.
Qed.

(** A guarded assignment of an address rewrites the attributes of the
    object at [l], and keeps every attribute but [field]. *)
Lemma assign_address_inv field v lv text l class attrs s t s' :
  s !! l = Some (OObject class attrs) →
  assign_address field v lv text l s = (t, s', Ok tt) →
  ∃ attrs',
    s' = <[l := OObject class attrs']> s ∧
    ∀ name, name ≠ field → alist_get attrs' name = alist_get attrs name.
Proof.
  intros Hl. unfold assign_address.
  destruct (ip_address v) as [a|].
  - unfold setattr. rewrite Hl. intros [= <- <-].
    exists (alist_set field (HAddr a) attrs). split; [done|].
    intros name Hne. clear Hl.
    induction attrs as [|[k x] attrs IH]; cbn [alist_set alist_get].
    + by rewrite (proj2 (String.eqb_neq field name)).
    + destruct (String.eqb k field) eqn:E; cbn [alist_get].
      * apply String.eqb_eq in E as ->.
        by rewrite (proj2 (String.eqb_neq field name)).
      * by rewrite IH.
  - intros (t1 & s1 & nid & t2 & Hg & Hlog & ->)%bind_Ok_inv.
    unfold getattr in Hg. rewrite Hl in Hg.
    destruct (alist_get attrs "network_interface_id"); [|discriminate].
    injection Hg as <- <- <-. unfold logging in Hlog.
    injection Hlog as <- <-.
    exists attrs. split; [by rewrite insert_id|done].
Qed.

(** A guarded assignment on the object under construction at [l]. *)
Lemma guarded_assign_bind_inv {B : Type} (c : bool) field v lv text l class
    attrs (f : unit → H B) s t s' b :
  ((if c then assign_address field v lv text l else mret tt) ≫= f)
    (<[l := OObject class attrs]> s) = (t, s', Ok b) →
  ∃ attrs' t',
    f tt (<[l := OObject class attrs']> s) = (t', s', Ok b) ∧
    ∀ name, name ≠ field → alist_get attrs' name = alist_get attrs name.
Proof.
  intros (t1 & s1 & [] & t2 & Hc & Hf & ->)%bind_Ok_inv.
  destruct c.
  - apply (assign_address_inv _ _ _ _ _ class attrs)
      in Hc as (attrs' & -> & Hattrs); [|by rewrite lookup_insert_eq].
    rewrite insert_insert_eq in Hf. by exists attrs', t2.
  - injection Hc as <- <-. by exists attrs, t2.
Qed.

(** One lookup of the run [H], which returns. *)
Tactic Notation "getitem_inv_step" hyp(H) ident(x) ident(Hx) :=
  let d := fresh "d" in
  let Hd := fresh "Hd" in
  apply getitem_bind_inv in H as (d & x & Hd & Hx & H).

(** In a run that returns, [from_raw_data_to_network_interface] adds one
    object to the store and changes nothing else; the plain attributes of
    the object are the values found in the record and its association
    block. *)
Lemma network_interface_run raw_data s t s' h :
  from_raw_data_to_network_interface raw_data s = (t, s', Ok h) →
  ∃ d association da attrs,
    deref s raw_data = Some (ODict d) ∧
    alist_get d "Association" = Some association ∧
    deref s association = Some (ODict da) ∧
    h = HRef (fresh (dom s)) ∧
    s !! fresh (dom s) = None ∧
    s' = <[fresh (dom s) := OObject "NetworkInterface" attrs]> s ∧
    (∀ key field, (key, field) ∈ interface_attributes →
                  alist_get attrs field = alist_get d key) ∧
    (∀ key field, (key, field) ∈ association_attributes →
                  alist_get attrs field = alist_get da key).
Proof.
  intros H. unfold from_raw_data_to_network_interface in H.
  getitem_inv_step H association Ha.
  getitem_inv_step H ip_owner_id Hx1.
  getitem_inv_step H public_dns_name Hx2.
  getitem_inv_step H mac_address Hx3.
  getitem_inv_step H network_interface_id Hx4.
  getitem_inv_step H owner_id Hx5.
  getitem_inv_step H private_dns_name Hx6.
  getitem_inv_step H subnet_id Hx7.
  getitem_inv_step H status Hx8.
  simplify_eq.
  apply alloc_bind_inv in H as [Hfresh H].
  set (l := fresh (dom s)) in *.
  getitem_inv_step H ipv6_address Hx9.
  getitem_inv_step H PublicIp Hx10.
  apply bind_Ok_inv in H as (tp1 & sp & public_ip & tp2 & Hp & H & ->).
  destruct (ip_address PublicIp) as [a|]; [|discriminate Hp].
  injection Hp as <- <- <-.
  getitem_inv_step H private_ip_address Hx11.
  apply truthy_bind_inv in H as [c1 H].
  apply guarded_assign_bind_inv in H as (attrs1 & tg1 & H & Hattrs1).
  apply truthy_bind_inv in H as [c2 H].
  apply guarded_assign_bind_inv in H as (attrs2 & tg2 & H & Hattrs2).
  apply truthy_bind_inv in H as [c3 H].
  apply guarded_assign_bind_inv in H as (attrs3 & tg3 & H & Hattrs3).
  injection H as <- <- <-.
  exists d, association, d0, attrs3.
  repeat split; try done.
  - intros key field Hin. unfold interface_attributes in Hin.
    rewrite Hattrs3, Hattrs2, Hattrs1
      by (repeat (apply elem_of_cons in Hin as [[= -> ->]|Hin]);
          try discriminate; by apply elem_of_nil in Hin).
    repeat (apply elem_of_cons in Hin as [[= -> ->]|Hin]);
      try (by apply elem_of_nil in Hin); cbn [alist_get String.eqb Ascii.eqb];
      simpl; congruence.
  - intros key field Hin. unfold association_attributes in Hin.
    rewrite Hattrs3, Hattrs2, Hattrs1
      by (repeat (apply elem_of_cons in Hin as [[= -> ->]|Hin]);
          try discriminate; by apply elem_of_nil in Hin).
    repeat (apply elem_of_cons in Hin as [[= -> ->]|Hin]);
      try (by apply elem_of_nil in Hin); simpl; congruence.
Qed.


(** A turn of the interface loop keeps its invariant. *)
Lemma collecting_step s lp interface sk t sk' :
  (parsed_interface ← from_raw_data_to_network_interface interface;
   append lp parsed_interface) sk = (t, sk', Ok tt) →
  collecting s lp sk → collecting s lp sk'.
Proof.
  intros (t1 & s1 & h & t2 & Hn & Ha & ->)%bind_Ok_inv
    (Hsub & Hlp & hs & Hhs & Hnew).
  apply network_interface_run
    in Hn as (_ & _ & _ & attrs & _ & _ & _ & -> & Hl & -> & _).
  set (l := fresh (dom sk)) in *.
  assert (Hne : l ≠ lp) by (intros E; rewrite E in Hl; congruence).
  unfold append in Ha. rewrite lookup_insert_ne, Hhs in Ha by done.
  injection Ha as <- <-.
  assert (Hsl : s !! l = None) by (by eapply lookup_weaken_None).
  split; [|split; [done|]].
  { apply insert_subseteq_r; [done|]. by apply insert_subseteq_r. }
  exists (hs ++ [HRef l])%list. split; [by rewrite lookup_insert_eq|].
  apply Forall_app. split.
  - eapply Forall_impl; [exact Hnew|].
    intros h (attrs' & l' & -> & Hs' & Hsk'). exists attrs', l'.
    repeat split; try done.
    rewrite !lookup_insert_ne; [done| |]; intros E; rewrite E in *; congruence.
  - repeat constructor. exists attrs, l. repeat split; try done.
    by rewrite lookup_insert_ne, lookup_insert_eq.
Qed.

Lemma collecting_loop s lp xs :
  ∀ sk t sk',
    for_each xs (λ interface,
      parsed_interface ← from_raw_data_to_network_interface interface;
      append lp parsed_interface) sk = (t, sk', Ok tt) →
    collecting s lp sk → collecting s lp sk'.
Proof.
  induction xs as [|x xs IH]; intros sk t sk'; cbn [for_each].
  - by intros [= _ <-].
  - intros (t1 & s1 & [] & t2 & Hx & Hxs & ->)%bind_Ok_inv Hc.
    eapply IH; [exact Hxs|]. by eapply collecting_step.
Qed.

(** A guarded copy of an optional key into the object under construction
    at [l]. *)
Lemma assign_if_present_bind_inv {B : Type} key field lr l class attrs d
    (f : unit → H B) s t s' b :
  lr ≠ l →
  s !! lr = Some (ODict d) →
  (assign_if_present key field (HRef lr) l ≫= f)
    (<[l := OObject class attrs]> s) = (t, s', Ok b) →
  ∃ t',
    f tt (<[l := OObject class
                   match alist_get d key with
                   | Some v => alist_set field v attrs
                   | None => attrs
                   end]> s) = (t', s', Ok b).
Proof.
  intros Hne Hlr (t1 & s1 & [] & t2 & Ha & Hf & ->)%bind_Ok_inv.
  exists t2. unfold assign_if_present in Ha.
  apply bind_Ok_inv in Ha as (t3 & s3 & present & t4 & Hc & Ha & ->).
  unfold contains in Hc. cbn [deref] in Hc.
  rewrite lookup_insert_ne, Hlr in Hc by done. injection Hc as <- <- <-.
  destruct (alist_get d key) as [v|] eqn:Hv.
  - rewrite bool_decide_true in Ha by eauto.
    apply getitem_bind_inv in Ha as (d' & v' & Hd' & Hv' & Ha).
    cbn [deref] in Hd'. rewrite lookup_insert_ne, Hlr in Hd' by done.
    injection Hd' as <-. rewrite Hv in Hv'. injection Hv' as <-.
    unfold setattr in Ha. rewrite lookup_insert_eq in Ha.
    injection Ha as <- <-. by rewrite insert_insert_eq in Hf.
  - rewrite bool_decide_false in Ha by (by intros [? [=]]).
    by injection Ha as <- <-.
Qed.

End HeapRuns.

Import HeapRuns.

(** X25.  In the store, a call of [from_raw_data_to_network_interface]
    that returns has added exactly one object, the [NetworkInterface] it
    returns, at a location that was free, and has changed nothing else.
    The eight plain attributes of the object are the very values held by
    the record and its association block: a value that is a reference is
    shared with the record, not copied. *)
Theorem interface_is_one_new_object (s : gmap Heap.loc Heap.obj)
    raw_data t s' h :
  Heap.from_raw_data_to_network_interface raw_data s = (t, s', Ok h) →
  ∃ l attrs d association da,
    h = Heap.HRef l ∧
    s !! l = None ∧
    s' = <[l := Heap.OObject "NetworkInterface" attrs]> s ∧
    Heap.deref s raw_data = Some (Heap.ODict d) ∧
    Heap.alist_get d "Association" = Some association ∧
    Heap.deref s association = Some (Heap.ODict da) ∧
    (∀ key field, (key, field) ∈ interface_attributes →
                  Heap.alist_get attrs field = Heap.alist_get d key) ∧
    (∀ key field, (key, field) ∈ association_attributes →
                  Heap.alist_get attrs field = Heap.alist_get da key).
Proof.
  intros (d & association & da & attrs & Hd & Ha & Hda & -> & Hl & -> & H)
    %network_interface_run.
  by exists (fresh (dom s)), attrs, d, association, da.
Qed.

(** The interface record at location 2 of the example store: the new
    object is at location 7. *)
Lemma interface_is_one_new_object_witness :
  let s := Heap.example_store (Heap.HStr "198.51.100.5") in
  ∃ t s',
    Heap.from_raw_data_to_network_interface (Heap.HRef 2%positive) s
    = (t, s', Ok (Heap.HRef 7%positive)) ∧
    ∃ l attrs d association da,
      Heap.HRef 7%positive = Heap.HRef l ∧
      s !! l = None ∧
      s' = <[l := Heap.OObject "NetworkInterface" attrs]> s ∧
      Heap.deref s (Heap.HRef 2%positive) = Some (Heap.ODict d) ∧
      Heap.alist_get d "Association" = Some association ∧
      Heap.deref s association = Some (Heap.ODict da) ∧
      (∀ key field, (key, field) ∈ interface_attributes →
                    Heap.alist_get attrs field = Heap.alist_get d key) ∧
      (∀ key field, (key, field) ∈ association_attributes →
                    Heap.alist_get attrs field = Heap.alist_get da key).
Proof.
  intros s.
  destruct (Heap.from_raw_data_to_network_interface (Heap.HRef 2%positive) s)
    as [[t s'] r] eqn:Hrun.
  assert (Hr : r = Ok (Heap.HRef 7%positive)).
  { apply (f_equal snd) in Hrun. vm_compute in Hrun. by symmetry. }
  subst r. exists t, s'. split; [reflexivity|].
  exact (interface_is_one_new_object s _ t s' _ Hrun).
Defined.

(** X26.  In the store, a call of [from_raw_data_to_instance] that returns
    has created the [Instance] it returns, the list under
    [network_interfaces] and every [NetworkInterface] of that list: none
    of them is an object of the caller.  The other attributes are the
    very values held by the raw record (for an optional key that is
    absent, the empty string): the [State], [Tags], [CpuOptions] and
    [SecurityGroups] objects of the record are shared with the instance,
    not copied. *)
Theorem instance_is_new_and_shares_values (s : gmap Heap.loc Heap.obj)
    raw_data t s' h :
  Heap.from_raw_data_to_instance raw_data s = (t, s', Ok h) →
  ∃ d attrs lp hs,
    Heap.deref s raw_data = Some (Heap.ODict d) ∧
    new_object s s' "Instance" h attrs ∧
    (∀ key field, (key, field) ∈ required_attributes →
                  Heap.alist_get attrs field = Heap.alist_get d key) ∧
    (∀ key field, (key, field) ∈ optional_attributes →
                  Heap.alist_get attrs field
                  = Some (default (Heap.HStr "") (Heap.alist_get d key))) ∧
    Heap.alist_get attrs "network_interfaces" = Some (Heap.HRef lp) ∧
    s !! lp = None ∧
    s' !! lp = Some (Heap.OList hs) ∧
    Forall (λ h, ∃ attrs, new_object s s' "NetworkInterface" h attrs) hs.
Proof.
  intros H. unfold Heap.from_raw_data_to_instance in H.
  apply alloc_bind_inv in H as [Hlp H]. set (lp := fresh (dom s)) in *.
  getitem_inv_step H interfaces Hi.
  destruct raw_data as [| | | | | |lr]; try discriminate. cbn [Heap.deref] in Hd.
  assert (Hne : lp ≠ lr).
  { intros E. rewrite <- E, lookup_insert_eq in Hd. discriminate. }
  rewrite lookup_insert_ne in Hd by done.
  apply py_iter_bind_inv in H as (t' & xs & H).
  apply bind_Ok_inv in H as (t1 & s2 & [] & t2 & Hloop & H & ->).
  apply (collecting_loop s lp) in Hloop as (Hsub & _ & hs & Hhs & Hnew).
  2:{ split; [by apply insert_subseteq|]. split; [done|].
      exists []. split; [by rewrite lookup_insert_eq|constructor]. }
  assert (Hlr : s2 !! lr = Some (Heap.ODict d)) by (by eapply lookup_weaken).
  getitem_inv_step H image_id Hx1.
  getitem_inv_step H instance_id Hx2.
  getitem_inv_step H state Hx3.
  getitem_inv_step H launch_time Hx4.
  getitem_inv_step H tags Hx5.
  getitem_inv_step H cpu_details Hx6.
  getitem_inv_step H instance_type Hx7.
  getitem_inv_step H security_groups Hx8.
  getitem_inv_step H client_token Hx9.
  getitem_inv_step H state_transition_reason Hx10.
  getitem_inv_step H root_device_name Hx11.
  cbn [Heap.deref] in *. simplify_eq.
  match goal with
  | Hs : s !! lr = Some (Heap.ODict ?raw) |- _ => rename raw into d
  end.
  assert (Hlr : s2 !! lr = Some (Heap.ODict d)) by (by eapply lookup_weaken).
  apply alloc_bind_inv in H as [Hl H]. set (l := fresh (dom s2)) in *.
  assert (Hlrl : lr ≠ l) by (intros E; rewrite E in Hlr; congruence).
  apply (assign_if_present_bind_inv _ _ _ _ _ _ d) in H as [ta H]; [|done..].
  apply (assign_if_present_bind_inv _ _ _ _ _ _ d) in H as [tb H]; [|done..].
  apply (assign_if_present_bind_inv _ _ _ _ _ _ d) in H as [tc H]; [|done..].
  apply (assign_if_present_bind_inv _ _ _ _ _ _ d) in H as [td H]; [|done..].
  injection H as <- <- <-.
  assert (Hlpl : l ≠ lp) by (intros E; rewrite E in Hl; congruence).
  eexists d, _, lp, hs.
  split; [done|].
  split.
  { exists l. split; [done|]. split; [by eapply lookup_weaken_None|].
    by rewrite lookup_insert_eq. }
  split.
  { intros key field Hin. unfold required_attributes in Hin.
    repeat (apply elem_of_cons in Hin as [[= -> ->]|Hin]);
      try (by apply elem_of_nil in Hin);
      destruct (Heap.alist_get d "RamdiskId"), (Heap.alist_get d "PlatformDetails"),
        (Heap.alist_get d "KernelId"), (Heap.alist_get d "HostId");
      simpl; congruence. }
  split.
  { intros key field Hin. unfold optional_attributes in Hin.
    repeat (apply elem_of_cons in Hin as [[= -> ->]|Hin]);
      try (by apply elem_of_nil in Hin);
      destruct (Heap.alist_get d "RamdiskId"), (Heap.alist_get d "PlatformDetails"),
        (Heap.alist_get d "KernelId"), (Heap.alist_get d "HostId");
      reflexivity. }
  split.
  { destruct (Heap.alist_get d "RamdiskId"), (Heap.alist_get d "PlatformDetails"),
      (Heap.alist_get d "KernelId"), (Heap.alist_get d "HostId"); reflexivity. }
  split; [done|].
  split; [by rewrite lookup_insert_ne|].
  eapply Forall_impl; [exact Hnew|].
  intros h (attrs' & l' & -> & Hs' & Hsk'). exists attrs', l'.
  repeat split; try done.
  rewrite lookup_insert_ne; [done|]. intros E. rewrite E in *. congruence.
Qed.

(** The example record at location 4 of the example store: the instance
    is the new object at location 9. *)
Lemma instance_is_new_and_shares_values_witness :
  let s := Heap.example_store (Heap.HStr "198.51.100.5") in
  ∃ t s',
    Heap.from_raw_data_to_instance (Heap.HRef 4%positive) s
    = (t, s', Ok (Heap.HRef 9%positive)) ∧
    ∃ d attrs lp hs,
      Heap.deref s (Heap.HRef 4%positive) = Some (Heap.ODict d) ∧
      new_object s s' "Instance" (Heap.HRef 9%positive) attrs ∧
      (∀ key field, (key, field) ∈ required_attributes →
                    Heap.alist_get attrs field = Heap.alist_get d key) ∧
      (∀ key field, (key, field) ∈ optional_attributes →
                    Heap.alist_get attrs field
                    = Some (default (Heap.HStr "") (Heap.alist_get d key))) ∧
      Heap.alist_get attrs "network_interfaces" = Some (Heap.HRef lp) ∧
      s !! lp = None ∧
      s' !! lp = Some (Heap.OList hs) ∧
      Forall (λ h, ∃ attrs, new_object s s' "NetworkInterface" h attrs) hs.
Proof.
  intros s.
  destruct (Heap.from_raw_data_to_instance (Heap.HRef 4%positive) s)
    as [[t s'] r] eqn:Hrun.
  assert (Hr : r = Ok (Heap.HRef 9%positive)).
  { apply (f_equal snd) in Hrun. vm_compute in Hrun. by symmetry. }
  subst r. exists t, s'. split; [reflexivity|].
  exact (instance_is_new_and_shares_values s _ t s' _ Hrun).
Defined.

(** ** Parsing the text of an address *)

Module RoundTrip.
Import ipaddress ipaddress_str.

(** *** Splitting joined text *)

Lemma concat_cons sep (p q : string) parts :
  String.concat sep (p :: q :: parts)
  = p ++ sep ++ String.concat sep (q :: parts).
Proof. reflexivity. Qed.

Lemma split_no_sep sep a : contains_char sep a = false → split sep a = [a].
Proof.
  induction a as [|c a IH]; [done|]. cbn [contains_char split].
  destruct (Ascii.eqb c sep); [done|]. intros H. by rewrite IH.
Qed.

Lemma append_nil_l (s : string) : "" ++ s = s.
Proof. reflexivity. Qed.

Lemma append_cons c (a s : string) : String c a ++ s = String c (a ++ s).
Proof. reflexivity. Qed.

Lemma split_app_sep sep a b :
  contains_char sep a = false →
  split sep (a ++ String sep b) = a :: split sep b.
Proof.
  induction a as [|c a IH]; rewrite ?append_nil_l, ?append_cons;
    cbn [contains_char split].
  - by rewrite Ascii.eqb_refl.
  - destruct (Ascii.eqb c sep); [done|]. intros H. by rewrite IH.
Qed.

Lemma split_concat sep parts :
  parts ≠ [] →
  Forall (λ p, contains_char sep p = false) parts →
  split sep (String.concat (String sep "") parts) = parts.
Proof.
  intros Hne Hf. induction Hf as [|p parts Hp Hf IH]; [done|].
  destruct parts as [|q parts]; [by apply split_no_sep|].
  rewrite concat_cons, append_cons, append_nil_l.
  rewrite split_app_sep by done. f_equal. by apply IH.
Qed.

Lemma contains_char_app c a b :
  contains_char c (a ++ b) = contains_char c a || contains_char c b.
Proof.
  induction a as [|x a IH]; [done|]. rewrite append_cons.
  cbn [contains_char]. by rewrite IH, orb_assoc.
Qed.

Lemma contains_char_concat c sep parts :
  contains_char c sep = false →
  Forall (λ p, contains_char c p = false) parts →
  contains_char c (String.concat sep parts) = false.
Proof.
  intros Hsep Hf. induction Hf as [|p parts Hp Hf IH]; [done|].
  destruct parts as [|q parts]; [done|].
  by rewrite concat_cons, !contains_char_app, Hp, Hsep, IH.
Qed.

Lemma is_empty_app a b : is_empty a = false → is_empty (a ++ b) = false.
Proof. by destruct a. Qed.

Lemma is_empty_concat sep p parts :
  is_empty p = false → is_empty (String.concat sep (p :: parts)) = false.
Proof.
  intros Hp. destruct parts; [done|]. rewrite concat_cons.
  by apply is_empty_app.
Qed.

(** *** Integers as chunks of bits *)

(** The [w] bits of [n] from bit [k] on, put under the bits above them. *)
Lemma lor_shiftl_chunk n k w :
  (0 ≤ k)%Z → (0 ≤ w)%Z →
  Z.lor (Z.shiftl (Z.shiftr n (k + w)) w) (Z.land (Z.shiftr n k) (Z.ones w))
  = Z.shiftr n k.
Proof.
  intros Hk Hw. apply Z.bits_inj'. intros i Hi.
  rewrite Z.lor_spec, Z.land_spec, Z.shiftl_spec by lia.
  rewrite (Z.shiftr_spec n k i) by lia.
  destruct (Z.ltb_spec i w).
  - rewrite (Z.testbit_neg_r _ (i - w)), Z.ones_spec_low by lia.
    by rewrite andb_true_r.
  - rewrite Z.shiftr_spec by lia.
    rewrite Z.ones_spec_high, andb_false_r, orb_false_r by lia.
    f_equal. lia.
Qed.

Lemma shiftr_small n k : (0 ≤ n < 2 ^ k)%Z → (0 ≤ k)%Z → Z.shiftr n k = 0%Z.
Proof.
  intros Hn Hk. rewrite Z.shiftr_div_pow2 by done. by apply Z.div_small.
Qed.

Lemma from_bytes_big_to_bytes_big n :
  (0 ≤ n ≤ IPV4_ALL_ONES)%Z → from_bytes_big (to_bytes_big n) = n.
Proof.
  intros Hn. unfold IPV4_ALL_ONES in Hn.
  unfold from_bytes_big, to_bytes_big. cbn [fold_left].
  change 255%Z with (Z.ones 8).
  rewrite <- (shiftr_small n 32) by lia.
  change 32%Z with (24 + 8)%Z at 1. rewrite lor_shiftl_chunk by lia.
  change 24%Z with (16 + 8)%Z at 1. rewrite lor_shiftl_chunk by lia.
  change 16%Z with (8 + 8)%Z at 1. rewrite lor_shiftl_chunk by lia.
  rewrite <- (Z.shiftr_0_r n) at 2.
  change 8%Z with (0 + 8)%Z at 1. rewrite lor_shiftl_chunk by lia.
  apply Z.shiftr_0_r.
Qed.

Lemma to_bytes_big_range n :
  Forall (λ b, 0 ≤ b ≤ 255)%Z (to_bytes_big n).
Proof.
  unfold to_bytes_big. change 255%Z with (Z.ones 8).
  repeat constructor;
    rewrite Z.land_ones by lia;
    (pose proof (Z.mod_pos_bound (Z.shiftr n 24) (2 ^ 8) eq_refl);
     pose proof (Z.mod_pos_bound (Z.shiftr n 16) (2 ^ 8) eq_refl);
     pose proof (Z.mod_pos_bound (Z.shiftr n 8) (2 ^ 8) eq_refl);
     pose proof (Z.mod_pos_bound n (2 ^ 8) eq_refl));
    change (Z.ones 8) with 255%Z; lia.
Qed.

(** *** Dotted quads *)

Lemma byte_facts b :
  (0 ≤ b ≤ 255)%Z →
  parse_octet (str_of_byte b) = Some b ∧
  contains_char "." (str_of_byte b) = false ∧
  contains_char "/" (str_of_byte b) = false ∧
  is_empty (str_of_byte b) = false.
Proof.
  intros Hb.
  assert (Hall : forallb byte_checked (seqZ 0 256) = true)
    by (vm_compute; reflexivity).
  rewrite List.forallb_forall in Hall.
  specialize (Hall b). unfold byte_checked in Hall.
  rewrite !andb_true_iff, !negb_true_iff, bool_decide_eq_true in Hall.
  destruct Hall as [[[? ?] ?] ?]; [|done].
  apply list_elem_of_In, elem_of_seqZ. lia.
Qed.

Lemma v4_int_from_string_nonempty ip_str :
  is_empty ip_str = false →
  v4_int_from_string ip_str
  = let octets := split "." ip_str in
    if negb (length octets =? 4)%nat then None
    else from_bytes_big <$> mapM parse_octet octets.
Proof. by destruct ip_str. Qed.

(** The text of a 32-bit integer parses back to the integer. *)
Lemma v4_round_trip n :
  (0 ≤ n ≤ IPV4_ALL_ONES)%Z →
  IPv4Address_of_string (v4_string_from_ip_int n) = Some n.
Proof.
  intros Hn. pose proof (from_bytes_big_to_bytes_big n Hn) as Hback.
  pose proof (to_bytes_big_range n) as Hr.
  unfold v4_string_from_ip_int. unfold to_bytes_big in *.
  set (b3 := Z.land (Z.shiftr n 24) 255) in *.
  set (b2 := Z.land (Z.shiftr n 16) 255) in *.
  set (b1 := Z.land (Z.shiftr n 8) 255) in *.
  set (b0 := Z.land n 255) in *.
  clearbody b3 b2 b1 b0.
  apply Forall_cons in Hr as [(P3 & D3 & S3 & E3)%byte_facts Hr].
  apply Forall_cons in Hr as [(P2 & D2 & S2 & E2)%byte_facts Hr].
  apply Forall_cons in Hr as [(P1 & D1 & S1 & E1)%byte_facts Hr].
  apply Forall_cons in Hr as [(P0 & D0 & S0 & E0)%byte_facts _].
  cbn [fmap list_fmap].
  unfold IPv4Address_of_string.
  rewrite contains_char_concat by (by repeat constructor).
  rewrite v4_int_from_string_nonempty by (by apply is_empty_concat).
  cbv zeta.
  rewrite (split_concat "." [_; _; _; _]) by (by repeat constructor).
  cbn [length Nat.eqb negb mapM]. rewrite P3, P2, P1, P0.
  change (from_bytes_big <$> Some [b3; b2; b1; b0] = Some n).
  cbn [fmap option_fmap option_map]. by rewrite Hback.
Qed.

(** *** Hextets *)

Lemma hex_digits h :
  (0 ≤ h < 65536)%Z →
  let d3 := Z.land (Z.shiftr h 12) 15 in
  let d2 := Z.land (Z.shiftr h 8) 15 in
  let d1 := Z.land (Z.shiftr h 4) 15 in
  let d0 := Z.land h 15 in
  (0 ≤ d3 ≤ 15)%Z ∧ (0 ≤ d2 ≤ 15)%Z ∧ (0 ≤ d1 ≤ 15)%Z ∧ (0 ≤ d0 ≤ 15)%Z ∧
  h = (16 * (16 * (16 * (16 * 0 + d3) + d2) + d1) + d0)%Z.
Proof.
  intros Hh. cbv zeta. change 15 with (Z.ones 4).
  rewrite !Z.land_ones, !Z.shiftr_div_pow2 by lia.
  change (Z.ones 4) with 15. change (2 ^ 12) with 4096. change (2 ^ 8) with 256. change (2 ^ 4) with 16.
  Z.div_mod_to_equations; lia.
Qed.

Lemma digit_facts d :
  (0 ≤ d ≤ 15)%Z →
  hex_value (hex_digit d) = Some d ∧
  Ascii.eqb (hex_digit d) ":" = false ∧ Ascii.eqb (hex_digit d) "." = false ∧
  Ascii.eqb (hex_digit d) "%" = false ∧ Ascii.eqb (hex_digit d) "/" = false ∧
  Ascii.eqb (hex_digit d) "0" = (d =? 0)%Z.
Proof.
  intros Hd.
  assert (Hall : forallb digit_checked (seqZ 0 16) = true)
    by (vm_compute; reflexivity).
  rewrite List.forallb_forall in Hall.
  specialize (Hall d). unfold digit_checked in Hall.
  rewrite !andb_true_iff, !negb_true_iff, bool_decide_eq_true in Hall.
  destruct Hall as [[[[[? ?] ?] ?] ?] E]; [apply list_elem_of_In, elem_of_seqZ; lia|].
  apply Bool.eqb_prop in E. done.
Qed.

Lemma hextet_facts h :
  (0 ≤ h < 65536)%Z →
  parse_hextet (hex_string h) = Some h ∧
  contains_char ":" (hex_string h) = false ∧
  contains_char "." (hex_string h) = false ∧
  contains_char "%" (hex_string h) = false ∧
  contains_char "/" (hex_string h) = false ∧
  String.eqb (hex_string h) "" = false ∧
  String.eqb (hex_string h) "0" = (h =? 0)%Z.
Proof.
  intros Hh. destruct (hex_digits h Hh) as (H3 & H2 & H1 & H0 & Hsum).
  unfold hex_string. cbv zeta in *.
  set (d3 := Z.land (Z.shiftr h 12) 15) in *.
  set (d2 := Z.land (Z.shiftr h 8) 15) in *.
  set (d1 := Z.land (Z.shiftr h 4) 15) in *.
  set (d0 := Z.land h 15) in *.
  clearbody d3 d2 d1 d0.
  destruct (digit_facts d3 H3) as (V3 & A3 & B3 & C3 & D3 & Z3).
  destruct (digit_facts d2 H2) as (V2 & A2 & B2 & C2 & D2 & Z2).
  destruct (digit_facts d1 H1) as (V1 & A1 & B1 & C1 & D1 & Z1).
  destruct (digit_facts d0 H0) as (V0 & A0 & B0 & C0 & D0 & Z0).
  generalize dependent (hex_digit d3). generalize dependent (hex_digit d2).
  generalize dependent (hex_digit d1). generalize dependent (hex_digit d0).
  intros c0 V0 A0 B0 C0 D0 Z0 c1 V1 A1 B1 C1 D1 Z1 c2 V2 A2 B2 C2 D2 Z2
    c3 V3 A3 B3 C3 D3 Z3.
  unfold parse_hextet.
  destruct (Z.ltb_spec 0 d3); [|destruct (Z.ltb_spec 0 d2);
    [|destruct (Z.ltb_spec 0 d1)]];
    cbn [all_chars contains_char String.eqb int_of_hex String.length];
    rewrite ?V3, ?V2, ?V1, ?V0, ?A3, ?A2, ?A1, ?A0, ?B3, ?B2, ?B1, ?B0,
      ?C3, ?C2, ?C1, ?C0, ?D3, ?D2, ?D1, ?D0, ?Z3, ?Z2, ?Z1, ?Z0;
    cbn [bool_decide decide_rel orb andb negb];
    rewrite ?bool_decide_true by eauto;
    cbn [andb negb Nat.ltb Nat.leb];
    repeat split; try done; try (f_equal; lia);
    rewrite ?andb_false_r; try (symmetry; apply Z.eqb_neq; lia).
  all: destruct (Z.eqb_spec h 0), (Z.eqb_spec d3 0), (Z.eqb_spec d2 0),
         (Z.eqb_spec d1 0), (Z.eqb_spec d0 0); try reflexivity; lia.
Qed.

Lemma is_empty_concat2 sep p q parts :
  is_empty sep = false →
  is_empty (String.concat sep (p :: q :: parts)) = false.
Proof.
  intros Hs. rewrite concat_cons. destruct p; [|done].
  rewrite append_nil_l. by apply is_empty_app.
Qed.

Lemma contains_sep_concat2 sep p q parts :
  contains_char sep (String.concat (String sep "") (p :: q :: parts)) = true.
Proof.
  rewrite concat_cons, !contains_char_app. cbn [contains_char].
  by rewrite Ascii.eqb_refl, orb_true_r.
Qed.

Lemma canon_eqb b : String.eqb (canon b) "0" = b.
Proof. by destruct b. Qed.

Lemma best_doublecolon_flags xs ys :
  (λ x, String.eqb x "0") <$> xs = (λ y, String.eqb y "0") <$> ys →
  ∀ i ds dl bs bl,
    best_doublecolon xs i ds dl bs bl = best_doublecolon ys i ds dl bs bl.
Proof.
  revert ys. induction xs as [|x xs IH]; intros [|y ys] H; try discriminate H.
  - done.
  - injection H as Hxy H. intros i ds dl bs bl. cbn [best_doublecolon].
    rewrite Hxy. destruct (String.eqb y "0"); [|by apply IH].
    destruct (_ <? _)%nat; by apply IH.
Qed.

Lemma best_doublecolon_run (b0 b1 b2 b3 b4 b5 b6 b7 : bool) s len :
  best_doublecolon (canon <$> [b0; b1; b2; b3; b4; b5; b6; b7]) 0 None 0 None 0
  = (Some s, len) →
  (1 < len)%nat →
  (s + len ≤ 8)%nat ∧
  forallb (λ i, nth i [b0; b1; b2; b3; b4; b5; b6; b7] false) (seq s len)
  = true.
Proof.
  destruct b0, b1, b2, b3, b4, b5, b6, b7; vm_compute;
    intros [= <- <-] Hlen; (split; [lia||(exfalso; lia)|reflexivity||(exfalso; lia)]).
Qed.

Ltac rewrite_facts :=
  repeat match goal with
         | H : _ = _ |- _ => rewrite H
         end.

Ltac parse_parts :=
  cbn [take drop app length Nat.eqb Nat.ltb Nat.leb Nat.add];
  split; [|by apply contains_sep_concat2];
  unfold v6_int_from_string;
  rewrite is_empty_concat2 by reflexivity;
  cbv zeta;
  rewrite split_concat
    by (first [discriminate
              |repeat constructor; assumption || reflexivity ]);
  repeat (cbn -[parse_hextet Z.shiftl Z.lor Z.mul Z.of_nat];
          unfold is_empty;
          rewrite_facts);
  unfold int_of_hextets; cbn [fold_left];
  rewrite ?Z.lor_0_r;
  repeat rewrite Z.shiftl_shiftl by (cbn; lia);
  repeat (f_equal; try (cbn; lia)).

Lemma hextets_round_trip x0 x1 x2 x3 x4 x5 x6 x7 h0 h1 h2 h3 h4 h5 h6 h7 :
  hextet_text x0 h0 → hextet_text x1 h1 → hextet_text x2 h2 → hextet_text x3 h3 →
  hextet_text x4 h4 → hextet_text x5 h5 → hextet_text x6 h6 → hextet_text x7 h7 →
  let text :=
    String.concat ":" (compress_hextets [x0; x1; x2; x3; x4; x5; x6; x7]) in
  v6_int_from_string text
  = Some (int_of_hextets [h0; h1; h2; h3; h4; h5; h6; h7]) ∧
  contains_char ":" text = true.
Proof.
  intros (P0 & A0 & B0 & E0 & Z0) (P1 & A1 & B1 & E1 & Z1)
    (P2 & A2 & B2 & E2 & Z2) (P3 & A3 & B3 & E3 & Z3)
    (P4 & A4 & B4 & E4 & Z4) (P5 & A5 & B5 & E5 & Z5)
    (P6 & A6 & B6 & E6 & Z6) (P7 & A7 & B7 & E7 & Z7).
  cbv zeta. unfold compress_hextets.
  rewrite (best_doublecolon_flags [x0; x1; x2; x3; x4; x5; x6; x7]
             (canon <$> [(h0 =? 0)%Z; (h1 =? 0)%Z; (h2 =? 0)%Z; (h3 =? 0)%Z;
                         (h4 =? 0)%Z; (h5 =? 0)%Z; (h6 =? 0)%Z; (h7 =? 0)%Z])).
  2:{ cbn [fmap list_fmap]. rewrite Z0, Z1, Z2, Z3, Z4, Z5, Z6, Z7.
      by rewrite !canon_eqb. }
  pose proof (best_doublecolon_run (h0 =? 0)%Z (h1 =? 0)%Z (h2 =? 0)%Z
                (h3 =? 0)%Z (h4 =? 0)%Z (h5 =? 0)%Z (h6 =? 0)%Z (h7 =? 0)%Z)
    as Hrun.
  destruct (best_doublecolon _ 0 None 0 None 0) as [[s|] len];
    [|clear Hrun Z0 Z1 Z2 Z3 Z4 Z5 Z6 Z7; parse_parts].
  destruct len as [|[|len]];
    [clear Hrun Z0 Z1 Z2 Z3 Z4 Z5 Z6 Z7; parse_parts..|].
  destruct (Hrun s _ eq_refl) as [Hle Hall]; [lia|]. clear Hrun.
  clear Z0 Z1 Z2 Z3 Z4 Z5 Z6 Z7.
  destruct s as [|[|[|[|[|[|[|s]]]]]]];
    (destruct len as [|[|[|[|[|[|[|len]]]]]]]; try (exfalso; lia));
    cbn [seq forallb nth] in Hall;
    rewrite ?andb_true_iff, ?Z.eqb_eq in Hall;
    decompose [and] Hall; clear Hall Hle; subst;
    parse_parts.
Qed.

Lemma int_of_hextets_of_int n :
  (0 ≤ n ≤ IPV6_ALL_ONES)%Z → int_of_hextets (hextets_of_int n) = n.
Proof.
  intros Hn. unfold IPV6_ALL_ONES in Hn.
  unfold int_of_hextets, hextets_of_int. cbn [fmap list_fmap fold_left].
  change 65535%Z with (Z.ones 16).
  pose proof (lor_shiftl_chunk n (16 * 7) 16 ltac:(lia) ltac:(lia)) as H7.
  change (16 * 7 + 16)%Z with 128%Z in H7.
  rewrite (shiftr_small n 128) in H7 by lia. rewrite H7.
  change (16 * 7)%Z with (16 * 6 + 16)%Z. rewrite lor_shiftl_chunk by lia.
  change (16 * 6)%Z with (16 * 5 + 16)%Z. rewrite lor_shiftl_chunk by lia.
  change (16 * 5)%Z with (16 * 4 + 16)%Z. rewrite lor_shiftl_chunk by lia.
  change (16 * 4)%Z with (16 * 3 + 16)%Z. rewrite lor_shiftl_chunk by lia.
  change (16 * 3)%Z with (16 * 2 + 16)%Z. rewrite lor_shiftl_chunk by lia.
  change (16 * 2)%Z with (16 * 1 + 16)%Z. rewrite lor_shiftl_chunk by lia.
  change (16 * 1)%Z with (16 * 0 + 16)%Z. rewrite lor_shiftl_chunk by lia.
  apply Z.shiftr_0_r.
Qed.

Lemma hextets_of_int_range n :
  Forall (λ h, 0 ≤ h < 65536)%Z (hextets_of_int n).
Proof.
  unfold hextets_of_int. apply Forall_fmap, Forall_forall. intros i _.
  change (0 ≤ Z.land (Z.shiftr n (16 * i)) (Z.ones 16) < 65536)%Z.
  rewrite Z.land_ones by lia. apply Z.mod_pos_bound. lia.
Qed.

Lemma hextet_text_hex_string h :
  (0 ≤ h < 65536)%Z → hextet_text (hex_string h) h.
Proof. intros (? & ? & ? & _ & _ & ? & ?)%hextet_facts. by repeat split. Qed.

(** The parts of a compressed address are hextets of the address or
    empty. *)
Lemma compress_hextets_Forall (P : string → Prop) hextets :
  P "" → Forall P hextets → Forall P (compress_hextets hextets).
Proof.
  intros He Hf. unfold compress_hextets.
  destruct (best_doublecolon hextets 0 None 0 None 0) as [[s|] len]; [|done].
  destruct (1 <? len)%nat; [|done].
  assert (Hf' : Forall P (if (s + len =? length hextets)%nat
                          then (hextets ++ [""])%list else hextets)).
  { destruct (_ =? _)%nat; [|done]. apply Forall_app. by repeat constructor. }
  assert (Forall P (take s (if (s + len =? length hextets)%nat
                            then (hextets ++ [""])%list else hextets)
                    ++ "" :: drop (s + len)
                               (if (s + len =? length hextets)%nat
                                then (hextets ++ [""])%list else hextets))).
  { apply Forall_app. split; [by apply Forall_take|].
    constructor; [done|by apply Forall_drop]. }
  destruct (s =? 0)%nat; [by constructor|done].
Qed.

(** The text of a 128-bit integer parses back to the integer. *)
Lemma v6_round_trip n :
  (0 ≤ n ≤ IPV6_ALL_ONES)%Z →
  v6_int_from_string (v6_string_from_ip_int n) = Some n ∧
  contains_char ":" (v6_string_from_ip_int n) = true ∧
  contains_char "." (v6_string_from_ip_int n) = false ∧
  contains_char "%" (v6_string_from_ip_int n) = false ∧
  contains_char "/" (v6_string_from_ip_int n) = false.
Proof.
  intros Hn. pose proof (int_of_hextets_of_int n Hn) as Hback.
  pose proof (hextets_of_int_range n) as Hr.
  assert (Hno : ∀ c, c = "."%char ∨ c = "%"%char ∨ c = "/"%char →
            contains_char c (v6_string_from_ip_int n) = false).
  { intros c Hc. unfold v6_string_from_ip_int.
    apply contains_char_concat.
    - by destruct Hc as [->|[->| ->]].
    - apply compress_hextets_Forall; [done|].
      apply Forall_fmap. eapply Forall_impl; [exact Hr|].
      intros h (_ & _ & ? & ? & ? & _)%hextet_facts.
      by destruct Hc as [->|[->| ->]]. }
  split_and!; try (apply Hno; tauto).
  - unfold v6_string_from_ip_int. rewrite <- Hback at 2.
    unfold hextets_of_int in *. cbn [fmap list_fmap] in *.
    repeat match goal with
    | H : Forall _ (_ :: _) |- _ => apply Forall_cons in H as [? H]
    end.
    apply hextets_round_trip; by apply hextet_text_hex_string.
  - unfold v6_string_from_ip_int.
    unfold hextets_of_int in *. cbn [fmap list_fmap] in *.
    repeat match goal with
    | H : Forall _ (_ :: _) |- _ => apply Forall_cons in H as [? H]
    end.
    eapply hextets_round_trip; by apply hextet_text_hex_string.
Qed.

(** *** Scope ids and the choice of the version *)

Lemma partition_percent_app a r :
  contains_char "%" a = false →
  partition_percent (a ++ String "%" r) = (a, Some r).
Proof.
  induction a as [|c a IH]; [done|].
  cbn [contains_char]. intros [Hc Ha]%orb_false_iff.
  rewrite append_cons. cbn [partition_percent]. by rewrite Hc, IH.
Qed.

Lemma partition_percent_none a :
  contains_char "%" a = false → partition_percent a = (a, None).
Proof.
  induction a as [|c a IH]; [done|].
  cbn [contains_char partition_percent]. intros [Hc Ha]%orb_false_iff.
  by rewrite Hc, IH.
Qed.

(** A text that holds a colon is no octet. *)
Lemma parse_octet_colon x : contains_char ":" x = true → parse_octet x = None.
Proof.
  intros Hx. assert (Hd : all_chars is_digit x = false).
  { induction x as [|c x IH]; [done|]. cbn [contains_char all_chars] in *.
    apply orb_true_iff in Hx as [->%Ascii.eqb_eq|Hx]; [done|].
    rewrite IH by done. apply andb_false_r. }
  unfold parse_octet. destruct x; [done|]. by rewrite Hd.
Qed.

(** A character of a text, other than the separator, is in one of the
    parts. *)
Lemma split_contains c sep s :
  c ≠ sep → contains_char c s = true →
  Exists (λ p, contains_char c p = true) (split sep s).
Proof.
  intros Hne. induction s as [|c' s IH]; [done|].
  cbn [contains_char split]. intros Hc.
  destruct (Ascii.eqb_spec c' sep) as [->|Hsep].
  - apply Exists_cons_tl, IH.
    apply orb_true_iff in Hc as [Hc%Ascii.eqb_eq|Hc]; [by subst|done].
  - apply orb_true_iff in Hc as [Hc|Hc].
    + destruct (split sep s); apply Exists_cons_hd; cbn [contains_char];
        by rewrite Hc.
    + specialize (IH Hc). destruct (split sep s) as [|p ps]; [by inversion IH|].
      apply Exists_cons in IH as [Hp|Hps].
      * apply Exists_cons_hd. cbn [contains_char]. rewrite Hp.
        apply orb_true_r.
      * by apply Exists_cons_tl.
Qed.

(** A text that holds a colon is no IPv4 address. *)
Lemma IPv4Address_of_string_colon s :
  contains_char ":" s = true → IPv4Address_of_string s = None.
Proof.
  intros Hs. unfold IPv4Address_of_string. destruct (contains_char "/" s); [done|].
  unfold v4_int_from_string. destruct s as [|c s]; [done|].
  destruct (negb _); [done|].
  assert (mapM parse_octet (split "." (String c s)) = None) as ->; [|done].
  apply mapM_None. eapply Exists_impl.
  - by apply (split_contains ":" "." (String c s)).
  - intros x. apply parse_octet_colon.
Qed.

(** The text of an IPv6 address, with its scope id, parses back to the
    address. *)
Lemma IPv6Address_round_trip n scope_id :
  well_formed (IPv6Address n scope_id) →
  ip_address_of_string (str (IPv6Address n scope_id)) =
    Some (IPv6Address n scope_id).
Proof.
  intros [Hn Hid].
  destruct (v6_round_trip n Hn) as (Hparse & Hcolon & _ & Hpercent & Hslash).
  unfold ip_address_of_string. cbn [str].
  destruct scope_id as [id|].
  - destruct Hid as (Hempty & Hidp & Hids). rewrite Hempty.
    change ("%" ++ id) with (String "%" id).
    rewrite IPv4Address_of_string_colon
      by (rewrite contains_char_app, Hcolon; done).
    unfold IPv6Address_of_string.
    rewrite contains_char_app, Hslash. cbn [contains_char orb].
    rewrite Hids. change (Ascii.eqb "%" "/") with false. cbn [orb].
    unfold split_scope_id. rewrite partition_percent_app by done.
    rewrite Hempty, Hidp. cbn [orb mbind option_bind]. by rewrite Hparse.
  - rewrite IPv4Address_of_string_colon by done.
    unfold IPv6Address_of_string. rewrite Hslash.
    unfold split_scope_id. rewrite partition_percent_none by done.
    cbn [mbind option_bind]. by rewrite Hparse.
Qed.

(** [ip_address(str(a))] is [a]. *)
Lemma str_round_trip a : well_formed a → ip_address_of_string (str a) = Some a.
Proof.
  destruct a as [n|n scope_id]; [|apply IPv6Address_round_trip].
  intros Hn. unfold ip_address_of_string. cbn [str].
  by rewrite v4_round_trip.
Qed.

(** *** The range of the parser *)

Lemma lor_shiftl_bound acc o k w :
  (0 ≤ k)%Z → (0 ≤ w)%Z → (0 ≤ acc < 2 ^ k)%Z → (0 ≤ o < 2 ^ w)%Z →
  (0 ≤ Z.lor (Z.shiftl acc w) o < 2 ^ (k + w))%Z.
Proof.
  intros Hk Hw Hacc Ho.
  assert (H0 : (0 ≤ Z.lor (Z.shiftl acc w) o)%Z).
  { apply Z.lor_nonneg. split; [apply Z.shiftl_nonneg|]; lia. }
  split; [done|].
  assert (Hpow : (2 ^ w ≤ 2 ^ (k + w))%Z) by (apply Z.pow_le_mono_r; lia).
  assert (Hs : Z.shiftr (Z.lor (Z.shiftl acc w) o) (k + w) = 0%Z).
  { rewrite Z.shiftr_lor, (shiftr_small o (k + w)), Z.lor_0_r by lia.
    transitivity (Z.shiftr acc k); [|by apply shiftr_small].
    apply Z.bits_inj'. intros i Hi.
    rewrite !Z.shiftr_spec, Z.shiftl_spec by lia. f_equal. lia. }
  rewrite Z.shiftr_div_pow2 in Hs by lia.
  apply Z.div_small_iff in Hs; lia.
Qed.

Lemma int_of_digits_nonneg s acc :
  all_chars is_digit s = true → (0 ≤ acc)%Z → (0 ≤ int_of_digits acc s)%Z.
Proof.
  revert acc. induction s as [|c s IH]; [done|].
  cbn [all_chars int_of_digits]. intros acc [Hc Hs]%andb_true_iff Hacc.
  apply IH; [done|]. unfold is_digit, digit_value in *.
  apply andb_true_iff in Hc as [Hc%Nat.leb_le _]. lia.
Qed.

Lemma parse_octet_range x b :
  parse_octet x = Some b → (0 ≤ b ≤ 255)%Z.
Proof.
  unfold parse_octet. destruct x as [|c x]; [done|].
  destruct (all_chars is_digit (String c x)) eqn:Hd; [|done].
  cbn [negb]. destruct (3 <? _)%nat; [done|].
  destruct (_ && _); [done|].
  destruct (Z.ltb_spec 255 (int_of_digits 0 (String c x))); [done|].
  intros [= <-]. split; [|done]. apply (int_of_digits_nonneg (String c x) 0); [done|lia].
Qed.

Lemma from_bytes_range octets acc k :
  (0 ≤ k)%Z → (0 ≤ acc < 2 ^ k)%Z →
  Forall (λ b, 0 ≤ b ≤ 255)%Z octets →
  (0 ≤ fold_left (λ acc o, Z.lor (Z.shiftl acc 8) o) octets acc
     < 2 ^ (k + 8 * Z.of_nat (length octets)))%Z.
Proof.
  intros Hk Hacc Hf. revert acc k Hk Hacc.
  induction Hf as [|b octets Hb Hf IH]; intros acc k Hk Hacc.
  - cbn [fold_left length]. by replace (k + 8 * Z.of_nat 0)%Z with k by lia.
  - cbn [fold_left length].
    replace (k + 8 * Z.of_nat (S (length octets)))%Z
      with (k + 8 + 8 * Z.of_nat (length octets))%Z by lia.
    apply IH; [lia|]. apply lor_shiftl_bound; [lia..|].
    change (2 ^ 8)%Z with 256%Z. lia.
Qed.

(** The integer of a dotted quad has 32 bits. *)
Lemma IPv4Address_of_string_range s n :
  IPv4Address_of_string s = Some n → (0 ≤ n ≤ IPV4_ALL_ONES)%Z.
Proof.
  unfold IPv4Address_of_string, v4_int_from_string.
  destruct (contains_char "/" s); [done|]. destruct s as [|c s]; [done|].
  destruct (Nat.eqb_spec (length (split "." (String c s))) 4) as [Hlen|];
    [|done].
  cbn [negb]. intros (octets & Hoctets & ->)%fmap_Some.
  apply mapM_Some in Hoctets.
  pose proof (Forall2_length _ _ _ Hoctets) as Hlen'.
  assert (Hr : Forall (λ b, 0 ≤ b ≤ 255)%Z octets).
  { clear Hlen Hlen'. induction Hoctets as [|x b xs bs Hb _ IH]; [done|].
    constructor; [by eapply parse_octet_range|done]. }
  pose proof (from_bytes_range octets 0 0 ltac:(lia) ltac:(lia) Hr) as Hn.
  rewrite <- Hlen', Hlen in Hn. unfold from_bytes_big, IPV4_ALL_ONES.
  change (0 + 8 * Z.of_nat 4)%Z with 32%Z in Hn. lia.
Qed.

Lemma hex_value_range c d : hex_value c = Some d → (0 ≤ d < 16)%Z.
Proof.
  unfold hex_value.
  repeat match goal with
  | |- context [(?a <=? ?b)%nat] => destruct (Nat.leb_spec a b)
  end; cbn [andb]; intros [= <-] || done; lia.
Qed.

Lemma int_of_hex_range s acc k r :
  (0 ≤ k)%Z → (0 ≤ acc < 2 ^ k)%Z → int_of_hex acc s = Some r →
  (0 ≤ r < 2 ^ (k + 4 * Z.of_nat (String.length s)))%Z.
Proof.
  revert acc k. induction s as [|c s IH]; intros acc k Hk Hacc.
  - cbn [int_of_hex String.length]. intros [= <-].
    by replace (k + 4 * Z.of_nat 0)%Z with k by lia.
  - cbn [int_of_hex String.length].
    destruct (hex_value c) as [d|] eqn:Hd; [|done].
    apply hex_value_range in Hd. intros Hr.
    replace (k + 4 * Z.of_nat (S (String.length s)))%Z
      with (k + 4 + 4 * Z.of_nat (String.length s))%Z by lia.
    apply (IH (16 * acc + d)%Z); [lia| |done].
    rewrite Z.pow_add_r by lia. change (2 ^ 4)%Z with 16%Z. lia.
Qed.

Lemma parse_hextet_range x h : parse_hextet x = Some h → (0 ≤ h < 65536)%Z.
Proof.
  unfold parse_hextet. destruct (negb _); [done|].
  destruct (Nat.ltb_spec 4 (String.length x)) as [|Hlen]; [done|].
  destruct x as [|c x]; [done|].
  intros Hh%(int_of_hex_range _ 0 0); [|lia..].
  assert (2 ^ (0 + 4 * Z.of_nat (String.length (String c x))) ≤ 2 ^ 16)%Z
    by (apply Z.pow_le_mono_r; lia).
  change (2 ^ 16)%Z with 65536%Z in *. lia.
Qed.

Lemma accumulate_hextets_range hextets acc k r :
  (0 ≤ k)%Z → (0 ≤ acc < 2 ^ k)%Z → accumulate_hextets acc hextets = Some r →
  (0 ≤ r < 2 ^ (k + 16 * Z.of_nat (length hextets)))%Z.
Proof.
  revert acc k. induction hextets as [|x hextets IH]; intros acc k Hk Hacc.
  - cbn [accumulate_hextets length]. intros [= <-].
    by replace (k + 16 * Z.of_nat 0)%Z with k by lia.
  - cbn [accumulate_hextets length].
    destruct (parse_hextet x) as [h|] eqn:Hh; [|done].
    apply parse_hextet_range in Hh. intros Hr.
    replace (k + 16 * Z.of_nat (S (length hextets)))%Z
      with (k + 16 + 16 * Z.of_nat (length hextets))%Z by lia.
    apply (IH (Z.lor (Z.shiftl acc 16) h)); [lia| |done].
    apply lor_shiftl_bound; [lia..|]. change (2 ^ 16)%Z with 65536%Z. lia.
Qed.

(** The hextets the two loops read, and the places left to the ['::'],
    are eight at most. *)
Lemma v6_int_from_string_range s n :
  v6_int_from_string s = Some n → (0 ≤ n ≤ IPV6_ALL_ONES)%Z.
Proof.
  unfold v6_int_from_string. destruct (is_empty s); [done|].
  cbv zeta. destruct (length (split ":" s) <? 3)%nat; [done|].
  intros (parts & _ & H)%bind_Some.
  destruct (HEXTET_COUNT + 1 <? length parts)%nat; [done|].
  apply bind_Some in H as (skip_index & _ & H).
  apply bind_Some in H as ([[parts_hi parts_lo] parts_skipped] & Hcount & H).
  apply bind_Some in H as (ip_int & Hhi & Hlo).
  assert (Hsum : (parts_hi + parts_lo + parts_skipped ≤ 8)%nat).
  { unfold HEXTET_COUNT in Hcount. destruct skip_index as [skip_index|].
    - apply bind_Some in Hcount as (hi & _ & Hcount).
      apply bind_Some in Hcount as (lo & _ & Hcount).
      destruct (Nat.ltb_spec 8 (hi + lo + 1)); [done|].
      injection Hcount as <- <- <-. lia.
    - destruct (Nat.eqb_spec (length parts) 8); [|done]. cbn [negb] in Hcount.
      repeat (destruct (is_empty _); [done|]).
      injection Hcount as <- <- <-. lia. }
  apply (accumulate_hextets_range _ 0 0) in Hhi; [|lia..].
  pose proof (length_take parts parts_hi) as Hlhi.
  pose proof (length_drop parts (length parts - parts_lo)) as Hllo.
  set (a := length (take parts_hi parts)) in *.
  set (b := length (drop (length parts - parts_lo) parts)) in *.
  apply (accumulate_hextets_range _ _
           (16 * Z.of_nat a + 16 * Z.of_nat parts_skipped)) in Hlo; [|lia|].
  - fold b in Hlo.
    assert (2 ^ (16 * Z.of_nat a + 16 * Z.of_nat parts_skipped
                 + 16 * Z.of_nat b) ≤ 2 ^ 128)%Z
      by (apply Z.pow_le_mono_r; lia).
    unfold IPV6_ALL_ONES. lia.
  - rewrite Z.shiftl_mul_pow2, Z.pow_add_r by lia.
    replace (0 + 16 * Z.of_nat a)%Z with (16 * Z.of_nat a)%Z in Hhi by lia.
    assert (0 < 2 ^ (16 * Z.of_nat parts_skipped))%Z
      by (apply Z.pow_pos_nonneg; lia).
    nia.
Qed.

Lemma partition_percent_Some s a r :
  partition_percent s = (a, Some r) → s = a ++ String "%" r.
Proof.
  revert a. induction s as [|c s IH]; intros a; [done|].
  cbn [partition_percent]. destruct (Ascii.eqb_spec c "%") as [->|_].
  - by intros [= <- <-].
  - destruct (partition_percent s) as [a' r'].
    intros [= <- ->]. rewrite append_cons. f_equal. by apply IH.
Qed.

(** The address of a text is well formed. *)
Lemma ip_address_of_string_well_formed s a :
  ip_address_of_string s = Some a → well_formed a.
Proof.
  unfold ip_address_of_string.
  destruct (IPv4Address_of_string s) as [n|] eqn:H4.
  { intros [= <-]. by apply IPv4Address_of_string_range in H4. }
  unfold IPv6Address_of_string.
  destruct (contains_char "/" s) eqn:Hslash; [done|].
  intros ([addr scope_id] & Hsplit & H)%bind_Some.
  apply bind_Some in H as (n & Hn%v6_int_from_string_range & [= <-]).
  split; [done|]. unfold split_scope_id in Hsplit.
  destruct (partition_percent s) as [addr' [id|]] eqn:Hpart.
  - destruct (is_empty id) eqn:Hempty; [done|].
    destruct (contains_char "%" id) eqn:Hpercent; [done|].
    injection Hsplit as <- <-. split_and!; [done..|].
    apply partition_percent_Some in Hpart. subst s.
    rewrite contains_char_app in Hslash.
    apply orb_false_iff in Hslash as [_ Hslash].
    cbn [contains_char] in Hslash. by apply orb_false_iff in Hslash as [_ ?].
  - by injection Hsplit as <- <-.
Qed.

Lemma ip_address_of_int_well_formed z a :
  ip_address_of_int z = Some a → well_formed a.
Proof.
  unfold ip_address_of_int.
  destruct (Z.leb_spec 0 z); [|done]. cbn [andb].
  destruct (Z.leb_spec z IPV4_ALL_ONES); [by intros [= <-]|].
  destruct (Z.leb_spec z IPV6_ALL_ONES); [by intros [= <-]|done].
Qed.

(** What [ip_address] returns is well formed, when its argument is. *)
Lemma parsed_well_formed v a :
  well_formed_value v → ip_address v = Some a → well_formed a.
Proof.
  destruct v as [|b|z|s|ts|a'|l|d]; cbn [well_formed_value ip_address];
    intros Hv Ha; try done.
  - by eapply ip_address_of_int_well_formed.
  - by eapply ip_address_of_int_well_formed.
  - by eapply ip_address_of_string_well_formed.
  - by injection Ha as <-.
Qed.

End RoundTrip.

(** X27.  The text of an address object parses back to the address:
    [ip_address(str(a))] is [a], for an address of 32 bits, or of 128 bits
    with or without a scope id.  This is what line 114 does with the
    address line 103 has parsed. *)
Theorem address_text_parses_back a :
  ipaddress_str.well_formed a → ip_address (VStr (ipaddress_str.str a)) = Some a.
Proof. apply RoundTrip.str_round_trip. Qed.

(** The scoped address [::1%eth0]. *)
Lemma address_text_parses_back_witness :
  let a := ipaddress.IPv6Address 1 (Some "eth0") in
  ipaddress_str.str a = "::1%eth0" ∧
  ipaddress_str.well_formed a ∧
  ip_address (VStr (ipaddress_str.str a)) = Some a.
Proof.
  cbv zeta. split; [reflexivity|].
  assert (Hwf : ipaddress_str.well_formed (ipaddress.IPv6Address 1 (Some "eth0"))).
  { unfold ipaddress_str.well_formed, ipaddress.IPV6_ALL_ONES.
    repeat split; [lia|lia]. }
  split; [exact Hwf|].
  exact (address_text_parses_back _ Hwf).
Defined.

(** X28.  What [ip_address] returns for a text, an integer or a [bool] is
    an address Python can hold: an integer of 32 bits, or an integer of
    128 bits with no scope id or one that is not empty and holds neither
    ['%'] nor ['/']. *)
Theorem ip_address_returns_well_formed v a :
  well_formed_value v → ip_address v = Some a → ipaddress_str.well_formed a.
Proof. apply RoundTrip.parsed_well_formed. Qed.

(** The text [fe80::1%eth0]. *)
Lemma ip_address_returns_well_formed_witness :
  let v := VStr "fe80::1%eth0" in
  let a := ipaddress.IPv6Address 0xfe800000000000000000000000000001
             (Some "eth0") in
  well_formed_value v ∧ ip_address v = Some a ∧ ipaddress_str.well_formed a.
Proof.
  cbv zeta.
  assert (Hv : well_formed_value (VStr "fe80::1%eth0")) by exact I.
  assert (Ha : ip_address (VStr "fe80::1%eth0") =
               Some (ipaddress.IPv6Address 0xfe800000000000000000000000000001
                       (Some "eth0"))) by (vm_compute; reflexivity).
  split; [exact Hv|]. split; [exact Ha|].
  exact (ip_address_returns_well_formed _ _ Hv Ha).
Defined.

(** X29.  In an interface that is built, each address field that is set
    holds an address Python can hold, and the text of that address parses
    back to it: parsing the public address twice (lines 103 and 114)
    neither fails nor changes it. *)
Theorem interface_addresses_parse_back raw t n :
  Forall well_formed_value (address_values raw) →
  from_raw_data_to_network_interface raw = (t, Ok n) →
  Forall (λ field, ∀ a, field = Some a →
            ipaddress_str.well_formed a ∧
            ip_address (VStr (ipaddress_str.str a)) = Some a)
    [public_ip_address n; ipv6_address n; private_ip_address n].
Proof.
  intros Hwf (d & da & v6 & pub & priv & -> & [] & Hpub & _ & Hv6 & Hpriv & _)
    %from_raw_data_to_network_interface_Ok.
  cbn [address_values] in Hwf.
  repeat match goal with
  | H : dict_get _ _ = Some _ |- _ => rewrite H in Hwf; clear H
  end.
  cbn [option_list app] in Hwf.
  apply Forall_cons in Hwf as [Hw6 Hwf].
  apply Forall_cons in Hwf as [Hwpub Hwf].
  apply Forall_cons in Hwf as [Hwpriv _].
  assert (Hboth : ∀ v a, well_formed_value v → ip_address v = Some a →
            ipaddress_str.well_formed a ∧
            ip_address (VStr (ipaddress_str.str a)) = Some a).
  { intros v a Hv Ha. pose proof (RoundTrip.parsed_well_formed v a Hv Ha).
    split; [done|]. by apply RoundTrip.str_round_trip. }
  rewrite Hpub, Hv6, Hpriv. unfold parsed_address.
  apply Forall_cons; split;
    [|apply Forall_cons; split; [|apply Forall_cons; split; [|done]]];
    intros a Ha.
  - by apply (Hboth pub).
  - destruct (truthy v6); [by apply (Hboth v6)|done].
  - destruct (truthy priv); [by apply (Hboth priv)|done].
Qed.

(** An interface record with the three addresses. *)
Lemma interface_addresses_parse_back_witness :
  let raw :=
    example_interface (VStr "198.51.100.5") (VStr "2001:db8::1")
      (VStr "10.0.0.7") in
  let n :=
    {| ip_owner_id := VStr "o"; public_dns_name := VStr "";
       mac_address := VStr "00:00"; network_interface_id := VStr "eni-1";
       owner_id := VStr "o"; private_dns_name := VStr "";
       subnet_id := VStr "s-1"; status := VStr "in-use";
       public_ip_address :=
         Some (ipaddress.IPv4Address
                 (ipaddress.from_bytes_big [198; 51; 100; 5]));
       ipv6_address :=
         Some (ipaddress.IPv6Address 0x20010db8000000000000000000000001
                 None);
       private_ip_address :=
         Some (ipaddress.IPv4Address
                 (ipaddress.from_bytes_big [10; 0; 0; 7])) |} in
  Forall well_formed_value (address_values raw) ∧
  from_raw_data_to_network_interface raw = ([], Ok n) ∧
  Forall (λ field, ∀ a, field = Some a →
            ipaddress_str.well_formed a ∧
            ip_address (VStr (ipaddress_str.str a)) = Some a)
    [public_ip_address n; ipv6_address n; private_ip_address n].
Proof.
  cbv zeta.
  assert (Hwf : Forall well_formed_value
            (address_values
               (example_interface (VStr "198.51.100.5") (VStr "2001:db8::1")
                  (VStr "10.0.0.7")))) by (by repeat constructor).
  split; [exact Hwf|].
  split; [by vm_compute|].
  refine (interface_addresses_parse_back _ [] _ Hwf _). by vm_compute.
Defined.
